(** * Tic-Tac-Toe (MVC console game): the model and the view's input check

    A shallow embedding of [tick-tack-toe.py].  The model class
    [TTTModelScale] owns a play-field, a list of lists of one-character
    strings.  Python lists are objects that are shared by reference, so the
    play-field lives in a store: one address space for the rows (lists of
    strings) and one for the outer lists (lists of row references).  All the
    methods of the model are computations in a state-and-exception monad over
    that store.

    [notifyObserver] calls [updateCurrentSituation] on every observer.  The
    calls are recorded, in order, in a log of the world, so the world a
    method of the model leaves is the one its observers are notified of;
    what the console view does when it is called (read the snapshot, ask for
    a move, forward it to the controller) is
    [TTTView.updateCurrentSituation], which takes the lines that [input]
    will return.  Input lines are ASCII strings. *)

From Stdlib Require Import ZArith String Ascii Bool Lia Decimal DecimalString DecimalPos.
From stdpp Require Import base option list.

Local Open Scope string_scope.
Local Open Scope list_scope.

(** ** Python values and exceptions *)

Inductive exn : Type :=
  | IndexError   (* a subscript out of range *)
  | ValueError   (* int() of a non-number, unpacking of the wrong length *)
  | EOFError     (* input() at the end of the input *)
  | BadRef.      (* a reference to no object: the store is ill-formed *)

Inductive res (A : Type) : Type :=
  | Ok (a : A)
  | Raise (e : exn).
Arguments Ok {A} a.
Arguments Raise {A} e.

Definition res_bind {A B} (r : res A) (k : A -> res B) : res B :=
  match r with
  | Ok a => k a
  | Raise e => Raise e
  end.

Notation "x <-? r ;; k" := (res_bind r (fun x => k))
  (at level 100, r at next level, right associativity, only parsing).

(** [lst[i]] for a Python int [i]: indices [0 .. len-1] count from the
    front, [-len .. -1] from the back, anything else is out of range. *)
Definition py_index (len : nat) (i : Z) : option nat :=
  if (0 <=? i)%Z then
    if (i <? Z.of_nat len)%Z then Some (Z.to_nat i) else None
  else
    if (- Z.of_nat len <=? i)%Z then Some (Z.to_nat (Z.of_nat len + i)) else None.

Definition getitem {A} (l : list A) (i : Z) : res A :=
  match py_index (length l) i with
  | Some k => match l !! k with
              | Some v => Ok v
              | None => Raise IndexError
              end
  | None => Raise IndexError
  end.

Definition setitem {A} (l : list A) (i : Z) (v : A) : res (list A) :=
  match py_index (length l) i with
  | Some k => Ok (<[k := v]> l)
  | None => Raise IndexError
  end.

(** [range(0, n)] *)
Definition range (n : Z) : list Z := map Z.of_nat (seq 0 (Z.to_nat n)).

(** ** The world: the model object, the store, the log of notifications *)

Definition loc := nat.
Definition observer := nat.

Record GameState : Type := mkModel {
  size : Z;
  active_player : string;
  flag_end : bool;
  flag_draw : bool;
  observers : list observer;
  field : loc                (* a reference to the outer list *)
}.

Definition player_0 : string := "Zero Player".
Definition player_X : string := "Cross Player".

Inductive event : Type :=
  | Updated (o : observer).  (* o.updateCurrentSituation() was called *)

Record World : Type := mkWorld {
  model : GameState;
  row_store : list (list string);   (* the inner lists, by address *)
  grid_store : list (list loc);     (* the outer lists, by address *)
  log : list event
}.

Definition M (A : Type) : Type := World -> res A * World.

Definition ret {A} (a : A) : M A := fun w => (Ok a, w).
Definition raise {A} (e : exn) : M A := fun w => (Raise e, w).
Definition bind {A B} (c : M A) (k : A -> M B) : M B :=
  fun w => match c w with
           | (Ok a, w') => k a w'
           | (Raise e, w') => (Raise e, w')
           end.
Definition lift {A} (r : res A) : M A := fun w => (r, w).

Notation "x <~ c ;; k" := (bind c (fun x => k))
  (at level 100, c at next level, right associativity, only parsing).
Notation "c ;;; k" := (bind c (fun _ => k))
  (at level 100, right associativity, only parsing).

Definition self : M GameState := fun w => (Ok (model w), w).
Definition assign (f : GameState -> GameState) : M unit :=
  fun w => (Ok tt, mkWorld (f (model w)) (row_store w) (grid_store w) (log w)).

Definition set_size (n : Z) (m : GameState) : GameState :=
  mkModel n (active_player m) (flag_end m) (flag_draw m) (observers m) (field m).
Definition set_active_player (p : string) (m : GameState) : GameState :=
  mkModel (size m) p (flag_end m) (flag_draw m) (observers m) (field m).
Definition set_flag_end (b : bool) (m : GameState) : GameState :=
  mkModel (size m) (active_player m) b (flag_draw m) (observers m) (field m).
Definition set_flag_draw (b : bool) (m : GameState) : GameState :=
  mkModel (size m) (active_player m) (flag_end m) b (observers m) (field m).
Definition set_observers (os : list observer) (m : GameState) : GameState :=
  mkModel (size m) (active_player m) (flag_end m) (flag_draw m) os (field m).
Definition set_field (f : loc) (m : GameState) : GameState :=
  mkModel (size m) (active_player m) (flag_end m) (flag_draw m) (observers m) f.

(** Store primitives.  A new list gets the next free address. *)
Definition alloc_row (cells : list string) : M loc :=
  fun w => (Ok (length (row_store w)),
            mkWorld (model w) (row_store w ++ [cells]) (grid_store w) (log w)).
Definition alloc_grid (rows : list loc) : M loc :=
  fun w => (Ok (length (grid_store w)),
            mkWorld (model w) (row_store w) (grid_store w ++ [rows]) (log w)).
Definition load_row (r : loc) : M (list string) :=
  fun w => match row_store w !! r with
           | Some cells => (Ok cells, w)
           | None => (Raise BadRef, w)
           end.
Definition load_grid (g : loc) : M (list loc) :=
  fun w => match grid_store w !! g with
           | Some rows => (Ok rows, w)
           | None => (Raise BadRef, w)
           end.
Definition store_row (r : loc) (cells : list string) : M unit :=
  fun w => (Ok tt, mkWorld (model w) (<[r := cells]> (row_store w)) (grid_store w) (log w)).
Definition emit (e : event) : M unit :=
  fun w => (Ok tt, mkWorld (model w) (row_store w) (grid_store w) (log w ++ [e])).

Fixpoint for_each {A} (l : list A) (body : A -> M unit) : M unit :=
  match l with
  | [] => ret tt
  | a :: rest => body a ;;; for_each rest body
  end.

Fixpoint map_each {A B} (l : list A) (f : A -> M B) : M (list B) :=
  match l with
  | [] => ret []
  | a :: rest => b <~ f a ;; bs <~ map_each rest f ;; ret (b :: bs)
  end.

(** [grid[x][y] = v] on the outer list at [g]: the subscript [grid[x]]
    yields a reference to a row, and that row object is updated in place. *)
Definition store_cell (g : loc) (x y : Z) (v : string) : M unit :=
  rows <~ load_grid g ;;
  r <~ lift (getitem rows x) ;;
  cells <~ load_row r ;;
  cells' <~ lift (setitem cells y v) ;;
  store_row r cells'.

(** The value of the nested list at [g], read through the references. *)
Definition load_field (g : loc) : M (list (list string)) :=
  rows <~ load_grid g ;;
  map_each rows load_row.

(** A loop either returns from the method or falls through with its
    local variables. *)
Inductive flow (S : Type) : Type :=
  | Return (b : bool)
  | Next (s : S).
Arguments Return {S} b.
Arguments Next {S} s.

(** ** TTTModelScale *)

Module TTTModelScale.

(** [__init__]: the default size 3, the cross player active, both flags
    down, no observers and an empty play-field [[]]. *)
Definition new : World :=
  mkWorld (mkModel 3 player_X false false [] 0) [] [[]] [].

Definition registerObserver (o : observer) : M unit :=
  assign (fun m => set_observers (observers m ++ [o]) m).

(** What an observer does when it is called is not the model's business:
    the call is recorded in the log, and the state the observer finds is the
    state of the world at that point.  For the program's one observer, the
    view, [Program.rounds] carries the call out. *)
Definition notifyObserver : M unit :=
  m <~ self ;;
  for_each (observers m) (fun o => emit (Updated o)).

(** The setter of the [size] property. *)
Definition size_setter (n : Z) : M unit := assign (set_size n).

Definition startPlay : M unit :=
  m <~ self ;;
  buffer <~ alloc_row (repeat " " (Z.to_nat (size m))) ;;
  rows <~ map_each (range (size m))
            (fun _ => cells <~ load_row buffer ;; alloc_row cells) ;;
  f <~ alloc_grid rows ;;
  assign (set_field f) ;;;
  notifyObserver.

(** The tuple returned by [getData]; its last component refers to the
    outer list made by [copy.copy(self.__field)]. *)
Record snapshot : Type := mkSnapshot {
  snap_size : Z;
  snap_flag_end : bool;
  snap_flag_draw : bool;
  snap_active_player : string;
  snap_field : loc
}.

(** [copy.copy] of an int, a bool or a str is that value; [copy.copy] of a
    list is a new list with the same elements, here the same row
    references. *)
Definition getData : M snapshot :=
  m <~ self ;;
  rows <~ load_grid (field m) ;;
  c <~ alloc_grid rows ;;
  ret (mkSnapshot (size m) (flag_end m) (flag_draw m) (active_player m) c).

(** *** isFullField *)

Fixpoint line_is_full (line : list string) : bool :=
  match line with
  | [] => true
  | column :: rest => if String.eqb column " " then false else line_is_full rest
  end.

Fixpoint isFullField_on (fld : list (list string)) : bool :=
  match fld with
  | [] => true
  | line :: rest => if line_is_full line then isFullField_on rest else false
  end.

Definition isFullField : M bool :=
  m <~ self ;;
  fld <~ load_field (field m) ;;
  ret (isFullField_on fld).

(** *** checkWinner *)

(** The two branches [if column == "X": ... elif column == "0": ...] on a
    pair of counters [(count_X, count_0)]. *)
Definition tally (cell : string) (c : Z * Z) : Z * Z :=
  if String.eqb cell "X" then (fst c + 1, snd c)%Z
  else if String.eqb cell "0" then (fst c, snd c + 1)%Z
  else c.

Fixpoint tally_line (line : list string) (c : Z * Z) : Z * Z :=
  match line with
  | [] => c
  | column :: rest => tally_line rest (tally column c)
  end.

(** [for line in self.__field: ...] *)
Fixpoint horizontal (sz : Z) (fld : list (list string)) (c : Z * Z) : flow (Z * Z) :=
  match fld with
  | [] => Next c
  | line :: rest =>
      let c' := tally_line line c in
      if (fst c' =? sz)%Z || (snd c' =? sz)%Z then Return true
      else horizontal sz rest (0, 0)%Z
  end.

(** [for line in self.__field: ... line[column] ...] *)
Fixpoint tally_column (column : Z) (fld : list (list string)) (c : Z * Z) : res (Z * Z) :=
  match fld with
  | [] => Ok c
  | line :: rest =>
      cell <-? getitem line column ;;
      tally_column column rest (tally cell c)
  end.

(** [for column in range(0, self.size): ...] *)
Fixpoint vertical (sz : Z) (columns : list Z) (fld : list (list string)) (c : Z * Z)
  : res (flow (Z * Z)) :=
  match columns with
  | [] => Ok (Next c)
  | column :: rest =>
      c' <-? tally_column column fld c ;;
      if (fst c' =? sz)%Z || (snd c' =? sz)%Z then Ok (Return true)
      else vertical sz rest fld (0, 0)%Z
  end.

(** The body of the inner diagonal loop on the four counters
    [((count_X, count_0), (count_X_diagonal_rev, count_0_diagonal_rev))]. *)
Definition diagonal_cell (sz : Z) (fld : list (list string)) (line column : Z)
    (c : (Z * Z) * (Z * Z)) : res ((Z * Z) * (Z * Z)) :=
  main <-? (if (line =? column)%Z then
              row <-? getitem fld line ;;
              cell <-? getitem row column ;;
              Ok (tally cell (fst c))
            else Ok (fst c)) ;;
  rev <-? (if (line =? sz - 1 - column)%Z then
             row <-? getitem fld line ;;
             cell <-? getitem row column ;;
             Ok (tally cell (snd c))
           else Ok (snd c)) ;;
  Ok (main, rev).

Fixpoint diagonal_columns (sz : Z) (fld : list (list string)) (line : Z)
    (columns : list Z) (c : (Z * Z) * (Z * Z)) : res ((Z * Z) * (Z * Z)) :=
  match columns with
  | [] => Ok c
  | column :: rest =>
      c' <-? diagonal_cell sz fld line column c ;;
      diagonal_columns sz fld line rest c'
  end.

Fixpoint diagonal_lines (sz : Z) (fld : list (list string)) (lines : list Z)
    (c : (Z * Z) * (Z * Z)) : res ((Z * Z) * (Z * Z)) :=
  match lines with
  | [] => Ok c
  | line :: rest =>
      c' <-? diagonal_columns sz fld line (range sz) c ;;
      diagonal_lines sz fld rest c'
  end.

Definition checkWinner_on (sz : Z) (fld : list (list string)) : res bool :=
  match horizontal sz fld (0, 0)%Z with
  | Return b => Ok b
  | Next c =>
      v <-? vertical sz (range sz) fld c ;;
      match v with
      | Return b => Ok b
      | Next c =>
          d <-? diagonal_lines sz fld (range sz) (c, (0, 0)%Z) ;;
          let '((count_X, count_0), (count_X_diagonal_rev, count_0_diagonal_rev)) := d in
          Ok ((sz =? count_X)%Z || (sz =? count_0)%Z
              || (sz =? count_X_diagonal_rev)%Z || (sz =? count_0_diagonal_rev)%Z)
      end
  end.

Definition checkWinner : M bool :=
  m <~ self ;;
  fld <~ load_field (field m) ;;
  lift (checkWinner_on (size m) fld).

(** *** nextStep and setCell *)

Definition nextStep : M unit :=
  won <~ checkWinner ;;
  assign (set_flag_end won) ;;;
  (if negb won then
     full <~ isFullField ;;
     assign (set_flag_draw full) ;;;
     (if negb full then
        m <~ self ;;
        if String.eqb (active_player m) player_X
        then assign (set_active_player player_0)
        else assign (set_active_player player_X)
      else ret tt)
   else ret tt) ;;;
  notifyObserver.

Definition setCell (x y : Z) : M unit :=
  m <~ self ;;
  (if String.eqb (active_player m) player_X
   then store_cell (field m) x y "X"
   else store_cell (field m) x y "0") ;;;
  nextStep.

End TTTModelScale.

(** ** Winning lines, as the rules of the game state them *)

Definition cell (fld : list (list string)) (r c : nat) : option string :=
  match fld !! r with
  | Some line => line !! c
  | None => None
  end.

Definition square (n : nat) (fld : list (list string)) : Prop :=
  length fld = n /\ Forall (fun line => length line = n) fld.

Definition row_line (m : string) (n : nat) (fld : list (list string)) : Prop :=
  exists r, r < n /\ forall c, c < n -> cell fld r c = Some m.
Definition column_line (m : string) (n : nat) (fld : list (list string)) : Prop :=
  exists c, c < n /\ forall r, r < n -> cell fld r c = Some m.
Definition main_diagonal (m : string) (n : nat) (fld : list (list string)) : Prop :=
  forall i, i < n -> cell fld i i = Some m.
Definition anti_diagonal (m : string) (n : nat) (fld : list (list string)) : Prop :=
  forall i, i < n -> cell fld i (n - 1 - i) = Some m.

(** The two marks a player can place. *)
Definition marker (m : string) : Prop := m = "X" \/ m = "0".

Definition line_of (m : string) (n : nat) (fld : list (list string)) : Prop :=
  row_line m n fld \/ column_line m n fld \/ main_diagonal m n fld \/ anti_diagonal m n fld.

Definition winning_line (n : nat) (fld : list (list string)) : Prop :=
  line_of "X" n fld \/ line_of "0" n fld.

Definition no_empty_cell (fld : list (list string)) : Prop :=
  forall r c, cell fld r c <> Some " ".

Fixpoint count_of (m : string) (l : list string) : nat :=
  match l with
  | [] => 0
  | s :: rest => if String.eqb s m then S (count_of m rest) else count_of m rest
  end.

(** The cells of one column, top to bottom, and of the two diagonals. *)
Definition column_cells (k : nat) (fld : list (list string)) : list string :=
  map (fun line => default "" (line !! k)) fld.
Definition peek (fld : list (list string)) (r c : nat) : string :=
  default "" (cell fld r c).
Definition main_cells (n : nat) (fld : list (list string)) (ls : list nat) : list string :=
  map (fun i => peek fld i i) ls.
Definition anti_cells (n : nat) (fld : list (list string)) (ls : list nat) : list string :=
  map (fun i => peek fld i (n - 1 - i)) ls.

(** ** The play-field as a value, and the states a game goes through *)

(** The nested list at [g], with the references followed. *)
Definition grid_at (w : World) (g : loc) : option (list (list string)) :=
  match grid_store w !! g with
  | Some rows => mapM (fun r => row_store w !! r) rows
  | None => None
  end.

Definition play_field (w : World) : option (list (list string)) :=
  grid_at w (field (model w)).

(** The model's play-field is the outer list [rows], its rows are distinct
    objects, and read through the references it is [fld]. *)
Definition owns (w : World) (rows : list loc) (fld : list (list string)) : Prop :=
  grid_store w !! field (model w) = Some rows
  /\ NoDup rows
  /\ Forall2 (fun r line => row_store w !! r = Some line) rows fld.

(** The symbol [setCell] writes for the active player. *)
Definition symbol_of (player : string) : string :=
  if String.eqb player player_X then "X" else "0".

Definition other_player (player : string) : string :=
  if String.eqb player player_X then player_0 else player_X.

(** [grid[x][y]], as an expression. *)
Definition load_cell (g : loc) (x y : Z) : M string :=
  rows <~ load_grid g ;;
  r <~ lift (getitem rows x) ;;
  cells <~ load_row r ;;
  lift (getitem cells y).

(** The caller's side of the contract of [setCell]: the cell that the
    subscripts [x], [y] select holds a space. *)
Definition targets_empty (w : World) (x y : Z) : Prop :=
  fst (load_cell (field (model w)) x y w) = Ok " ".

Definition exec {A} (c : M A) (w : World) : World := snd (c w).

(** A model as the controller sets it up: constructed, the observers
    registered, the size chosen, the play started. *)
Definition construct (obs : list observer) : World :=
  fold_left (fun w o => exec (TTTModelScale.registerObserver o) w) obs TTTModelScale.new.

Definition start (n : nat) (obs : list observer) : World :=
  exec TTTModelScale.startPlay
    (exec (TTTModelScale.size_setter (Z.of_nat n)) (construct obs)).

(** The worlds a started game can be in after any calls of [setCell] and
    [getData].  With [strict] every call of [setCell] keeps the caller's
    contract; without it the coordinates are arbitrary (a call that raises
    leaves the world as it was). *)
Inductive reachable (strict : bool) : World -> Prop :=
  | reach_start n obs : reachable strict (start n obs)
  | reach_getData w :
      reachable strict w -> reachable strict (exec TTTModelScale.getData w)
  | reach_setCell w x y :
      reachable strict w ->
      (strict = true -> targets_empty w x y) ->
      reachable strict (exec (TTTModelScale.setCell x y) w).

(** The status the view derives from the two flags, in the order of its
    [if flag_end: ... elif flag_draw: ... else: ...]. *)
Inductive status : Type := Won | Drawn | InProgress.

Definition status_of (m : GameState) : status :=
  if flag_end m then Won else if flag_draw m then Drawn else InProgress.

Definition notified (w : World) : World :=
  mkWorld (model w) (row_store w) (grid_store w)
          (log w ++ map Updated (observers (model w))).

(** The attributes after [nextStep], given the answers of [checkWinner]
    and [isFullField]. *)
Definition settle (won full : bool) (m : GameState) : GameState :=
  if won then set_flag_end true m
  else if full then set_flag_draw true (set_flag_end false m)
  else set_active_player (other_player (active_player m))
         (set_flag_draw false (set_flag_end false m)).

Definition with_model (m : GameState) (w : World) : World :=
  mkWorld m (row_store w) (grid_store w) (log w).
Definition with_rows (rs : list (list string)) (w : World) : World :=
  mkWorld (model w) rs (grid_store w) (log w).

(** What holds of every world of a started game, whatever is passed to
    [setCell]: the play-field is a square of distinct rows, the active
    player is one of the two, a raised end flag comes with a line of the
    active player's symbol, a lowered one with no line at all, and a raised
    draw flag with a full field. *)
Definition invariant (n : nat) (w : World) : Prop :=
  size (model w) = Z.of_nat n
  /\ exists rows fld,
       owns w rows fld /\ square n fld
       /\ (active_player (model w) = player_X \/ active_player (model w) = player_0)
       /\ (flag_end (model w) = true ->
           line_of (symbol_of (active_player (model w))) n fld)
       /\ (flag_end (model w) = false -> 0 < n -> ~ winning_line n fld)
       /\ (flag_draw (model w) = true -> TTTModelScale.isFullField_on fld = true).

(** The four diagonal counters, each diagonal counted on its own. *)
Definition diagonal_counts (n : nat) (fld : list (list string)) : (Z * Z) * (Z * Z) :=
  ((Z.of_nat (count_of "X" (main_cells n fld (seq 0 n))),
    Z.of_nat (count_of "0" (main_cells n fld (seq 0 n)))),
   (Z.of_nat (count_of "X" (anti_cells n fld (seq 0 n))),
    Z.of_nat (count_of "0" (anti_cells n fld (seq 0 n))))).



(** The position a subscript selects in a list of length [n]. *)
Definition wrap (n : nat) (i : Z) : nat :=
  if (i <? 0)%Z then Z.to_nat (Z.of_nat n + i) else Z.to_nat i.

(** Games used as examples: a sequence of calls of [setCell], a 3 x 3 game
    that ends in a draw with the ninth mark, and one that the zero player
    wins on the middle row. *)
Definition moves (ms : list (Z * Z)) (w : World) : World :=
  fold_left (fun w xy => exec (TTTModelScale.setCell (fst xy) (snd xy)) w) ms w.

Definition drawn_game : World :=
  moves [(0, 0); (0, 1); (0, 2); (1, 1); (1, 0); (1, 2); (2, 1); (2, 0); (2, 2)]%Z
        (start 3 []).

Definition zero_won_game : World :=
  moves [(0, 0); (1, 0); (0, 1); (1, 1); (2, 2); (1, 2)]%Z (start 3 []).

(** ** TTTController and TTTView: asking the active player for a move *)

Module TTTController.

Definition setCell (x y : Z) : M unit := TTTModelScale.setCell x y.

End TTTController.

Module TTTView.

(** [str.isspace] on an ASCII character, the characters [strip()] removes. *)
Definition is_space (c : ascii) : bool :=
  let n := nat_of_ascii c in
  ((9 <=? n)%nat && (n <=? 13)%nat) || ((28 <=? n)%nat && (n <=? 32)%nat).

Fixpoint lstrip (s : string) : string :=
  match s with
  | EmptyString => EmptyString
  | String c rest => if is_space c then lstrip rest else s
  end.

Fixpoint rstrip (s : string) : string :=
  match s with
  | EmptyString => EmptyString
  | String c rest =>
      match rstrip rest with
      | EmptyString => if is_space c then EmptyString else String c EmptyString
      | kept => String c kept
      end
  end.

Definition strip (s : string) : string := rstrip (lstrip s).

(** [line.replace("  ", " ")]: the occurrences are replaced from the left,
    without overlap. *)
Fixpoint replace_double_space (s : string) : string :=
  match s with
  | String a (String b rest as tail) =>
      if Ascii.eqb a " " && Ascii.eqb b " "
      then String " " (replace_double_space rest)
      else String a (replace_double_space tail)
  | _ => s
  end.

(** The loop [while line_next != line: ...]; every turn that changes the
    line shortens it, so its length bounds the number of turns. *)
Fixpoint squeeze (turns : nat) (line : string) : string :=
  let line_next := replace_double_space line in
  if String.eqb line_next line then line_next
  else match turns with
       | O => line_next
       | S turns' => squeeze turns' line_next
       end.

(** [line.count(" ")] *)
Fixpoint count_space (s : string) : Z :=
  match s with
  | EmptyString => 0
  | String c rest => if Ascii.eqb c " " then 1 + count_space rest else count_space rest
  end.

(** [line.split(" ")] *)
Fixpoint split_space (s : string) : list string :=
  match s with
  | EmptyString => [EmptyString]
  | String c rest =>
      if Ascii.eqb c " " then EmptyString :: split_space rest
      else match split_space rest with
           | tok :: toks => String c tok :: toks
           | [] => [String c EmptyString]
           end
  end.

(** [x, y = ...]: anything but two values is a [ValueError]. *)
Definition unpack_pair (parts : list string) : res (string * string) :=
  match parts with
  | [x; y] => Ok (x, y)
  | _ => Raise ValueError
  end.

(** [int(s)] on an ASCII string: blanks around, an optional sign, then
    decimal digits, single underscores allowed between two digits.  The
    interpreter's limit on the number of digits ([max_str_digits]) is not
    part of it. *)
Definition is_blank (c : ascii) : bool :=
  let n := nat_of_ascii c in
  ((9 <=? n)%nat && (n <=? 13)%nat) || (n =? 32)%nat.

Fixpoint lskip (s : string) : string :=
  match s with
  | EmptyString => EmptyString
  | String c rest => if is_blank c then lskip rest else s
  end.

Fixpoint rskip (s : string) : string :=
  match s with
  | EmptyString => EmptyString
  | String c rest =>
      match rskip rest with
      | EmptyString => if is_blank c then EmptyString else String c EmptyString
      | kept => String c kept
      end
  end.

Definition digit_value (c : ascii) : option Z :=
  let n := nat_of_ascii c in
  if ((48 <=? n)%nat && (n <=? 57)%nat) then Some (Z.of_nat (n - 48)) else None.

Fixpoint digits (s : string) (acc : Z) (after_digit : bool) : res Z :=
  match s with
  | EmptyString => if after_digit then Ok acc else Raise ValueError
  | String c rest =>
      match digit_value c with
      | Some d => digits rest (10 * acc + d)%Z true
      | None =>
          if Ascii.eqb c "_" && after_digit then digits rest acc false
          else Raise ValueError
      end
  end.

Definition int (s : string) : res Z :=
  match rskip (lskip s) with
  | String "+" rest => digits rest 0 false
  | String "-" rest => v <-? digits rest 0 false ;; Ok (- v)%Z
  | body => digits body 0 false
  end.

(** The warnings the view prints before it asks again. *)
Inductive warning : Type :=
  | MustEnterCoordinate
  | OnlyTwoCoordinates
  | NotGreaterThanSize
  | CellMustBeEmpty
  | Printed (e : exn).

Inductive verdict : Type :=
  | Again (why : warning)
  | Move (x y : Z).

(** The body of the [try] for one line of input, on the size and the
    play-field of the snapshot. *)
Definition try_line (sz : Z) (fld : loc) (line : string) : M verdict :=
  if String.eqb line "" then ret (Again MustEnterCoordinate)
  else
    let line := strip line in
    let line := squeeze (String.length line) line in
    if (1 <? count_space line)%Z then ret (Again OnlyTwoCoordinates)
    else
      xy <~ lift (unpack_pair (split_space line)) ;;
      x <~ lift (int (fst xy)) ;;
      y <~ lift (int (snd xy)) ;;
      if (sz <? x)%Z || (sz <? y)%Z then ret (Again NotGreaterThanSize)
      else
        c <~ load_cell fld (x - 1) (y - 1) ;;
        if negb (String.eqb c " ") then ret (Again CellMustBeEmpty)
        else ret (Move x y).

(** [except ValueError as err: print(err)]; any other exception leaves
    the loop and the method. *)
Definition guarded (sz : Z) (fld : loc) (line : string) : M verdict :=
  fun w => match try_line sz fld line w with
           | (Raise ValueError, w') => (Ok (Again (Printed ValueError)), w')
           | other => other
           end.

(** [while True: ...] on the lines that [input] will return. *)
Fixpoint ask (sz : Z) (fld : loc) (inputs : list string) : M (Z * Z * list string) :=
  match inputs with
  | [] => raise EOFError
  | line :: rest =>
      v <~ guarded sz fld line ;;
      match v with
      | Again _ => ask sz fld rest
      | Move x y => ret (x, y, rest)
      end
  end.


End TTTView.

(** ** The rest of the view: the field on the console, the dialog at the start *)

Module TTTViewConsole.

(** [str(n)] of a Python int: its decimal digits, after a minus sign when
    it is negative. *)
Definition str (z : Z) : string := NilZero.string_of_int (Z.to_int z).

(** [range(1, size + 1)] and [enumerate(field, 1)] *)
Definition range_from_1 (n : Z) : list Z :=
  map (fun k => (Z.of_nat k + 1)%Z) (seq 0 (Z.to_nat n)).

Fixpoint enumerate {A} (start : Z) (l : list A) : list (Z * A) :=
  match l with
  | [] => []
  | a :: rest => (start, a) :: enumerate (start + 1)%Z rest
  end.

(** [for number in range(1, size+1): pr_line += " " + str(number)] *)
Fixpoint add_numbers (pr_line : string) (numbers : list Z) : string :=
  match numbers with
  | [] => pr_line
  | number :: rest => add_numbers (pr_line ++ " " ++ str number)%string rest
  end.

(** [for element in line: pr_line += " " + element] *)
Fixpoint add_elements (pr_line : string) (line : list string) : string :=
  match line with
  | [] => pr_line
  | element :: rest => add_elements (pr_line ++ " " ++ element)%string rest
  end.

(** The lines that [buildField] passes to [print], in order; [print] writes
    each of them followed by a space and two ends of line. *)
Definition buildField (field : list (list string)) (size : Z) : list string :=
  add_numbers "  " (range_from_1 size)
  :: map (fun row => add_elements (" " ++ str (fst row))%string (snd row))
         (enumerate 1 field).

(** The loop of [printStartMessage]: the answer it leaves in [line], and
    the lines of input not read yet. *)
Fixpoint standart_field (inputs : list string) : res (string * list string) :=
  match inputs with
  | [] => Raise EOFError
  | line :: rest =>
      if String.eqb line "" then Ok ("y", rest)
      else if String.eqb line "y" || String.eqb line "n" then Ok (line, rest)
      else standart_field rest
  end.

(** [queryChangeSize]: the size, and the lines of input not read yet. *)
Fixpoint queryChangeSize (inputs : list string) : res (Z * list string) :=
  match inputs with
  | [] => Raise EOFError
  | line :: rest =>
      if String.eqb line "" then Ok (3%Z, rest)
      else match TTTView.int line with
           | Ok i => if (i <? 3)%Z then queryChangeSize rest else Ok (i, rest)
           | Raise ValueError => queryChangeSize rest
           | Raise e => Raise e
           end
  end.

End TTTViewConsole.

(** ** The program: [main], the controller's start, the turns of the game *)

Module Program.

(** The one observer of the program, the view made by the controller. *)
Definition the_view : observer := 0.

(** [updateCurrentSituation] with the call that [notifyObserver] makes
    carried out.  In the program the view's call for the next turn runs
    inside [notifyObserver], inside [nextStep], inside the model's and the
    controller's [setCell], inside the view's call for this turn: five
    frames to a move, none of which returns before the game is over.  The
    view is the only observer and in each of the five the call is the last
    thing done, outside every [try]; so the nested calls compute what the
    turns below compute one after the other, and an exception ends them
    all.  The interpreter's limit on the nesting is not part of this: the
    statements about whole runs are made for [modest] input, which stays
    well below it.  Every turn that goes on reads a line of input, so
    [turns] bounds the turns of a game on [turns] lines or fewer. *)
Fixpoint rounds (turns : nat) (inputs : list string) : M (list string) :=
  match turns with
  | O => ret inputs
  | S turns' =>
      s <~ TTTModelScale.getData ;;
      if TTTModelScale.snap_flag_end s then ret inputs
      else if TTTModelScale.snap_flag_draw s then ret inputs
      else
        m <~ TTTView.ask (TTTModelScale.snap_size s) (TTTModelScale.snap_field s) inputs ;;
        TTTController.setCell (fst (fst m) - 1) (snd (fst m) - 1) ;;;
        rounds turns' (snd m)
  end.

(** The call of the view that [startPlay] makes by [notifyObserver], and
    all that follows from it. *)
Definition play (inputs : list string) : M (list string) :=
  rounds (S (length inputs)) inputs.

Definition startWithStandartSize (inputs : list string) : M (list string) :=
  TTTModelScale.startPlay ;;;
  play inputs.

Definition startWithNoStandartSize (inputs : list string) : M (list string) :=
  new_size <~ lift (TTTViewConsole.queryChangeSize inputs) ;;
  TTTModelScale.size_setter (fst new_size) ;;;
  TTTModelScale.startPlay ;;;
  play (snd new_size).

Definition printStartMessage (inputs : list string) : M (list string) :=
  line <~ lift (TTTViewConsole.standart_field inputs) ;;
  if String.eqb (fst line) "y" then startWithStandartSize (snd line)
  else startWithNoStandartSize (snd line).

(** [TTTView.__init__] registers the view; [TTTController.__init__] makes
    the view and opens the dialog; [main] makes the model and the
    controller. *)
Definition TTTView_init : M unit := TTTModelScale.registerObserver the_view.

Definition TTTController_init (inputs : list string) : M (list string) :=
  TTTView_init ;;;
  printStartMessage inputs.

Definition main (inputs : list string) : res (list string) * World :=
  TTTController_init inputs TTTModelScale.new.

End Program.

(** ** Counting the cells of a play-field *)

(** The number of cells of the field that hold [m]. *)
Fixpoint count_cells (m : string) (fld : list (list string)) : nat :=
  match fld with
  | [] => 0
  | line :: rest => count_of m line + count_cells m rest
  end.

(** Every cell holds a space, a cross or a zero. *)
Definition marks_only (fld : list (list string)) : Prop :=
  forall r c s, cell fld r c = Some s -> s = " " \/ s = "X" \/ s = "0".

(** ** Lines of input *)

(** [k] spaces, and the line a player types for the coordinates [x], [y]:
    any number of spaces before, between (at least one) and after the two
    numbers. *)
Fixpoint spaces (k : nat) : string :=
  match k with
  | O => EmptyString
  | S k' => String " " (spaces k')
  end.

Definition typed (before : nat) (x : Z) (between : nat) (y : Z) (after : nat) : string :=
  (spaces before ++ TTTViewConsole.str x ++ spaces (S between)
   ++ TTTViewConsole.str y ++ spaces after)%string.

(** The line as the view parses it: stripped, the double spaces removed. *)
Definition normalized (line : string) : string :=
  TTTView.squeeze (String.length (TTTView.strip line)) (TTTView.strip line).

(** No two spaces side by side. *)
Fixpoint single_spaced (s : string) : bool :=
  match s with
  | String a (String b _ as tail) =>
      if Ascii.eqb a " " && Ascii.eqb b " " then false else single_spaced tail
  | _ => true
  end.

(** The tokens put back together with one space between them. *)
Fixpoint join_space (toks : list string) : string :=
  match toks with
  | [] => EmptyString
  | [tok] => tok
  | tok :: rest => (tok ++ String " " (join_space rest))%string
  end.

(** ** The games the program plays *)

(** The worlds of a game in which every call of [setCell] is made while the
    game is in progress, on a cell that holds a space. *)
Inductive in_play : World -> Prop :=
  | play_start n obs : in_play (start n obs)
  | play_getData w : in_play w -> in_play (exec TTTModelScale.getData w)
  | play_setCell w x y :
      in_play w ->
      status_of (model w) = InProgress ->
      targets_empty w x y ->
      in_play (exec (TTTModelScale.setCell x y) w).

(** The crosses are as many as the zeros or one more, and while the game is
    in progress the two counts tell whose turn it is. *)
Definition balanced (w : World) (fld : list (list string)) : Prop :=
  match status_of (model w) with
  | InProgress =>
      (active_player (model w) = player_X
       /\ count_cells "X" fld = count_cells "0" fld)
      \/ (active_player (model w) = player_0
          /\ count_cells "X" fld = S (count_cells "0" fld))
  | _ =>
      count_cells "X" fld = count_cells "0" fld
      \/ count_cells "X" fld = S (count_cells "0" fld)
  end.

(** Every cell is a string of one character, as the cells of the model
    are. *)
Definition one_char_cells (fld : list (list string)) : Prop :=
  Forall (Forall (fun c => String.length c = 1)) fld.

(** ** What is left to the interpreter

    Three limits of the interpreter are not part of the model.  CPython
    (3.11 and later) refuses to convert a string of more than 4300 digits
    and raises [ValueError]; [short_number] says that a number is written
    with 4300 digits at most.  Every move nests five calls
    ([updateCurrentSituation], the controller's [setCell], the model's
    [setCell], [nextStep], [notifyObserver]) and none of them returns
    before the game is over, while the interpreter allows 1000 frames;
    and a field takes memory in the square of its side.  The functions of
    the view read characters as bytes, and above 127 [str.strip] and [int]
    know blanks and digits that they do not.  [modest] describes the input
    that stays clear of all of this: at most [most_lines] lines, each of
    ASCII characters only and no longer than the digits allowed, none of
    them a number above [largest_side]. *)
Definition max_str_digits : nat := 4300.

Definition short_number (x : Z) : Prop :=
  (Z.abs x < 10 ^ Z.of_nat max_str_digits)%Z.

Definition most_lines : nat := 100.

Definition largest_side : Z := 100.

Fixpoint ascii_line (line : string) : bool :=
  match line with
  | EmptyString => true
  | String c rest => (nat_of_ascii c <? 128)%nat && ascii_line rest
  end.

Definition modest_line (line : string) : bool :=
  ascii_line line
  && (String.length line <=? max_str_digits)%nat
  && match TTTView.int line with
     | Ok i => (i <=? largest_side)%Z
     | Raise _ => true
     end.

Definition modest (inputs : list string) : bool :=
  (length inputs <=? most_lines)%nat && forallb modest_line inputs.

(** * Proofs *)

Local Open Scope nat_scope.

(** ** Counting marks *)

Lemma count_of_le m l : count_of m l <= length l.
Proof.
  induction l as [|s l IH]; simpl; [lia|].
  destruct (String.eqb s m); lia.
Qed.

Lemma count_of_full m l : count_of m l = length l <-> Forall (fun s => s = m) l.
Proof.
  induction l as [|s l IH]; simpl.
  - split; [constructor | reflexivity].
  - destruct (String.eqb_spec s m) as [->|Hne].
    + split.
      * intros H. constructor; [reflexivity|]. apply IH. lia.
      * intros H. inversion H; subst. f_equal. now apply IH.
    + split.
      * intros H. pose proof (count_of_le m l). lia.
      * intros H. inversion H; subst. contradiction.
Qed.

Lemma count_of_map_full {A} m (f : A -> string) (l : list A) :
  count_of m (map f l) = length l <-> forall a, In a l -> f a = m.
Proof.
  rewrite <- (length_map f l), count_of_full, Forall_forall.
  split.
  - intros H a Ha. apply H. apply list_elem_of_In. now apply in_map.
  - intros H s Hs. apply list_elem_of_In, in_map_iff in Hs as (a & <- & Ha). auto.
Qed.

Lemma tally_line_counts line c :
  TTTModelScale.tally_line line c
  = (fst c + Z.of_nat (count_of "X" line), snd c + Z.of_nat (count_of "0" line))%Z.
Proof.
  revert c. induction line as [|s line IH]; intros [a b]; simpl.
  - f_equal; lia.
  - rewrite IH. unfold TTTModelScale.tally.
    destruct (String.eqb_spec s "X") as [->|HX]; simpl.
    + f_equal; lia.
    + destruct (String.eqb_spec s "0") as [->|H0]; simpl; f_equal; lia.
Qed.

Lemma py_index_nat len k : k < len -> py_index len (Z.of_nat k) = Some k.
Proof.
  intros H. unfold py_index.
  destruct (Z.leb_spec 0 (Z.of_nat k)); [|lia].
  destruct (Z.ltb_spec (Z.of_nat k) (Z.of_nat len)); [|lia].
  now rewrite Nat2Z.id.
Qed.

(** ** The three searches of [checkWinner] on a square play-field *)

Lemma counter_hit n line :
  length line = n ->
  let c := TTTModelScale.tally_line line (0, 0)%Z in
  ((fst c =? Z.of_nat n)%Z || (snd c =? Z.of_nat n)%Z = true)
  <-> exists m, marker m /\ Forall (fun s => s = m) line.
Proof.
  intros Hlen c. subst c. rewrite tally_line_counts. simpl.
  rewrite orb_true_iff, !Z.eqb_eq. split.
  - intros [H|H]; [exists "X" | exists "0"]; (split; [unfold marker; auto|]);
      apply count_of_full; lia.
  - intros (m & [->| ->] & H); apply count_of_full in H; [left | right]; lia.
Qed.

Lemma horizontal_spec n fld :
  Forall (fun line => length line = n) fld ->
  (TTTModelScale.horizontal (Z.of_nat n) fld (0, 0)%Z = Return true
   /\ exists line m, line ∈ fld /\ marker m /\ Forall (fun s => s = m) line)
  \/ (TTTModelScale.horizontal (Z.of_nat n) fld (0, 0)%Z = Next (0, 0)%Z
      /\ forall line m, line ∈ fld -> marker m -> ~ Forall (fun s => s = m) line).
Proof.
  induction 1 as [|line fld Hlen Hall IH]; simpl.
  - right. split; [reflexivity|]. intros line m Hin. inversion Hin.
  - pose proof (counter_hit n line Hlen) as Hhit. simpl in Hhit.
    destruct ((fst (TTTModelScale.tally_line line (0, 0)%Z) =? Z.of_nat n)%Z
              || (snd (TTTModelScale.tally_line line (0, 0)%Z) =? Z.of_nat n)%Z) eqn:E.
    + left. split; [reflexivity|].
      destruct (proj1 Hhit eq_refl) as (m & Hm & Hf).
      exists line, m. split; [left | auto].
    + destruct IH as [(-> & line' & m & Hin & Hm & Hf) | (-> & Hno)].
      * left. split; [reflexivity|]. exists line', m. split; [now right | auto].
      * right. split; [reflexivity|]. intros line' m Hin Hm Hf.
        apply elem_of_cons in Hin as [-> | Hin].
        -- assert (false = true) by (apply Hhit; eauto). discriminate.
        -- exact (Hno line' m Hin Hm Hf).
Qed.

Lemma row_line_iff m n fld :
  square n fld ->
  row_line m n fld <-> exists line, line ∈ fld /\ Forall (fun s => s = m) line.
Proof.
  intros [Hlen Hrows]. split.
  - intros (r & Hr & Hc).
    destruct (lookup_lt_is_Some_2 fld r) as [line Hline]; [lia|].
    exists line. split; [eapply list_elem_of_lookup_2; eauto|].
    apply Forall_lookup. intros c s Hs.
    assert (length line = n) as Hl.
    { rewrite Forall_forall in Hrows. apply Hrows. eapply list_elem_of_lookup_2; eauto. }
    apply lookup_lt_Some in Hs as Hlt.
    specialize (Hc c ltac:(lia)). unfold cell in Hc. rewrite Hline in Hc. congruence.
  - intros (line & Hin & Hf).
    apply list_elem_of_lookup in Hin as [r Hr].
    exists r. apply lookup_lt_Some in Hr as Hlt. split; [lia|].
    intros c Hc. unfold cell. rewrite Hr.
    assert (length line = n) as Hl.
    { rewrite Forall_forall in Hrows. apply Hrows. eapply list_elem_of_lookup_2; eauto. }
    destruct (lookup_lt_is_Some_2 line c) as [s Hs]; [lia|].
    rewrite Hs. f_equal. rewrite Forall_lookup in Hf. eauto.
Qed.

Lemma getitem_nat {A} (l : list A) k v : l !! k = Some v -> getitem l (Z.of_nat k) = Ok v.
Proof.
  intros H. unfold getitem.
  rewrite py_index_nat by (eapply lookup_lt_Some; eauto). now rewrite H.
Qed.

Lemma tally_column_spec k fld c :
  Forall (fun line => k < length line) fld ->
  TTTModelScale.tally_column (Z.of_nat k) fld c
  = Ok (TTTModelScale.tally_line (column_cells k fld) c).
Proof.
  intros H. revert c. induction H as [|line fld Hk _ IH]; intros c; simpl; [reflexivity|].
  destruct (lookup_lt_is_Some_2 line k Hk) as [s Hs].
  rewrite (getitem_nat _ _ _ Hs), Hs. simpl. apply IH.
Qed.

Lemma column_cells_length k fld : length (column_cells k fld) = length fld.
Proof. apply length_map. Qed.

Lemma vertical_spec n fld cols :
  square n fld ->
  Forall (fun k => k < n) cols ->
  (TTTModelScale.vertical (Z.of_nat n) (map Z.of_nat cols) fld (0, 0)%Z = Ok (Return true)
   /\ exists k m, k ∈ cols /\ marker m /\ Forall (fun s => s = m) (column_cells k fld))
  \/ (TTTModelScale.vertical (Z.of_nat n) (map Z.of_nat cols) fld (0, 0)%Z = Ok (Next (0, 0)%Z)
      /\ forall k m, k ∈ cols -> marker m -> ~ Forall (fun s => s = m) (column_cells k fld)).
Proof.
  intros [Hlen Hrows]. induction 1 as [|k cols Hk Hall IH]; simpl.
  - right. split; [reflexivity|]. intros k m Hin. inversion Hin.
  - rewrite tally_column_spec
      by (eapply Forall_impl; [exact Hrows | simpl; intros; lia]).
    simpl.
    assert (length (column_cells k fld) = n) as Hcl by (now rewrite column_cells_length).
    pose proof (counter_hit n _ Hcl) as Hhit. simpl in Hhit.
    destruct ((fst (TTTModelScale.tally_line (column_cells k fld) (0, 0)%Z) =? Z.of_nat n)%Z
              || (snd (TTTModelScale.tally_line (column_cells k fld) (0, 0)%Z) =? Z.of_nat n)%Z) eqn:E.
    + left. split; [reflexivity|].
      destruct (proj1 Hhit eq_refl) as (m & Hm & Hf).
      exists k, m. split; [left | auto].
    + destruct IH as [(-> & k' & m & Hin & Hm & Hf) | (-> & Hno)].
      * left. split; [reflexivity|]. exists k', m. split; [now right | auto].
      * right. split; [reflexivity|]. intros k' m Hin Hm Hf.
        apply elem_of_cons in Hin as [-> | Hin].
        -- assert (false = true) by (apply Hhit; eauto). discriminate.
        -- exact (Hno k' m Hin Hm Hf).
Qed.

Lemma square_cell n fld r c :
  square n fld -> r < n -> c < n -> cell fld r c = Some (peek fld r c).
Proof.
  intros [Hlen Hrows] Hr Hc. unfold peek, cell.
  destruct (lookup_lt_is_Some_2 fld r) as [line Hline]; [lia|]. rewrite Hline.
  assert (length line = n) as Hl.
  { rewrite Forall_forall in Hrows. apply Hrows. eapply list_elem_of_lookup_2; eauto. }
  destruct (lookup_lt_is_Some_2 line c) as [s Hs]; [lia|]. now rewrite Hs.
Qed.

Lemma column_cells_lookup k fld r :
  column_cells k fld !! r = (fun line => default "" (line !! k)) <$> fld !! r.
Proof. unfold column_cells. apply list_lookup_fmap. Qed.

Lemma column_line_iff m n fld :
  square n fld ->
  column_line m n fld
  <-> exists k, k < n /\ Forall (fun s => s = m) (column_cells k fld).
Proof.
  intros Hsq. pose proof Hsq as [Hlen Hrows]. split.
  - intros (k & Hk & Hr). exists k. split; [exact Hk|].
    apply Forall_lookup. intros r s Hs.
    apply lookup_lt_Some in Hs as Hlt. rewrite column_cells_length in Hlt.
    specialize (Hr r ltac:(lia)).
    rewrite column_cells_lookup in Hs. unfold cell in Hr.
    destruct (fld !! r) as [line|]; [|discriminate]. simpl in Hs.
    rewrite Hr in Hs. simpl in Hs. congruence.
  - intros (k & Hk & Hf). exists k. split; [exact Hk|].
    intros r Hr. rewrite (square_cell n) by auto. f_equal.
    rewrite Forall_lookup in Hf. apply (Hf r).
    rewrite column_cells_lookup. unfold peek, cell.
    destruct (lookup_lt_is_Some_2 fld r) as [line Hline]; [lia|]. now rewrite Hline.
Qed.

Lemma range_of_nat n : range (Z.of_nat n) = map Z.of_nat (seq 0 n).
Proof. unfold range. now rewrite Nat2Z.id. Qed.

Lemma getitem_cell n fld r c :
  square n fld -> r < n -> c < n ->
  (row <-? getitem fld (Z.of_nat r) ;; getitem row (Z.of_nat c)) = Ok (peek fld r c).
Proof.
  intros Hsq Hr Hc. pose proof (square_cell n fld r c Hsq Hr Hc) as H.
  unfold cell in H. destruct (fld !! r) as [line|] eqn:Hline; [|discriminate].
  rewrite (getitem_nat _ _ _ Hline). simpl. now apply getitem_nat.
Qed.

Lemma diagonal_cell_spec n fld l c c1 c2 :
  square n fld -> l < n -> c < n ->
  TTTModelScale.diagonal_cell (Z.of_nat n) fld (Z.of_nat l) (Z.of_nat c) (c1, c2)
  = Ok (if Nat.eqb l c then TTTModelScale.tally (peek fld l c) c1 else c1,
        if Nat.eqb (l + c + 1) n then TTTModelScale.tally (peek fld l c) c2 else c2).
Proof.
  intros Hsq Hl Hc. unfold TTTModelScale.diagonal_cell. simpl.
  pose proof (getitem_cell n fld l c Hsq Hl Hc) as Hget.
  unfold res_bind in Hget.
  replace (Z.of_nat l =? Z.of_nat c)%Z with (Nat.eqb l c)
    by (destruct (Nat.eqb_spec l c), (Z.eqb_spec (Z.of_nat l) (Z.of_nat c)); auto; lia).
  replace (Z.of_nat l =? Z.of_nat n - 1 - Z.of_nat c)%Z with (Nat.eqb (l + c + 1) n)
    by (destruct (Nat.eqb_spec (l + c + 1) n),
          (Z.eqb_spec (Z.of_nat l) (Z.of_nat n - 1 - Z.of_nat c)); auto; lia).
  unfold res_bind.
  destruct (getitem fld (Z.of_nat l)) as [row|e]; [|discriminate].
  rewrite Hget.
  destruct (Nat.eqb l c), (Nat.eqb (l + c + 1) n); reflexivity.
Qed.

Lemma diagonal_columns_spec n fld l k : forall a c1 c2,
  square n fld -> l < n -> a + k <= n ->
  TTTModelScale.diagonal_columns (Z.of_nat n) fld (Z.of_nat l)
    (map Z.of_nat (seq a k)) (c1, c2)
  = Ok (if (a <=? l) && (l <? a + k) then TTTModelScale.tally (peek fld l l) c1 else c1,
        if (a <=? n - 1 - l) && (n - 1 - l <? a + k)
        then TTTModelScale.tally (peek fld l (n - 1 - l)) c2 else c2).
Proof.
  induction k as [|k IH]; intros a c1 c2 Hsq Hl Hk; simpl.
  - replace ((a <=? l) && (l <? a + 0)) with false
      by (destruct (Nat.leb_spec a l), (Nat.ltb_spec l (a + 0)); simpl; auto; lia).
    replace ((a <=? n - 1 - l) && (n - 1 - l <? a + 0)) with false
      by (destruct (Nat.leb_spec a (n - 1 - l)), (Nat.ltb_spec (n - 1 - l) (a + 0));
          simpl; auto; lia).
    reflexivity.
  - rewrite (diagonal_cell_spec n) by (auto; lia). simpl.
    rewrite IH by (auto; lia).
    f_equal. f_equal.
    + destruct (Nat.eqb_spec l a) as [->|Hne].
      * replace ((S a <=? a) && (a <? S a + k)) with false
          by (destruct (Nat.leb_spec (S a) a); simpl; auto; lia).
        replace ((a <=? a) && (a <? a + S k)) with true
          by (destruct (Nat.leb_spec a a), (Nat.ltb_spec a (a + S k)); simpl; auto; lia).
        reflexivity.
      * replace ((a <=? l) && (l <? a + S k)) with ((S a <=? l) && (l <? S a + k)); [reflexivity|].
        destruct (Nat.leb_spec (S a) l), (Nat.ltb_spec l (S a + k)),
          (Nat.leb_spec a l), (Nat.ltb_spec l (a + S k)); simpl; auto; lia.
    + destruct (Nat.eqb_spec (l + a + 1) n) as [Heq|Hne].
      * replace (n - 1 - l) with a by lia.
        replace ((S a <=? a) && (a <? S a + k)) with false
          by (destruct (Nat.leb_spec (S a) a); simpl; auto; lia).
        replace ((a <=? a) && (a <? a + S k)) with true
          by (destruct (Nat.leb_spec a a), (Nat.ltb_spec a (a + S k)); simpl; auto; lia).
        reflexivity.
      * replace ((a <=? n - 1 - l) && (n - 1 - l <? a + S k))
          with ((S a <=? n - 1 - l) && (n - 1 - l <? S a + k)); [reflexivity|].
        destruct (Nat.leb_spec (S a) (n - 1 - l)), (Nat.ltb_spec (n - 1 - l) (S a + k)),
          (Nat.leb_spec a (n - 1 - l)), (Nat.ltb_spec (n - 1 - l) (a + S k)); simpl; auto; lia.
Qed.

Lemma diagonal_row_spec n fld l c1 c2 :
  square n fld -> l < n ->
  TTTModelScale.diagonal_columns (Z.of_nat n) fld (Z.of_nat l) (range (Z.of_nat n)) (c1, c2)
  = Ok (TTTModelScale.tally (peek fld l l) c1,
        TTTModelScale.tally (peek fld l (n - 1 - l)) c2).
Proof.
  intros Hsq Hl. rewrite range_of_nat, (diagonal_columns_spec n) by (auto; lia).
  replace ((0 <=? l) && (l <? 0 + n)) with true
    by (destruct (Nat.ltb_spec l (0 + n)); simpl; auto; lia).
  replace ((0 <=? n - 1 - l) && (n - 1 - l <? 0 + n)) with true
    by (destruct (Nat.ltb_spec (n - 1 - l) (0 + n)); simpl; auto; lia).
  reflexivity.
Qed.

Lemma diagonal_lines_spec n fld ls : forall c1 c2,
  square n fld ->
  Forall (fun l => l < n) ls ->
  TTTModelScale.diagonal_lines (Z.of_nat n) fld (map Z.of_nat ls) (c1, c2)
  = Ok (TTTModelScale.tally_line (main_cells n fld ls) c1,
        TTTModelScale.tally_line (anti_cells n fld ls) c2).
Proof.
  induction ls as [|l ls IH]; intros c1 c2 Hsq Hall; simpl; [reflexivity|].
  inversion Hall; subst.
  rewrite (diagonal_row_spec n) by auto. simpl. now apply IH.
Qed.

Lemma main_diagonal_iff m n fld :
  square n fld ->
  main_diagonal m n fld <-> count_of m (main_cells n fld (seq 0 n)) = n.
Proof.
  intros Hsq. unfold main_cells.
  pose proof (count_of_map_full m (fun i => peek fld i i) (seq 0 n)) as Hc.
  rewrite length_seq in Hc. rewrite Hc. clear Hc.
  split.
  - intros H i Hi. apply in_seq in Hi.
    specialize (H i ltac:(lia)). rewrite (square_cell n) in H by (auto; lia). congruence.
  - intros H i Hi. rewrite (square_cell n) by auto. f_equal.
    apply H, in_seq. lia.
Qed.

Lemma anti_diagonal_iff m n fld :
  square n fld ->
  anti_diagonal m n fld <-> count_of m (anti_cells n fld (seq 0 n)) = n.
Proof.
  intros Hsq. unfold anti_cells.
  pose proof (count_of_map_full m (fun i => peek fld i (n - 1 - i)) (seq 0 n)) as Hc.
  rewrite length_seq in Hc. rewrite Hc. clear Hc.
  split.
  - intros H i Hi. apply in_seq in Hi.
    specialize (H i ltac:(lia)). rewrite (square_cell n) in H by (auto; lia). congruence.
  - intros H i Hi. rewrite (square_cell n) by (auto; lia). f_equal.
    apply H, in_seq. lia.
Qed.

Lemma seq_below n : Forall (fun k => k < n) (seq 0 n).
Proof. apply Forall_forall. intros k Hk. apply list_elem_of_In, in_seq in Hk. lia. Qed.

(** [checkWinner] on a square play-field of side [n] never raises, and it
    answers [True] exactly when a row, a column or one of the two diagonals
    holds [n] equal marks. *)
Lemma checkWinner_on_spec n fld :
  square n fld ->
  exists b, TTTModelScale.checkWinner_on (Z.of_nat n) fld = Ok b
            /\ (b = true <-> winning_line n fld).
Proof.
  intros Hsq. pose proof Hsq as [Hlen Hrows].
  unfold TTTModelScale.checkWinner_on.
  destruct (horizontal_spec n fld Hrows) as [(-> & line & m & Hin & Hm & Hf) | (-> & Hrow)].
  { exists true. split; [reflexivity|]. split; [intros _|reflexivity].
    assert (row_line m n fld) by (apply row_line_iff; eauto).
    destruct Hm as [-> | ->]; [left | right]; left; assumption. }
  rewrite range_of_nat.
  destruct (vertical_spec n fld (seq 0 n) Hsq (seq_below n))
    as [(-> & k & m & Hin & Hm & Hf) | (-> & Hcol)]; simpl.
  { exists true. split; [reflexivity|]. split; [intros _|reflexivity].
    assert (column_line m n fld).
    { apply column_line_iff; [assumption|]. exists k. split; [|assumption].
      apply list_elem_of_In, in_seq in Hin. lia. }
    destruct Hm as [-> | ->]; [left | right]; right; left; assumption. }
  rewrite (diagonal_lines_spec n) by (auto using seq_below). simpl.
  rewrite !tally_line_counts. simpl.
  eexists. split; [reflexivity|].
  rewrite !orb_true_iff, !Z.eqb_eq.
  pose proof (main_diagonal_iff "X" n fld Hsq) as HmX.
  pose proof (main_diagonal_iff "0" n fld Hsq) as Hm0.
  pose proof (anti_diagonal_iff "X" n fld Hsq) as HaX.
  pose proof (anti_diagonal_iff "0" n fld Hsq) as Ha0.
  assert (forall m, marker m -> ~ row_line m n fld) as Hnr.
  { intros m Hm Hr. apply row_line_iff in Hr as (line & Hin & Hf); [|assumption].
    exact (Hrow line m Hin Hm Hf). }
  assert (forall m, marker m -> ~ column_line m n fld) as Hnc.
  { intros m Hm Hc. apply column_line_iff in Hc as (k & Hk & Hf); [|assumption].
    apply (Hcol k m); auto. apply list_elem_of_In, in_seq. lia. }
  unfold winning_line, line_of. split.
  - intros [[[H|H]|H]|H].
    + left. right. right. left. apply HmX. lia.
    + right. right. right. left. apply Hm0. lia.
    + left. right. right. right. apply HaX. lia.
    + right. right. right. right. apply Ha0. lia.
  - intros [[H|[H|[H|H]]] | [H|[H|[H|H]]]].
    + exfalso. apply (Hnr "X"); [left; reflexivity | assumption].
    + exfalso. apply (Hnc "X"); [left; reflexivity | assumption].
    + left. left. left. apply HmX in H. lia.
    + left. right. apply HaX in H. lia.
    + exfalso. apply (Hnr "0"); [right; reflexivity | assumption].
    + exfalso. apply (Hnc "0"); [right; reflexivity | assumption].
    + left. left. right. apply Hm0 in H. lia.
    + right. apply Ha0 in H. lia.
Qed.

(** ** The methods of the model on a well-formed world *)

Lemma for_each_emit os : forall w,
  for_each os (fun o => emit (Updated o)) w
  = (Ok tt, mkWorld (model w) (row_store w) (grid_store w) (log w ++ map Updated os)).
Proof.
  induction os as [|o os IH]; intros [m rs gs lg]; simpl.
  - unfold ret. now rewrite app_nil_r.
  - unfold bind, emit. simpl. rewrite IH. simpl. now rewrite <- app_assoc.
Qed.

Lemma notifyObserver_spec w : TTTModelScale.notifyObserver w = (Ok tt, notified w).
Proof. unfold TTTModelScale.notifyObserver, bind, self. apply for_each_emit. Qed.

Lemma map_each_load_row w rows fld :
  Forall2 (fun r line => row_store w !! r = Some line) rows fld ->
  map_each rows load_row w = (Ok fld, w).
Proof.
  induction 1 as [|r line rows fld Hr _ IH]; simpl; [reflexivity|].
  unfold bind, load_row at 1. rewrite Hr, IH. reflexivity.
Qed.

Lemma load_field_owns w rows fld :
  owns w rows fld -> load_field (field (model w)) w = (Ok fld, w).
Proof.
  intros (Hg & _ & Hrows). unfold load_field, bind, load_grid. rewrite Hg.
  now apply map_each_load_row.
Qed.

Lemma play_field_owns w rows fld : owns w rows fld -> play_field w = Some fld.
Proof.
  intros (Hg & _ & Hrows). unfold play_field, grid_at. rewrite Hg.
  now apply mapM_Some_2.
Qed.

Lemma owns_unique w rows fld rows' fld' :
  owns w rows fld -> owns w rows' fld' -> rows' = rows /\ fld' = fld.
Proof.
  intros H H'. pose proof (play_field_owns _ _ _ H) as E.
  pose proof (play_field_owns _ _ _ H') as E'.
  destruct H as (Hg & _), H' as (Hg' & _). split; congruence.
Qed.

Lemma line_is_full_spec line :
  TTTModelScale.line_is_full line = true <-> forall c, line !! c <> Some " ".
Proof.
  induction line as [|s line IH]; simpl.
  - split; [intros _ c; discriminate | reflexivity].
  - destruct (String.eqb_spec s " ") as [->|Hne].
    + split; [discriminate|]. intros H. exfalso. exact (H 0 eq_refl).
    + rewrite IH. split.
      * intros H [|c]; simpl; [congruence | apply H].
      * intros H c. exact (H (S c)).
Qed.

Lemma isFullField_on_spec fld :
  TTTModelScale.isFullField_on fld = true <-> no_empty_cell fld.
Proof.
  unfold no_empty_cell, cell. induction fld as [|line fld IH]; simpl.
  - split; [intros _ r c; discriminate | reflexivity].
  - destruct (TTTModelScale.line_is_full line) eqn:E.
    + rewrite IH. pose proof (proj1 (line_is_full_spec line) E) as E1. split.
      * intros H [|r] c; simpl; [apply E1 | apply H].
      * intros H r c. exact (H (S r) c).
    + split; [discriminate|]. intros H.
      assert (TTTModelScale.line_is_full line = true) as E'
        by (apply line_is_full_spec; intros c; exact (H 0 c)).
      congruence.
Qed.

Lemma isFullField_owns w rows fld :
  owns w rows fld ->
  TTTModelScale.isFullField w = (Ok (TTTModelScale.isFullField_on fld), w).
Proof.
  intros H. unfold TTTModelScale.isFullField, bind, self.
  now rewrite (load_field_owns _ _ _ H).
Qed.

Lemma checkWinner_owns n w rows fld :
  size (model w) = Z.of_nat n -> owns w rows fld -> square n fld ->
  exists won, TTTModelScale.checkWinner w = (Ok won, w)
              /\ (won = true <-> winning_line n fld).
Proof.
  intros Hsz H Hsq. destruct (checkWinner_on_spec n fld Hsq) as (won & Hw & Hiff).
  exists won. split; [|exact Hiff].
  unfold TTTModelScale.checkWinner, bind, self.
  rewrite (load_field_owns _ _ _ H). unfold lift. now rewrite Hsz, Hw.
Qed.

Lemma py_index_Some len x i :
  py_index len x = Some i ->
  i < len /\ (Z.of_nat i = x \/ Z.of_nat i = (Z.of_nat len + x)%Z /\ (x < 0)%Z).
Proof.
  unfold py_index.
  destruct (Z.leb_spec 0 x).
  - destruct (Z.ltb_spec x (Z.of_nat len)); [|discriminate].
    intros [= <-]. split; [lia|]. left. lia.
  - destruct (Z.leb_spec (- Z.of_nat len) x); [|discriminate].
    intros [= <-]. split; [lia|]. right. lia.
Qed.

Lemma py_index_None len x :
  py_index len x = None <-> (x < - Z.of_nat len \/ Z.of_nat len <= x)%Z.
Proof.
  unfold py_index.
  destruct (Z.leb_spec 0 x).
  - destruct (Z.ltb_spec x (Z.of_nat len)); split; try discriminate; intros; auto; lia.
  - destruct (Z.leb_spec (- Z.of_nat len) x); split; try discriminate; intros; auto; lia.
Qed.

Lemma owns_frame w w' rows fld :
  field (model w') = field (model w) ->
  grid_store w' = grid_store w ->
  row_store w' = row_store w ->
  owns w rows fld -> owns w' rows fld.
Proof. unfold owns. intros -> -> ->. auto. Qed.

Lemma square_place n fld i j line v :
  square n fld -> fld !! i = Some line ->
  square n (<[i := <[j := v]> line]> fld).
Proof.
  intros [Hlen Hrows] Hline. split.
  - now rewrite length_insert.
  - apply Forall_insert; [assumption|]. rewrite length_insert.
    rewrite Forall_forall in Hrows. apply Hrows. eapply list_elem_of_lookup_2; eauto.
Qed.

Lemma store_cell_owns w rows fld x y i j r line v :
  owns w rows fld ->
  py_index (length rows) x = Some i ->
  rows !! i = Some r ->
  fld !! i = Some line ->
  py_index (length line) y = Some j ->
  let w' := with_rows (<[r := <[j := v]> line]> (row_store w)) w in
  store_cell (field (model w)) x y v w = (Ok tt, w')
  /\ owns w' rows (<[i := <[j := v]> line]> fld).
Proof.
  intros (Hg & Hnd & Hrows) Hx Hr Hline Hy w'.
  assert (row_store w !! r = Some line) as Hrl.
  { rewrite Forall2_same_length_lookup in Hrows. destruct Hrows as [_ H]. eauto. }
  split.
  - unfold store_cell, bind, load_grid, lift, getitem, setitem, load_row, store_row.
    rewrite Hg, Hx, Hr, Hrl, Hy. reflexivity.
  - split; [exact Hg|]. split; [exact Hnd|]. simpl.
    rewrite Forall2_same_length_lookup in Hrows. destruct Hrows as [Hlen Hall].
    apply Forall2_same_length_lookup. split; [now rewrite length_insert|].
    intros k r' line' Hr' Hline'.
    destruct (decide (k = i)) as [->|Hne].
    + assert (r' = r) by congruence. subst r'.
      rewrite list_lookup_insert_eq in Hline' by (eapply lookup_lt_Some; eauto).
      rewrite list_lookup_insert_eq by (eapply lookup_lt_Some; eauto). congruence.
    + rewrite list_lookup_insert_ne in Hline' by auto.
      assert (r <> r') as Hrr.
      { intros ->. apply Hne. eapply NoDup_lookup; eauto. }
      rewrite list_lookup_insert_ne by auto. eauto.
Qed.

Lemma store_cell_raises w rows fld x y v :
  owns w rows fld ->
  (py_index (length rows) x = None
   \/ exists i line, py_index (length rows) x = Some i /\ fld !! i = Some line
                     /\ py_index (length line) y = None) ->
  store_cell (field (model w)) x y v w = (Raise IndexError, w).
Proof.
  intros (Hg & Hnd & Hrows) H.
  unfold store_cell, bind, load_grid, lift, getitem, setitem, load_row, store_row.
  rewrite Hg. destruct H as [Hx | (i & line & Hx & Hline & Hy)]; rewrite Hx; [reflexivity|].
  rewrite Forall2_same_length_lookup in Hrows. destruct Hrows as [Hlen Hall].
  apply py_index_Some in Hx as Hi. destruct Hi as [Hi _].
  destruct (lookup_lt_is_Some_2 rows i Hi) as [r Hr]. rewrite Hr.
  rewrite (Hall i r line Hr Hline), Hy. reflexivity.
Qed.

Lemma nextStep_spec n w rows fld :
  size (model w) = Z.of_nat n -> owns w rows fld -> square n fld ->
  exists won,
    (won = true <-> winning_line n fld)
    /\ TTTModelScale.nextStep w
       = (Ok tt, notified (with_model
                   (settle won (TTTModelScale.isFullField_on fld) (model w)) w)).
Proof.
  intros Hsz Hown Hsq.
  destruct (checkWinner_owns n w rows fld Hsz Hown Hsq) as (won & Hcw & Hiff).
  exists won. split; [exact Hiff|].
  unfold TTTModelScale.nextStep. unfold bind at 1. rewrite Hcw.
  unfold bind at 1. unfold assign at 1. unfold bind at 1.
  destruct won; simpl.
  - unfold ret. rewrite notifyObserver_spec. reflexivity.
  - unfold bind at 1.
    rewrite (isFullField_owns _ rows fld) by (eapply owns_frame; eauto).
    unfold bind at 1. unfold assign at 1.
    destruct (TTTModelScale.isFullField_on fld); simpl.
    + unfold ret. rewrite notifyObserver_spec. reflexivity.
    + unfold bind, self, other_player. simpl.
      destruct (String.eqb (active_player (model w)) player_X);
        unfold assign; rewrite notifyObserver_spec; reflexivity.
Qed.

Lemma setCell_unfold x y w :
  TTTModelScale.setCell x y w
  = bind (store_cell (field (model w)) x y (symbol_of (active_player (model w))))
         (fun _ => TTTModelScale.nextStep) w.
Proof.
  unfold TTTModelScale.setCell, symbol_of. unfold bind at 1. unfold self.
  destruct (String.eqb (active_player (model w)) player_X); reflexivity.
Qed.

Lemma square_lengths n fld (rows : list loc) (w : World) :
  square n fld ->
  Forall2 (fun (r : loc) line => row_store w !! r = Some line) rows fld ->
  length rows = n.
Proof. intros [Hlen _] H. apply Forall2_length in H. lia. Qed.

(** A call of [setCell] whose two subscripts are in range (from the front
    or from the back) succeeds; this is the world it leaves. *)
Lemma setCell_ok n w rows fld x y i j :
  size (model w) = Z.of_nat n -> owns w rows fld -> square n fld ->
  py_index n x = Some i -> py_index n y = Some j ->
  exists r line won,
    rows !! i = Some r /\ fld !! i = Some line /\
    let v := symbol_of (active_player (model w)) in
    let fld' := <[i := <[j := v]> line]> fld in
    let w' := notified (with_model
                (settle won (TTTModelScale.isFullField_on fld') (model w))
                (with_rows (<[r := <[j := v]> line]> (row_store w)) w)) in
    (won = true <-> winning_line n fld')
    /\ TTTModelScale.setCell x y w = (Ok tt, w')
    /\ owns w' rows fld' /\ square n fld'.
Proof.
  intros Hsz Hown Hsq Hx Hy.
  pose proof Hown as (Hg & Hnd & Hrows).
  pose proof (square_lengths n fld rows w Hsq Hrows) as Hlr.
  pose proof Hsq as [Hlen Hall].
  apply py_index_Some in Hx as Hi. destruct Hi as [Hi _].
  destruct (lookup_lt_is_Some_2 rows i) as [r Hr]; [lia|].
  destruct (lookup_lt_is_Some_2 fld i) as [line Hline]; [lia|].
  assert (length line = n) as Hll.
  { rewrite Forall_forall in Hall. apply Hall. eapply list_elem_of_lookup_2; eauto. }
  set (v := symbol_of (active_player (model w))).
  destruct (store_cell_owns w rows fld x y i j r line v Hown) as [Hst Hown1];
    [congruence | assumption | assumption | congruence |].
  set (w1 := with_rows (<[r := <[j := v]> line]> (row_store w)) w) in *.
  pose proof (square_place n fld i j line v Hsq Hline) as Hsq1.
  destruct (nextStep_spec n w1 rows _ Hsz Hown1 Hsq1) as (won & Hiff & Hns).
  exists r, line, won. split; [assumption|]. split; [assumption|].
  cbv zeta. fold v. fold w1. split; [exact Hiff|]. split.
  - rewrite setCell_unfold. fold v. unfold bind. rewrite Hst. exact Hns.
  - split; [|exact Hsq1].
    eapply owns_frame; [| | | exact Hown1]; try reflexivity.
    simpl. unfold settle.
    destruct won; [reflexivity|].
    destruct (TTTModelScale.isFullField_on _); reflexivity.
Qed.

(** A call with a subscript out of range raises [IndexError] before
    anything is written. *)
Lemma setCell_raises n w rows fld x y :
  size (model w) = Z.of_nat n -> owns w rows fld -> square n fld ->
  py_index n x = None \/ py_index n y = None ->
  TTTModelScale.setCell x y w = (Raise IndexError, w).
Proof.
  intros Hsz Hown Hsq Hxy.
  pose proof Hown as (Hg & Hnd & Hrows).
  pose proof (square_lengths n fld rows w Hsq Hrows) as Hlr.
  pose proof Hsq as [Hlen Hall].
  rewrite setCell_unfold. unfold bind.
  rewrite (store_cell_raises w rows fld); [reflexivity | assumption |].
  destruct (py_index n x) as [i|] eqn:Hx.
  - destruct Hxy as [|Hy]; [discriminate|]. right.
    apply py_index_Some in Hx as Hi. destruct Hi as [Hi _].
    destruct (lookup_lt_is_Some_2 fld i) as [line Hline]; [lia|].
    assert (length line = n) as Hll.
    { rewrite Forall_forall in Hall. apply Hall. eapply list_elem_of_lookup_2; eauto. }
    exists i, line. rewrite Hlr, Hll. auto.
  - left. now rewrite Hlr.
Qed.

(** ** startPlay *)

Lemma alloc_rows_spec {A} (l : list A) b cells : forall w,
  row_store w !! b = Some cells ->
  map_each l (fun _ => cells <~ load_row b ;; alloc_row cells) w
  = (Ok (seq (length (row_store w)) (length l)),
     with_rows (row_store w ++ repeat cells (length l)) w).
Proof.
  induction l as [|a l IH]; intros w Hb; simpl.
  - unfold ret, with_rows. rewrite app_nil_r. now destruct w.
  - unfold bind at 1. unfold bind at 1. unfold load_row at 1. rewrite Hb.
    unfold alloc_row at 1. unfold bind at 1.
    rewrite IH by (simpl; apply lookup_app_l_Some; exact Hb).
    unfold ret, with_rows. simpl. rewrite length_app. simpl.
    replace (length (row_store w) + 1) with (S (length (row_store w))) by lia.
    now rewrite <- app_assoc.
Qed.

Lemma range_length z : length (range z) = Z.to_nat z.
Proof. unfold range. now rewrite length_map, length_seq. Qed.

(** The world [startPlay] leaves, from any world. *)
Lemma startPlay_spec w :
  let n := Z.to_nat (size (model w)) in
  let blank := repeat " " n in
  TTTModelScale.startPlay w
  = (Ok tt,
     mkWorld (set_field (length (grid_store w)) (model w))
             (row_store w ++ blank :: repeat blank n)
             (grid_store w ++ [seq (S (length (row_store w))) n])
             (log w ++ map Updated (observers (model w)))).
Proof.
  intros n blank. unfold TTTModelScale.startPlay.
  unfold bind at 1. unfold self at 1.
  unfold bind at 1. unfold alloc_row at 1.
  unfold bind at 1.
  rewrite (alloc_rows_spec _ _ blank)
    by (simpl; now rewrite lookup_app_r, Nat.sub_diag by lia).
  rewrite range_length. fold n. simpl.
  unfold bind at 1. unfold alloc_grid at 1. simpl.
  unfold bind at 1. unfold assign at 1. simpl.
  rewrite notifyObserver_spec. unfold notified. simpl.
  rewrite length_app. simpl.
  replace (length (row_store w) + 1) with (S (length (row_store w))) by lia.
  rewrite <- app_assoc. reflexivity.
Qed.

Lemma repeat_lookup {A} (a : A) n i : i < n -> repeat a n !! i = Some a.
Proof.
  revert i. induction n as [|n IH]; intros i Hi; [lia|].
  destruct i; [reflexivity|]. simpl. apply IH. lia.
Qed.

Lemma blank_square n : square n (repeat (repeat " " n) n).
Proof.
  split; [apply repeat_length|].
  apply Forall_forall. intros line Hin.
  apply list_elem_of_In, repeat_spec in Hin. subst. apply repeat_length.
Qed.

Lemma startPlay_owns w :
  let n := Z.to_nat (size (model w)) in
  owns (exec TTTModelScale.startPlay w)
       (seq (S (length (row_store w))) n) (repeat (repeat " " n) n).
Proof.
  intros n. unfold exec. rewrite startPlay_spec. simpl. fold n.
  split; [|split].
  - simpl. now rewrite lookup_app_r, Nat.sub_diag by lia.
  - apply NoDup_ListNoDup, seq_NoDup.
  - simpl. apply Forall2_same_length_lookup. split.
    + now rewrite length_seq, repeat_length.
    + intros i r line Hr Hline.
      apply lookup_lt_Some in Hr as Hi. rewrite length_seq in Hi.
      rewrite lookup_seq in Hr. destruct Hr as [-> _].
      assert (line = repeat " " n) as ->.
      { apply list_elem_of_lookup_2, list_elem_of_In, repeat_spec in Hline. exact Hline. }
      rewrite lookup_app_r by lia.
      replace (S (length (row_store w)) + i - length (row_store w)) with (S i) by lia.
      simpl. now apply repeat_lookup.
Qed.

(** ** Placing a mark on the play-field *)

Lemma cell_place fld i j line v r c :
  fld !! i = Some line -> j < length line ->
  cell (<[i := <[j := v]> line]> fld) r c
  = if decide (r = i /\ c = j) then Some v else cell fld r c.
Proof.
  intros Hline Hj. unfold cell.
  destruct (decide (r = i)) as [->|Hr].
  - rewrite list_lookup_insert_eq by (eapply lookup_lt_Some; eauto). rewrite Hline.
    destruct (decide (c = j)) as [->|Hc].
    + rewrite list_lookup_insert_eq by assumption.
      destruct (decide (i = i /\ j = j)) as [_|[]]; auto.
    + rewrite list_lookup_insert_ne by auto.
      destruct (decide (i = i /\ c = j)) as [[_ ?]|_]; [contradiction | reflexivity].
  - rewrite list_lookup_insert_ne by auto.
    destruct (decide (r = i /\ c = j)) as [[? _]|_]; [contradiction | reflexivity].
Qed.

Lemma line_of_mono m n fld fld' :
  (forall r c, cell fld r c = Some m -> cell fld' r c = Some m) ->
  line_of m n fld -> line_of m n fld'.
Proof.
  intros H [(r & Hr & Hl) | [(c & Hc & Hl) | [Hl | Hl]]].
  - left. exists r. split; auto.
  - right. left. exists c. split; auto.
  - right. right. left. intros i Hi. auto.
  - right. right. right. intros i Hi. auto.
Qed.

Lemma line_of_place_same m n fld i j line :
  fld !! i = Some line -> j < length line ->
  line_of m n fld -> line_of m n (<[i := <[j := m]> line]> fld).
Proof.
  intros Hline Hj. apply line_of_mono. intros r c Hc.
  rewrite (cell_place fld i j line m r c Hline Hj).
  destruct (decide (r = i /\ c = j)); auto.
Qed.

Lemma line_of_place_other m v n fld i j line :
  fld !! i = Some line -> j < length line -> m <> v ->
  line_of m n (<[i := <[j := v]> line]> fld) -> line_of m n fld.
Proof.
  intros Hline Hj Hne. apply line_of_mono. intros r c.
  rewrite (cell_place fld i j line v r c Hline Hj).
  destruct (decide (r = i /\ c = j)); [congruence | auto].
Qed.

Lemma no_empty_cell_place fld i j line v :
  fld !! i = Some line -> j < length line -> v <> " " ->
  no_empty_cell fld -> no_empty_cell (<[i := <[j := v]> line]> fld).
Proof.
  intros Hline Hj Hv H r c.
  rewrite (cell_place fld i j line v r c Hline Hj).
  destruct (decide (r = i /\ c = j)); [congruence | apply H].
Qed.

Lemma symbol_of_marker p : marker (symbol_of p).
Proof. unfold symbol_of, marker. destruct (String.eqb p player_X); auto. Qed.

Lemma symbol_of_not_space p : symbol_of p <> " ".
Proof. unfold symbol_of. destruct (String.eqb p player_X); discriminate. Qed.

Lemma other_player_is p : other_player p = player_X \/ other_player p = player_0.
Proof. unfold other_player. destruct (String.eqb p player_X); auto. Qed.

Lemma other_player_differs p : other_player p <> p.
Proof.
  unfold other_player. destruct (String.eqb_spec p player_X) as [->|H].
  - discriminate.
  - congruence.
Qed.

(** ** getData *)

Lemma getData_spec w rows :
  grid_store w !! field (model w) = Some rows ->
  TTTModelScale.getData w
  = (Ok (TTTModelScale.mkSnapshot (size (model w)) (flag_end (model w))
           (flag_draw (model w)) (active_player (model w)) (length (grid_store w))),
     mkWorld (model w) (row_store w) (grid_store w ++ [rows]) (log w)).
Proof.
  intros Hg. unfold TTTModelScale.getData, bind, self, load_grid, alloc_grid, ret.
  now rewrite Hg.
Qed.

Lemma getData_owns w rows fld :
  owns w rows fld -> owns (exec TTTModelScale.getData w) rows fld.
Proof.
  intros Hown. pose proof Hown as (Hg & Hnd & Hrows).
  unfold exec. rewrite (getData_spec w rows Hg). simpl.
  split; [|split]; simpl; auto. now apply lookup_app_l_Some.
Qed.

Lemma getData_model w rows fld :
  owns w rows fld -> model (exec TTTModelScale.getData w) = model w.
Proof.
  intros (Hg & _). unfold exec. now rewrite (getData_spec w rows Hg).
Qed.

(** ** The invariant of a started game *)

Lemma construct_from obs : forall os,
  fold_left (fun w o => exec (TTTModelScale.registerObserver o) w) obs
    (mkWorld (mkModel 3 player_X false false os 0) [] [[]] [])
  = mkWorld (mkModel 3 player_X false false (os ++ obs) 0) [] [[]] [].
Proof.
  induction obs as [|o obs IH]; intros os; simpl.
  - now rewrite app_nil_r.
  - unfold exec at 2. simpl. unfold set_observers. simpl.
    rewrite IH. now rewrite <- app_assoc.
Qed.

Lemma construct_spec obs :
  construct obs = mkWorld (mkModel 3 player_X false false obs 0) [] [[]] [].
Proof. unfold construct, TTTModelScale.new. now rewrite construct_from. Qed.

Lemma start_spec n obs :
  start n obs
  = mkWorld (mkModel (Z.of_nat n) player_X false false obs 1)
            (repeat " " n :: repeat (repeat " " n) n)
            [[]; seq 1 n]
            (map Updated obs).
Proof.
  unfold start, exec. rewrite construct_spec. simpl.
  rewrite startPlay_spec. simpl. now rewrite Nat2Z.id.
Qed.

Lemma blank_cell n r c : r < n -> c < n -> cell (repeat (repeat " " n) n) r c = Some " ".
Proof.
  intros Hr Hc. unfold cell. rewrite repeat_lookup by assumption.
  now apply repeat_lookup.
Qed.

Lemma blank_no_line m n :
  marker m -> 0 < n -> ~ line_of m n (repeat (repeat " " n) n).
Proof.
  intros Hm Hn Hl.
  assert (Some " " <> Some m) as Hne by (destruct Hm as [-> | ->]; discriminate).
  destruct Hl as [(r & Hr & Hl) | [(c & Hc & Hl) | [Hl | Hl]]].
  - specialize (Hl 0 Hn). rewrite blank_cell in Hl by lia. contradiction.
  - specialize (Hl 0 Hn). rewrite blank_cell in Hl by lia. contradiction.
  - specialize (Hl 0 Hn). rewrite blank_cell in Hl by lia. contradiction.
  - specialize (Hl 0 Hn). rewrite blank_cell in Hl by lia. contradiction.
Qed.

Lemma start_owns n obs :
  owns (start n obs) (seq 1 n) (repeat (repeat " " n) n).
Proof.
  unfold start.
  pose proof (startPlay_owns
    (exec (TTTModelScale.size_setter (Z.of_nat n)) (construct obs))) as H.
  rewrite construct_spec in *. simpl in H. now rewrite Nat2Z.id in H.
Qed.

Lemma start_invariant n obs : invariant n (start n obs).
Proof.
  split; [now rewrite start_spec|].
  exists (seq 1 n), (repeat (repeat " " n) n).
  split; [apply start_owns|]. split; [apply blank_square|].
  rewrite start_spec. simpl. split; [now left|].
  split; [discriminate|]. split; [|discriminate].
  intros _ Hn [H|H]; revert H; apply blank_no_line; unfold marker; auto.
Qed.

Lemma getData_invariant n w : invariant n w -> invariant n (exec TTTModelScale.getData w).
Proof.
  intros (Hsz & rows & fld & Hown & Hrest).
  split; [now rewrite (getData_model w rows fld)|].
  exists rows, fld. split; [now apply getData_owns|].
  now rewrite (getData_model w rows fld).
Qed.

Lemma square_row_length n fld i line :
  square n fld -> fld !! i = Some line -> length line = n.
Proof.
  intros [_ Hall] Hline. rewrite Forall_forall in Hall.
  apply Hall. eapply list_elem_of_lookup_2; eauto.
Qed.

Lemma setCell_invariant n w x y :
  invariant n w -> invariant n (exec (TTTModelScale.setCell x y) w).
Proof.
  intros Hinv. pose proof Hinv as (Hsz & rows & fld & Hown & Hsq & Hpl & Hend & Hno & Hdraw).
  destruct (py_index n x) as [i|] eqn:Hx; [destruct (py_index n y) as [j|] eqn:Hy|].
  2,3: unfold exec; rewrite (setCell_raises n w rows fld) by auto; exact Hinv.
  destruct (setCell_ok n w rows fld x y i j Hsz Hown Hsq Hx Hy)
    as (r & line & won & Hr & Hline & Hiff & Hset & Hown' & Hsq').
  cbv zeta in *. unfold exec. rewrite Hset. simpl.
  set (v := symbol_of (active_player (model w))) in *.
  set (fld' := <[i := <[j := v]> line]> fld) in *.
  pose proof (square_row_length n fld i line Hsq Hline) as Hll.
  apply py_index_Some in Hx as Hi. destruct Hi as [Hi _].
  apply py_index_Some in Hy as Hj. destruct Hj as [Hj _].
  assert (won = true -> line_of v n fld') as Hwin.
  { intros Hw. destruct (flag_end (model w)) eqn:Hfe.
    - apply line_of_place_same; [assumption | lia | auto].
    - assert (~ winning_line n fld) as Hnw by (apply Hno; [reflexivity | lia]).
      apply Hiff in Hw.
      destruct (symbol_of_marker (active_player (model w))) as [Hv|Hv];
        fold v in Hv; destruct Hw as [Hw|Hw].
      + rewrite Hv. exact Hw.
      + exfalso. apply Hnw. right.
        apply (line_of_place_other "0" v n fld i j line);
          [exact Hline | lia | rewrite Hv; discriminate | exact Hw].
      + exfalso. apply Hnw. left.
        apply (line_of_place_other "X" v n fld i j line);
          [exact Hline | lia | rewrite Hv; discriminate | exact Hw].
      + rewrite Hv. exact Hw. }
  split; [unfold settle; destruct won; [|destruct (TTTModelScale.isFullField_on fld')];
          simpl; exact Hsz|].
  exists rows, fld'. split; [exact Hown'|]. split; [exact Hsq'|].
  unfold settle. destruct won; simpl.
  - split; [exact Hpl|]. split; [intros _; now apply Hwin|].
    split; [discriminate|]. intros Hd.
    apply isFullField_on_spec. apply no_empty_cell_place;
      [assumption | lia | apply symbol_of_not_space |].
    apply isFullField_on_spec. auto.
  - assert (~ winning_line n fld') as Hnw'.
    { intros Hw. apply Hiff in Hw. discriminate. }
    destruct (TTTModelScale.isFullField_on fld') eqn:Hfull; simpl.
    + split; [exact Hpl|]. split; [discriminate|]. split; auto.
    + split; [apply other_player_is|]. split; [discriminate|].
      split; [auto | discriminate].
Qed.

Lemma reachable_invariant strict w : reachable strict w -> exists n, invariant n w.
Proof.
  induction 1 as [n obs | w _ [n IH] | w x y _ [n IH] _].
  - exists n. apply start_invariant.
  - exists n. now apply getData_invariant.
  - exists n. now apply setCell_invariant.
Qed.

Lemma reachable_relax strict w : reachable strict w -> reachable false w.
Proof.
  induction 1; [apply reach_start | now apply reach_getData |].
  apply reach_setCell; [assumption | discriminate].
Qed.

(** ** The claims about the model *)

Lemma diagonal_pass_counts n fld :
  square n fld ->
  TTTModelScale.diagonal_lines (Z.of_nat n) fld (range (Z.of_nat n)) ((0, 0), (0, 0))%Z
  = Ok (diagonal_counts n fld).
Proof.
  intros Hsq. rewrite range_of_nat, (diagonal_lines_spec n) by (auto using seq_below).
  now rewrite !tally_line_counts.
Qed.

(** C1.  In every world of a started game, whatever marks were placed,
    [checkWinner] returns, changes nothing, and answers [True] exactly when
    some row, some column, the main diagonal or the anti-diagonal of the
    N x N play-field holds N times the same mark; and the single pass that
    accumulates the four diagonal counters ends with the counts of each
    diagonal taken on its own. *)
Theorem checkWinner_decides_lines w :
  reachable false w ->
  exists n fld won,
    size (model w) = Z.of_nat n /\ play_field w = Some fld /\ square n fld
    /\ TTTModelScale.checkWinner w = (Ok won, w)
    /\ (won = true <-> winning_line n fld)
    /\ TTTModelScale.diagonal_lines (Z.of_nat n) fld (range (Z.of_nat n))
         ((0, 0), (0, 0))%Z = Ok (diagonal_counts n fld).
Proof.
  intros Hr. destruct (reachable_invariant _ _ Hr) as (n & Hsz & rows & fld & Hown & Hsq & _).
  destruct (checkWinner_owns n w rows fld Hsz Hown Hsq) as (won & Hcw & Hiff).
  exists n, fld, won. split; [exact Hsz|]. split; [eapply play_field_owns; eauto|].
  split; [exact Hsq|]. split; [exact Hcw|]. split; [exact Hiff|].
  now apply diagonal_pass_counts.
Qed.

Lemma checkWinner_decides_lines_witness :
  exists n fld won,
    size (model (exec (TTTModelScale.setCell 1 1) (start 3 []))) = Z.of_nat n
    /\ play_field (exec (TTTModelScale.setCell 1 1) (start 3 [])) = Some fld
    /\ square n fld
    /\ TTTModelScale.checkWinner (exec (TTTModelScale.setCell 1 1) (start 3 []))
       = (Ok won, exec (TTTModelScale.setCell 1 1) (start 3 []))
    /\ (won = true <-> winning_line n fld)
    /\ TTTModelScale.diagonal_lines (Z.of_nat n) fld (range (Z.of_nat n))
         ((0, 0), (0, 0))%Z = Ok (diagonal_counts n fld).
Proof.
  apply (checkWinner_decides_lines (exec (TTTModelScale.setCell 1 1) (start 3 []))).
  apply reach_setCell; [apply reach_start | discriminate].
Defined.

Lemma targets_empty_cell n w rows fld x y :
  owns w rows fld -> square n fld -> targets_empty w x y ->
  exists i j, py_index n x = Some i /\ py_index n y = Some j /\ cell fld i j = Some " ".
Proof.
  intros Hown Hsq. pose proof Hown as (Hg & Hnd & Hrows).
  pose proof (square_lengths n fld rows w Hsq Hrows) as Hlr.
  unfold targets_empty, load_cell, bind, load_grid, lift, load_row, getitem.
  rewrite Hg, Hlr.
  destruct (py_index n x) as [i|] eqn:Hx; [|discriminate].
  destruct (rows !! i) as [r|] eqn:Hr; [|discriminate].
  rewrite Forall2_same_length_lookup in Hrows. destruct Hrows as [Hlen Hall].
  destruct (lookup_lt_is_Some_2 fld i) as [line Hline];
    [rewrite <- Hlen; eapply lookup_lt_Some; eauto|].
  rewrite (Hall i r line Hr Hline).
  rewrite (square_row_length n fld i line Hsq Hline).
  destruct (py_index n y) as [j|] eqn:Hy; [|discriminate].
  destruct (line !! j) as [s|] eqn:Hs; [|discriminate].
  simpl. intros [= ->]. exists i, j. unfold cell. now rewrite Hline.
Qed.

Lemma end_flag_stays n w x y :
  invariant n w ->
  flag_end (model w) = true ->
  flag_end (model (exec (TTTModelScale.setCell x y) w)) = true.
Proof.
  intros (Hsz & rows & fld & Hown & Hsq & Hpl & Hend & Hno & Hdraw) Hfe.
  destruct (py_index n x) as [i|] eqn:Hx; [destruct (py_index n y) as [j|] eqn:Hy|].
  2,3: unfold exec; rewrite (setCell_raises n w rows fld) by auto; exact Hfe.
  destruct (setCell_ok n w rows fld x y i j Hsz Hown Hsq Hx Hy)
    as (r & line & won & Hr & Hline & Hiff & Hset & Hown' & Hsq').
  cbv zeta in *. unfold exec. rewrite Hset.
  pose proof (square_row_length n fld i line Hsq Hline) as Hll.
  apply py_index_Some in Hy as Hj. destruct Hj as [Hj _].
  assert (won = true) as ->.
  { apply Hiff.
    assert (line_of (symbol_of (active_player (model w))) n
              (<[i := <[j := symbol_of (active_player (model w))]> line]> fld)) as Hl
      by (apply line_of_place_same; [assumption | lia | auto]).
    destruct (symbol_of_marker (active_player (model w))) as [Hv|Hv];
      rewrite Hv in Hl at 1; [left | right]; exact Hl. }
  reflexivity.
Qed.

Lemma draw_flag_stays n w x y :
  invariant n w ->
  flag_draw (model w) = true ->
  flag_draw (model (exec (TTTModelScale.setCell x y) w)) = true.
Proof.
  intros (Hsz & rows & fld & Hown & Hsq & Hpl & Hend & Hno & Hdraw) Hfd.
  destruct (py_index n x) as [i|] eqn:Hx; [destruct (py_index n y) as [j|] eqn:Hy|].
  2,3: unfold exec; rewrite (setCell_raises n w rows fld) by auto; exact Hfd.
  destruct (setCell_ok n w rows fld x y i j Hsz Hown Hsq Hx Hy)
    as (r & line & won & Hr & Hline & Hiff & Hset & Hown' & Hsq').
  cbv zeta in *. unfold exec. rewrite Hset.
  pose proof (square_row_length n fld i line Hsq Hline) as Hll.
  apply py_index_Some in Hy as Hj. destruct Hj as [Hj _].
  assert (TTTModelScale.isFullField_on
            (<[i := <[j := symbol_of (active_player (model w))]> line]> fld) = true) as Hfull.
  { apply isFullField_on_spec. apply no_empty_cell_place;
      [assumption | lia | apply symbol_of_not_space |].
    apply isFullField_on_spec. auto. }
  rewrite Hfull. simpl. unfold settle. destruct won; simpl; auto.
Qed.

Lemma strict_exclusive w :
  reachable true w -> flag_end (model w) && flag_draw (model w) = false.
Proof.
  induction 1 as [n obs | w Hw IH | w x y Hw IH Hc].
  - now rewrite start_spec.
  - destruct (reachable_invariant _ _ Hw) as (n & Hsz & rows & fld & Hown & _).
    now rewrite (getData_model w rows fld).
  - destruct (reachable_invariant _ _ Hw)
      as (n & Hsz & rows & fld & Hown & Hsq & Hpl & Hend & Hno & Hdraw).
    destruct (targets_empty_cell n w rows fld x y Hown Hsq (Hc eq_refl))
      as (i & j & Hx & Hy & Hcell).
    destruct (setCell_ok n w rows fld x y i j Hsz Hown Hsq Hx Hy)
      as (r & line & won & Hr & Hline & Hiff & Hset & Hown' & Hsq').
    cbv zeta in *. unfold exec. rewrite Hset. simpl.
    assert (flag_draw (model w) = false) as Hfd.
    { destruct (flag_draw (model w)); [|reflexivity].
      exfalso. apply (proj1 (isFullField_on_spec fld) (Hdraw eq_refl) i j). exact Hcell. }
    clear Hdraw. unfold settle. destruct won; simpl; [now rewrite Hfd|].
    destruct (TTTModelScale.isFullField_on _); reflexivity.
Qed.

Lemma moves_reachable ms : forall w, reachable false w -> reachable false (moves ms w).
Proof.
  induction ms as [|[x y] ms IH]; intros w Hw; simpl; [exact Hw|].
  apply IH. apply reach_setCell; [exact Hw | discriminate].
Qed.

(** C2, as stated, fails: the ninth mark of [drawn_game] fills the field
    without a line, so the draw flag goes up; [setCell] does not look at
    the cell it is given, and a further call on the occupied cell (2, 0)
    completes the first column for the cross player.  Both flags are then
    up. *)
Lemma drawn_then_won_both_flags :
  reachable false (exec (TTTModelScale.setCell 2 0) drawn_game)
  /\ flag_end (model drawn_game) = false
  /\ flag_draw (model drawn_game) = true
  /\ status_of (model drawn_game) = Drawn
  /\ flag_end (model (exec (TTTModelScale.setCell 2 0) drawn_game)) = true
  /\ flag_draw (model (exec (TTTModelScale.setCell 2 0) drawn_game)) = true
  /\ status_of (model (exec (TTTModelScale.setCell 2 0) drawn_game)) = Won.
Proof.
  split.
  - apply reach_setCell; [|discriminate]. apply moves_reachable, reach_start.
  - vm_compute. repeat split.
Qed.

Lemma flags_stay n ms : forall w,
  invariant n w ->
  (flag_end (model w) = true -> flag_end (model (moves ms w)) = true)
  /\ (flag_draw (model w) = true -> flag_draw (model (moves ms w)) = true).
Proof.
  induction ms as [|[x y] ms IH]; intros w Hinv; simpl; [auto|].
  destruct (IH _ (setCell_invariant n w x y Hinv)) as [IHe IHd].
  split; intros H.
  - apply IHe. now apply (end_flag_stays n).
  - apply IHd. now apply (draw_flag_stays n).
Qed.

(** C2, amended.  In a game started once (a new model, its size set,
    [startPlay] called once, and from then on calls of [setCell] and
    [getData] only), whatever sequence of coordinates is passed to
    [setCell] (in range or not, on free cells or not), a raised end flag
    stays raised and a raised draw flag stays raised; and as long as every
    call of [setCell] is on a cell that holds a space, the two flags are
    never raised together. *)
Theorem terminal_flags_persist strict w ms :
  reachable strict w ->
  (flag_end (model w) = true -> flag_end (model (moves ms w)) = true)
  /\ (flag_draw (model w) = true -> flag_draw (model (moves ms w)) = true)
  /\ (strict = true -> flag_end (model w) && flag_draw (model w) = false).
Proof.
  intros Hw. destruct (reachable_invariant _ _ Hw) as (n & Hinv).
  destruct (flags_stay n ms w Hinv) as [He Hd].
  split; [exact He|]. split; [exact Hd|].
  intros ->. now apply strict_exclusive.
Qed.

Lemma zero_won_game_strict : reachable true zero_won_game.
Proof.
  unfold zero_won_game, moves. simpl fold_left.
  repeat (apply reach_setCell; [| intros _; vm_compute; reflexivity]).
  apply reach_start.
Defined.

Lemma terminal_flags_persist_witness :
  (flag_end (model zero_won_game) = true ->
   flag_end (model (moves [(1, 0); (2, 0); (7, 7)]%Z zero_won_game)) = true)
  /\ (flag_draw (model zero_won_game) = true ->
      flag_draw (model (moves [(1, 0); (2, 0); (7, 7)]%Z zero_won_game)) = true)
  /\ (true = true -> flag_end (model zero_won_game) && flag_draw (model zero_won_game) = false).
Proof.
  apply (terminal_flags_persist true zero_won_game [(1, 0); (2, 0); (7, 7)]%Z).
  exact zero_won_game_strict.
Defined.

(** Outside a game started once the flags do not persist.  [startPlay]
    makes a new field and leaves the flags as they are, and the next
    [setCell] computes the end flag anew: the game that the zero player has
    won, started again, is no longer won after one mark on a free cell. *)
Example restarted_game_leaves_won :
  flag_end (model zero_won_game) = true
  /\ flag_end (model (exec TTTModelScale.startPlay zero_won_game)) = true
  /\ targets_empty (exec TTTModelScale.startPlay zero_won_game) 0 0
  /\ flag_end (model (exec (TTTModelScale.setCell 0 0)
                        (exec TTTModelScale.startPlay zero_won_game))) = false.
Proof. vm_compute. repeat split. Qed.

(** The same when the size is changed in a game that is going on:
    [checkWinner] counts up to the new size.  The cross player has won on
    the first row of a 3 x 3 field; with the size set to 2 a further cross
    on the free cell (1, 2) leaves no row, column or diagonal of the 2 x 2
    corner with two equal marks, and the end flag goes down. *)
Example resized_game_leaves_won :
  let won := moves [(0, 0); (1, 0); (0, 1); (2, 1); (0, 2)]%Z (start 3 []) in
  flag_end (model won) = true
  /\ targets_empty (exec (TTTModelScale.size_setter 2) won) 1 2
  /\ flag_end (model (exec (TTTModelScale.setCell 1 2)
                        (exec (TTTModelScale.size_setter 2) won))) = false.
Proof. vm_compute. repeat split. Qed.

Lemma setCell_returns n w rows fld x y w' :
  size (model w) = Z.of_nat n -> owns w rows fld -> square n fld ->
  TTTModelScale.setCell x y w = (Ok tt, w') ->
  exists i j, py_index n x = Some i /\ py_index n y = Some j.
Proof.
  intros Hsz Hown Hsq Hset.
  destruct (py_index n x) as [i|] eqn:Hx; [destruct (py_index n y) as [j|] eqn:Hy|].
  - eauto.
  - rewrite (setCell_raises n w rows fld) in Hset by auto. discriminate.
  - rewrite (setCell_raises n w rows fld) in Hset by auto. discriminate.
Qed.

(** C3.  After a placement by [setCell]: when neither flag is up the active
    player is the other player, when the end flag or the draw flag is up the
    active player is who it was; and with the end flag up the play-field
    holds a line of the active player's symbol, so the active player is the
    winner. *)
Theorem active_player_turns strict w x y w' :
  reachable strict w ->
  TTTModelScale.setCell x y w = (Ok tt, w') ->
  (flag_end (model w') = false /\ flag_draw (model w') = false ->
   active_player (model w') = other_player (active_player (model w))
   /\ active_player (model w') <> active_player (model w))
  /\ (flag_end (model w') = true \/ flag_draw (model w') = true ->
      active_player (model w') = active_player (model w))
  /\ (flag_end (model w') = true ->
      exists n fld', size (model w') = Z.of_nat n /\ play_field w' = Some fld'
                     /\ line_of (symbol_of (active_player (model w'))) n fld').
Proof.
  intros Hw Hset. destruct (reachable_invariant _ _ Hw) as (n & Hinv).
  pose proof (setCell_invariant n w x y Hinv) as Hinv'.
  unfold exec in Hinv'. rewrite Hset in Hinv'. simpl in Hinv'.
  destruct Hinv as (Hsz & rows & fld & Hown & Hsq & Hpl & Hend & Hno & Hdraw).
  destruct (setCell_returns n w rows fld x y w' Hsz Hown Hsq Hset) as (i & j & Hx & Hy).
  destruct (setCell_ok n w rows fld x y i j Hsz Hown Hsq Hx Hy)
    as (r & line & won & Hr & Hline & Hiff & Hset' & Hown' & Hsq').
  cbv zeta in *. rewrite Hset in Hset'. injection Hset' as ->.
  split; [|split].
  - simpl. unfold settle. destruct won; simpl; [intros [? _]; discriminate|].
    destruct (TTTModelScale.isFullField_on _); simpl; [intros [_ ?]; discriminate|].
    intros _. split; [reflexivity | apply other_player_differs].
  - simpl. unfold settle. destruct won; simpl; [reflexivity|].
    destruct (TTTModelScale.isFullField_on _); simpl; [reflexivity|].
    intros [?|?]; discriminate.
  - intros Hfe. destruct Hinv' as (Hsz' & rows' & fld' & Hown2 & _ & _ & Hend' & _).
    exists n, fld'. split; [exact Hsz'|].
    split; [eapply play_field_owns; eauto | auto].
Qed.

Lemma active_player_turns_witness :
  (flag_end (model (exec (TTTModelScale.setCell 1 1) (start 3 []))) = false
   /\ flag_draw (model (exec (TTTModelScale.setCell 1 1) (start 3 []))) = false ->
   active_player (model (exec (TTTModelScale.setCell 1 1) (start 3 [])))
   = other_player (active_player (model (start 3 [])))
   /\ active_player (model (exec (TTTModelScale.setCell 1 1) (start 3 [])))
      <> active_player (model (start 3 [])))
  /\ (flag_end (model (exec (TTTModelScale.setCell 1 1) (start 3 []))) = true
      \/ flag_draw (model (exec (TTTModelScale.setCell 1 1) (start 3 []))) = true ->
      active_player (model (exec (TTTModelScale.setCell 1 1) (start 3 [])))
      = active_player (model (start 3 [])))
  /\ (flag_end (model (exec (TTTModelScale.setCell 1 1) (start 3 []))) = true ->
      exists n fld',
        size (model (exec (TTTModelScale.setCell 1 1) (start 3 []))) = Z.of_nat n
        /\ play_field (exec (TTTModelScale.setCell 1 1) (start 3 [])) = Some fld'
        /\ line_of (symbol_of (active_player
                      (model (exec (TTTModelScale.setCell 1 1) (start 3 []))))) n fld').
Proof.
  apply (active_player_turns true (start 3 []) 1 1).
  - apply reach_start.
  - vm_compute. reflexivity.
Defined.

(** C7.  After a placement by [setCell] the status is Drawn (as the view
    reads the flags: the end flag down and the draw flag up) exactly when
    the play-field has no winning line and no cell holding a space; when the
    placement was on a free cell of a game played on free cells, the same
    holds of the draw flag alone.  [isFullField] returns, and answers [True]
    exactly when no cell holds a space. *)
Theorem draw_after_placement strict w x y w' :
  reachable strict w ->
  TTTModelScale.setCell x y w = (Ok tt, w') ->
  exists n fld',
    size (model w') = Z.of_nat n /\ play_field w' = Some fld'
    /\ (status_of (model w') = Drawn <-> ~ winning_line n fld' /\ no_empty_cell fld')
    /\ (strict = true -> targets_empty w x y ->
        (flag_draw (model w') = true <-> ~ winning_line n fld' /\ no_empty_cell fld'))
    /\ TTTModelScale.isFullField w' = (Ok (TTTModelScale.isFullField_on fld'), w')
    /\ (TTTModelScale.isFullField_on fld' = true <-> no_empty_cell fld').
Proof.
  intros Hw Hset. destruct (reachable_invariant _ _ Hw) as (n & Hinv).
  destruct Hinv as (Hsz & rows & fld & Hown & Hsq & Hpl & Hend & Hno & Hdraw).
  destruct (setCell_returns n w rows fld x y w' Hsz Hown Hsq Hset) as (i & j & Hx & Hy).
  destruct (setCell_ok n w rows fld x y i j Hsz Hown Hsq Hx Hy)
    as (r & line & won & Hr & Hline & Hiff & Hset' & Hown' & Hsq').
  cbv zeta in *. rewrite Hset in Hset'. injection Hset' as Hw'.
  clear Hpl Hend Hno Hdraw.
  set (fld' := <[i := <[j := symbol_of (active_player (model w))]> line]> fld) in *.
  rewrite <- Hw' in Hown'.
  assert (status_of (model w') = Drawn <-> ~ winning_line n fld' /\ no_empty_cell fld') as Hst.
  { rewrite <- isFullField_on_spec. rewrite Hw'. simpl. unfold settle, status_of.
    destruct won; simpl.
    - split; [discriminate|]. intros [Hn _]. exfalso. apply Hn, Hiff. reflexivity.
    - destruct (TTTModelScale.isFullField_on fld'); simpl.
      + split; [|reflexivity]. intros _. split; [|reflexivity].
        intros Hl. apply Hiff in Hl. discriminate.
      + split; [discriminate|]. intros [_ ?]. discriminate. }
  exists n, fld'. split; [|split; [|split; [|split; [|split]]]].
  - rewrite Hw'. simpl. unfold settle. destruct won; [|destruct (TTTModelScale.isFullField_on _)];
      simpl; exact Hsz.
  - eapply play_field_owns; eauto.
  - exact Hst.
  - intros -> Hc. rewrite <- Hst.
    assert (reachable true w') as Hr'.
    { replace w' with (exec (TTTModelScale.setCell x y) w)
        by (unfold exec; now rewrite Hset).
      apply reach_setCell; auto. }
    apply strict_exclusive in Hr'. unfold status_of.
    destruct (flag_end (model w')), (flag_draw (model w')); simpl in *;
      split; congruence.
  - eapply isFullField_owns; eauto.
  - apply isFullField_on_spec.
Qed.

Lemma draw_after_placement_witness :
  exists n fld',
    size (model (exec (TTTModelScale.setCell 1 1) (start 3 []))) = Z.of_nat n
    /\ play_field (exec (TTTModelScale.setCell 1 1) (start 3 [])) = Some fld'
    /\ (status_of (model (exec (TTTModelScale.setCell 1 1) (start 3 []))) = Drawn
        <-> ~ winning_line n fld' /\ no_empty_cell fld')
    /\ (true = true -> targets_empty (start 3 []) 1 1 ->
        (flag_draw (model (exec (TTTModelScale.setCell 1 1) (start 3 []))) = true
         <-> ~ winning_line n fld' /\ no_empty_cell fld'))
    /\ TTTModelScale.isFullField (exec (TTTModelScale.setCell 1 1) (start 3 []))
       = (Ok (TTTModelScale.isFullField_on fld'),
          exec (TTTModelScale.setCell 1 1) (start 3 []))
    /\ (TTTModelScale.isFullField_on fld' = true <-> no_empty_cell fld').
Proof.
  apply (draw_after_placement true (start 3 []) 1 1).
  - apply reach_start.
  - vm_compute. reflexivity.
Defined.

(** What a call of [setCell] with both subscripts in range changes: one
    cell of the play-field, the flags and the active player, the log. *)
Lemma setCell_writes n w x y i j :
  invariant n w -> py_index n x = Some i -> py_index n y = Some j ->
  exists rows fld fld' w',
    owns w rows fld
    /\ TTTModelScale.setCell x y w = (Ok tt, w')
    /\ owns w' rows fld' /\ square n fld'
    /\ (forall r c, cell fld' r c
                    = if decide (r = i /\ c = j)
                      then Some (symbol_of (active_player (model w)))
                      else cell fld r c)
    /\ size (model w') = size (model w)
    /\ observers (model w') = observers (model w)
    /\ field (model w') = field (model w)
    /\ grid_store w' = grid_store w.
Proof.
  intros (Hsz & rows & fld & Hown & Hsq & _) Hx Hy.
  destruct (setCell_ok n w rows fld x y i j Hsz Hown Hsq Hx Hy)
    as (r & line & won & Hr & Hline & Hiff & Hset & Hown' & Hsq').
  cbv zeta in *.
  pose proof (square_row_length n fld i line Hsq Hline) as Hll.
  apply py_index_Some in Hy as Hj. destruct Hj as [Hj _].
  eexists rows, fld, _, _. split; [exact Hown|]. split; [exact Hset|].
  split; [exact Hown'|]. split; [exact Hsq'|].
  split; [intros r0 c; apply cell_place; [assumption | lia]|].
  simpl. unfold settle.
  destruct won; [|destruct (TTTModelScale.isFullField_on _)]; simpl; auto.
Qed.

Lemma py_index_front n x : (0 <= x < Z.of_nat n)%Z -> py_index n x = Some (Z.to_nat x).
Proof.
  intros H. unfold py_index.
  destruct (Z.leb_spec 0 x); [|lia].
  destruct (Z.ltb_spec x (Z.of_nat n)); [reflexivity | lia].
Qed.

Lemma py_index_wrap n x :
  (- Z.of_nat n <= x < Z.of_nat n)%Z -> py_index n x = Some (wrap n x).
Proof.
  intros H. unfold py_index, wrap.
  destruct (Z.leb_spec 0 x), (Z.ltb_spec x 0); try lia.
  - destruct (Z.ltb_spec x (Z.of_nat n)); [reflexivity | lia].
  - destruct (Z.leb_spec (- Z.of_nat n) x); [reflexivity | lia].
Qed.

(** C9.  In a started game of size N, [setCell(x, y)] with [0 <= x < N] and
    [0 <= y < N] returns; afterwards the cell in row x and column y holds
    the symbol of the player who was active and every other cell holds what
    it held; the play-field is still N x N, made of the same distinct row
    objects (so no row is an alias of another); and the size, the list of
    observers and the outer lists are as they were. *)
Theorem setCell_writes_one_cell strict w n x y :
  reachable strict w ->
  size (model w) = Z.of_nat n ->
  (0 <= x < Z.of_nat n)%Z ->
  (0 <= y < Z.of_nat n)%Z ->
  exists rows fld fld' w',
    play_field w = Some fld
    /\ TTTModelScale.setCell x y w = (Ok tt, w')
    /\ play_field w' = Some fld'
    /\ (forall r c, cell fld' r c
                    = if decide (r = Z.to_nat x /\ c = Z.to_nat y)
                      then Some (symbol_of (active_player (model w)))
                      else cell fld r c)
    /\ square n fld'
    /\ owns w rows fld /\ owns w' rows fld' /\ NoDup rows
    /\ size (model w') = size (model w)
    /\ observers (model w') = observers (model w)
    /\ grid_store w' = grid_store w.
Proof.
  intros Hw Hsz Hx Hy. destruct (reachable_invariant _ _ Hw) as (n' & Hinv).
  assert (n' = n) as -> by (destruct Hinv as [Hsz' _]; lia).
  destruct (setCell_writes n w x y _ _ Hinv (py_index_front n x Hx) (py_index_front n y Hy))
    as (rows & fld & fld' & w' & Hown & Hset & Hown' & Hsq' & Hcell & Hs & Ho & Hf & Hg).
  exists rows, fld, fld', w'.
  split; [eapply play_field_owns; eauto|]. split; [exact Hset|].
  split; [eapply play_field_owns; eauto|]. split; [exact Hcell|]. split; [exact Hsq'|].
  split; [exact Hown|]. split; [exact Hown'|]. split; [apply Hown|]. auto.
Qed.

Lemma setCell_writes_one_cell_witness :
  exists rows fld fld' w',
    play_field (start 3 [7]) = Some fld
    /\ TTTModelScale.setCell 2 1 (start 3 [7]) = (Ok tt, w')
    /\ play_field w' = Some fld'
    /\ (forall r c, cell fld' r c
                    = if decide (r = Z.to_nat 2 /\ c = Z.to_nat 1)
                      then Some (symbol_of (active_player (model (start 3 [7]))))
                      else cell fld r c)
    /\ square 3 fld'
    /\ owns (start 3 [7]) rows fld /\ owns w' rows fld' /\ NoDup rows
    /\ size (model w') = size (model (start 3 [7]))
    /\ observers (model w') = observers (model (start 3 [7]))
    /\ grid_store w' = grid_store (start 3 [7]).
Proof.
  apply (setCell_writes_one_cell true (start 3 [7]) 3 2 1).
  - apply reach_start.
  - reflexivity.
  - lia.
  - lia.
Defined.

(** C10.  In a started game of size N, [setCell(x, y)] with both
    coordinates in [-N, N-1] and at least one of them negative does not
    raise: a negative coordinate [i] selects row or column [N + i], and the
    active player's symbol is written there, every other cell being left as
    it was. *)
Theorem setCell_negative_index strict w n x y :
  reachable strict w ->
  size (model w) = Z.of_nat n ->
  (- Z.of_nat n <= x < Z.of_nat n)%Z ->
  (- Z.of_nat n <= y < Z.of_nat n)%Z ->
  (x < 0 \/ y < 0)%Z ->
  exists fld fld' w',
    play_field w = Some fld
    /\ TTTModelScale.setCell x y w = (Ok tt, w')
    /\ play_field w' = Some fld'
    /\ (x < 0 -> Z.of_nat (wrap n x) = Z.of_nat n + x)%Z
    /\ (y < 0 -> Z.of_nat (wrap n y) = Z.of_nat n + y)%Z
    /\ (forall r c, cell fld' r c
                    = if decide (r = wrap n x /\ c = wrap n y)
                      then Some (symbol_of (active_player (model w)))
                      else cell fld r c).
Proof.
  intros Hw Hsz Hx Hy _. destruct (reachable_invariant _ _ Hw) as (n' & Hinv).
  assert (n' = n) as -> by (destruct Hinv as [Hsz' _]; lia).
  destruct (setCell_writes n w x y _ _ Hinv (py_index_wrap n x Hx) (py_index_wrap n y Hy))
    as (rows & fld & fld' & w' & Hown & Hset & Hown' & Hsq' & Hcell & _).
  exists fld, fld', w'.
  split; [eapply play_field_owns; eauto|]. split; [exact Hset|].
  split; [eapply play_field_owns; eauto|].
  split; [|split; [|exact Hcell]]; intros Hneg; unfold wrap.
  - destruct (Z.ltb_spec x 0); lia.
  - destruct (Z.ltb_spec y 0); lia.
Qed.

Lemma setCell_negative_index_witness :
  exists fld fld' w',
    play_field (start 3 []) = Some fld
    /\ TTTModelScale.setCell (-1) 0 (start 3 []) = (Ok tt, w')
    /\ play_field w' = Some fld'
    /\ (-1 < 0 -> Z.of_nat (wrap 3 (-1)) = Z.of_nat 3 + -1)%Z
    /\ (0 < 0 -> Z.of_nat (wrap 3 0) = Z.of_nat 3 + 0)%Z
    /\ (forall r c, cell fld' r c
                    = if decide (r = wrap 3 (-1) /\ c = wrap 3 0)
                      then Some (symbol_of (active_player (model (start 3 []))))
                      else cell fld r c).
Proof.
  apply (setCell_negative_index true (start 3 []) 3 (-1) 0).
  - apply reach_start.
  - reflexivity.
  - lia.
  - lia.
  - lia.
Defined.




(** C5, as stated, fails for a prior state other than a new model:
    [startPlay] makes a new play-field and notifies, and assigns neither the
    flags nor the active player.  After the game the zero player has won,
    setting the size to 3 and calling [startPlay] leaves an empty 3 x 3
    field with the end flag still up and the zero player still active. *)
Lemma startPlay_keeps_flags_and_player :
  reachable false zero_won_game
  /\ play_field (exec TTTModelScale.startPlay
                   (exec (TTTModelScale.size_setter 3) zero_won_game))
     = Some (repeat (repeat " " 3) 3)
  /\ flag_end (model (exec TTTModelScale.startPlay
                        (exec (TTTModelScale.size_setter 3) zero_won_game))) = true
  /\ active_player (model (exec TTTModelScale.startPlay
                             (exec (TTTModelScale.size_setter 3) zero_won_game)))
     = player_0.
Proof.
  split; [apply moves_reachable, reach_start|].
  vm_compute. repeat split.
Qed.

(** C5, amended.  For every size N and every prior world, setting the size
    to N and calling [startPlay] returns and leaves an N x N play-field with
    a space in every cell, every registered observer notified once, in the
    order of registration, and the active player and the two flags as they
    were; on a model that was just constructed (with any observers
    registered) that is the cross player active and both flags down. *)
Theorem startPlay_prepares_field w n obs :
  (TTTModelScale.startPlay (exec (TTTModelScale.size_setter (Z.of_nat n)) w)
   = (Ok tt, exec TTTModelScale.startPlay
               (exec (TTTModelScale.size_setter (Z.of_nat n)) w))
   /\ size (model (exec TTTModelScale.startPlay
                     (exec (TTTModelScale.size_setter (Z.of_nat n)) w))) = Z.of_nat n
   /\ play_field (exec TTTModelScale.startPlay
                    (exec (TTTModelScale.size_setter (Z.of_nat n)) w))
      = Some (repeat (repeat " " n) n)
   /\ square n (repeat (repeat " " n) n)
   /\ log (exec TTTModelScale.startPlay
             (exec (TTTModelScale.size_setter (Z.of_nat n)) w))
      = log w ++ map Updated (observers (model w))
   /\ observers (model (exec TTTModelScale.startPlay
                          (exec (TTTModelScale.size_setter (Z.of_nat n)) w)))
      = observers (model w)
   /\ active_player (model (exec TTTModelScale.startPlay
                              (exec (TTTModelScale.size_setter (Z.of_nat n)) w)))
      = active_player (model w)
   /\ flag_end (model (exec TTTModelScale.startPlay
                         (exec (TTTModelScale.size_setter (Z.of_nat n)) w)))
      = flag_end (model w)
   /\ flag_draw (model (exec TTTModelScale.startPlay
                          (exec (TTTModelScale.size_setter (Z.of_nat n)) w)))
      = flag_draw (model w))
  /\ (play_field (start n obs) = Some (repeat (repeat " " n) n)
      /\ size (model (start n obs)) = Z.of_nat n
      /\ active_player (model (start n obs)) = player_X
      /\ flag_end (model (start n obs)) = false
      /\ flag_draw (model (start n obs)) = false
      /\ log (start n obs) = map Updated obs).
Proof.
  split.
  - set (w0 := exec (TTTModelScale.size_setter (Z.of_nat n)) w).
    pose proof (startPlay_owns w0) as Hown.
    assert (Z.to_nat (size (model w0)) = n) as Hn by (simpl; apply Nat2Z.id).
    rewrite Hn in Hown.
    split; [unfold exec; now rewrite startPlay_spec|].
    split; [unfold exec; now rewrite startPlay_spec|].
    split; [eapply play_field_owns; eauto|].
    split; [apply blank_square|].
    unfold exec. rewrite startPlay_spec. simpl. auto.
  - split; [eapply play_field_owns, start_owns|].
    rewrite start_spec. simpl. auto.
Qed.

Lemma store_cell_at w g rows r line x y i j v :
  grid_store w !! g = Some rows ->
  py_index (length rows) x = Some i ->
  rows !! i = Some r ->
  row_store w !! r = Some line ->
  py_index (length line) y = Some j ->
  store_cell g x y v w = (Ok tt, with_rows (<[r := <[j := v]> line]> (row_store w)) w).
Proof.
  intros Hg Hx Hr Hrl Hy.
  unfold store_cell, bind, load_grid, lift, getitem, setitem, load_row, store_row.
  now rewrite Hg, Hx, Hr, Hrl, Hy.
Qed.

(** C4 on the code.  The snapshot of [getData] holds a new outer list, but
    with the model's own row objects in it: in a started game of size N an
    observer that does [field[x][y] = v] on the play-field of its snapshot,
    with [0 <= x < N] and [0 <= y < N], writes [v] into the cell (x, y) of
    the model's play-field. *)
Theorem snapshot_shares_rows strict w n x y v :
  reachable strict w ->
  size (model w) = Z.of_nat n ->
  (0 <= x < Z.of_nat n)%Z ->
  (0 <= y < Z.of_nat n)%Z ->
  exists s w1 w2 fld fld2,
    TTTModelScale.getData w = (Ok s, w1)
    /\ TTTModelScale.snap_field s <> field (model w1)
    /\ grid_store w1 !! TTTModelScale.snap_field s = grid_store w1 !! field (model w1)
    /\ play_field w1 = Some fld
    /\ store_cell (TTTModelScale.snap_field s) x y v w1 = (Ok tt, w2)
    /\ model w2 = model w1
    /\ play_field w2 = Some fld2
    /\ (forall r c, cell fld2 r c
                    = if decide (r = Z.to_nat x /\ c = Z.to_nat y) then Some v
                      else cell fld r c).
Proof.
  intros Hw Hsz Hx Hy. destruct (reachable_invariant _ _ Hw) as (n' & Hinv).
  assert (n' = n) as -> by (destruct Hinv as [Hsz' _]; lia).
  destruct Hinv as (_ & rows & fld & Hown & Hsq & _).
  pose proof Hown as (Hg & Hnd & Hrows).
  pose proof (getData_owns w rows fld Hown) as Hown1.
  unfold exec in Hown1. rewrite (getData_spec w rows Hg) in Hown1. simpl in Hown1.
  set (w1 := mkWorld (model w) (row_store w) (grid_store w ++ [rows]) (log w)) in *.
  pose proof (square_lengths n fld rows w Hsq Hrows) as Hlr.
  pose proof Hsq as [Hlen _].
  destruct (lookup_lt_is_Some_2 rows (Z.to_nat x)) as [r Hr]; [lia|].
  destruct (lookup_lt_is_Some_2 fld (Z.to_nat x)) as [line Hline]; [lia|].
  pose proof (square_row_length n fld (Z.to_nat x) line Hsq Hline) as Hll.
  assert (row_store w1 !! r = Some line) as Hrl.
  { rewrite Forall2_same_length_lookup in Hrows. destruct Hrows as [_ H]. simpl. eauto. }
  assert (py_index (length rows) x = Some (Z.to_nat x)) as Hpx
    by (rewrite Hlr; now apply py_index_front).
  assert (py_index (length line) y = Some (Z.to_nat y)) as Hpy
    by (rewrite Hll; now apply py_index_front).
  destruct (store_cell_owns w1 rows fld x y (Z.to_nat x) (Z.to_nat y) r line v
              Hown1 Hpx Hr Hline Hpy) as [_ Hown2].
  eexists _, w1, _, fld, _.
  split; [apply (getData_spec w rows Hg)|]. simpl.
  split.
  { intros Heq. apply lookup_lt_Some in Hg. lia. }
  split.
  { rewrite lookup_app_r, Nat.sub_diag by lia. simpl.
    symmetry. now apply lookup_app_l_Some. }
  split; [eapply play_field_owns; eauto|].
  split.
  { apply (store_cell_at w1 _ rows r line x y (Z.to_nat x) (Z.to_nat y) v); auto.
    simpl. now rewrite lookup_app_r, Nat.sub_diag by lia. }
  split; [reflexivity|].
  split; [eapply play_field_owns; eauto|].
  intros r0 c. apply cell_place; [assumption | lia].
Qed.

Lemma snapshot_shares_rows_witness :
  exists s w1 w2 fld fld2,
    TTTModelScale.getData (start 3 []) = (Ok s, w1)
    /\ TTTModelScale.snap_field s <> field (model w1)
    /\ grid_store w1 !! TTTModelScale.snap_field s = grid_store w1 !! field (model w1)
    /\ play_field w1 = Some fld
    /\ store_cell (TTTModelScale.snap_field s) 0 0 "X" w1 = (Ok tt, w2)
    /\ model w2 = model w1
    /\ play_field w2 = Some fld2
    /\ (forall r c, cell fld2 r c
                    = if decide (r = Z.to_nat 0 /\ c = Z.to_nat 0) then Some "X"
                      else cell fld r c).
Proof.
  apply (snapshot_shares_rows true (start 3 []) 3 0 0 "X").
  - apply reach_start.
  - reflexivity.
  - lia.
  - lia.
Defined.

(** The same on one game: after [startPlay] on the default size, with no
    mark placed, a write through the snapshot puts an "X" on the model's
    play-field while the model's attributes say that nobody has moved. *)
Example observer_marks_the_model :
  let w1 := exec TTTModelScale.getData (start 3 []) in
  fst (TTTModelScale.getData (start 3 []))
  = Ok (TTTModelScale.mkSnapshot 3 false false player_X 2)
  /\ field (model w1) = 1
  /\ play_field w1 = Some [[" "; " "; " "]; [" "; " "; " "]; [" "; " "; " "]]
  /\ play_field (exec (store_cell 2 0 0 "X") w1)
     = Some [["X"; " "; " "]; [" "; " "; " "]; [" "; " "; " "]]
  /\ model (exec (store_cell 2 0 0 "X") w1) = model (start 3 []).
Proof. vm_compute. repeat split. Qed.

(** ** The view's check of a line of input *)

Lemma replace_double_space_length s :
  (String.length (TTTView.replace_double_space s) <= String.length s
   /\ (String.length (TTTView.replace_double_space s) = String.length s ->
       TTTView.replace_double_space s = s))
  /\ forall c,
      String.length (TTTView.replace_double_space (String c s)) <= S (String.length s)
      /\ (String.length (TTTView.replace_double_space (String c s)) = S (String.length s) ->
          TTTView.replace_double_space (String c s) = String c s).
Proof.
  induction s as [|b s [[IH1 IH2] IH3]].
  - split; [split; auto|]. intros c. simpl. split; auto.
  - split; [exact (IH3 b)|]. intros c.
    change (TTTView.replace_double_space (String c (String b s)))
      with (if Ascii.eqb c " " && Ascii.eqb b " "
            then String " "%char (TTTView.replace_double_space s)
            else String c (TTTView.replace_double_space (String b s))).
    destruct (Ascii.eqb c " " && Ascii.eqb b " ").
    + cbn [String.length]. split; [lia|]. intros H. lia.
    + destruct (IH3 b) as [Hle Heq]. cbn [String.length] in *. split; [lia|].
      intros H. f_equal. apply Heq. lia.
Qed.

(** The length of the line is enough turns for the loop that removes the
    double spaces: what [squeeze] returns has none left. *)
Lemma squeeze_fixpoint turns : forall line,
  String.length line <= turns ->
  TTTView.replace_double_space (TTTView.squeeze turns line) = TTTView.squeeze turns line.
Proof.
  induction turns as [|turns IH]; intros line Hlen; simpl.
  - destruct (String.eqb_spec (TTTView.replace_double_space line) line) as [E|E].
    + rewrite E. exact E.
    + destruct line; [now contradiction E | simpl in Hlen; lia].
  - destruct (String.eqb_spec (TTTView.replace_double_space line) line) as [E|E].
    + rewrite E. exact E.
    + apply IH. destruct (replace_double_space_length line) as [[Hle Heq] _].
      assert (String.length (TTTView.replace_double_space line) <> String.length line)
        by (intros H; apply E, Heq, H).
      lia.
Qed.

Lemma load_cell_reads g x y w : snd (load_cell g x y w) = w.
Proof.
  unfold load_cell, bind, load_grid, lift, load_row.
  destruct (grid_store w !! g); [|reflexivity].
  destruct (getitem l x); [|reflexivity].
  destruct (row_store w !! a); reflexivity.
Qed.

(** Checking a line reads the snapshot and changes nothing. *)
Lemma try_line_reads sz fld line w : snd (TTTView.try_line sz fld line w) = w.
Proof.
  unfold TTTView.try_line.
  destruct (String.eqb line ""); [reflexivity|]. cbv zeta.
  destruct (1 <? _)%Z; [reflexivity|].
  unfold bind, lift.
  destruct (TTTView.unpack_pair _) as [[tx ty]|]; [|reflexivity]. simpl.
  destruct (TTTView.int tx) as [x|]; [|reflexivity].
  destruct (TTTView.int ty) as [y|]; [|reflexivity].
  destruct ((sz <? x)%Z || (sz <? y)%Z); [reflexivity|].
  pose proof (load_cell_reads fld (x - 1) (y - 1) w) as H.
  destruct (load_cell fld (x - 1) (y - 1) w) as [[c|e] w']; simpl in H; subst; [|reflexivity].
  destruct (negb (String.eqb c " ")); reflexivity.
Qed.

Lemma guarded_reads sz fld line w : snd (TTTView.guarded sz fld line w) = w.
Proof.
  unfold TTTView.guarded. pose proof (try_line_reads sz fld line w) as H.
  destruct (TTTView.try_line sz fld line w) as [[v|[]] w']; simpl in *; exact H.
Qed.

(** What the view's check does establish of a move it accepts: neither
    coordinate is greater than the size, and the cell selected by the two
    subscripts, each less one, holds a space. *)
Lemma accepted_move sz fld line w x y w' :
  TTTView.guarded sz fld line w = (Ok (TTTView.Move x y), w') ->
  w' = w /\ (x <= sz)%Z /\ (y <= sz)%Z
  /\ load_cell fld (x - 1) (y - 1) w = (Ok " ", w).
Proof.
  intros H. pose proof (guarded_reads sz fld line w) as Hw. rewrite H in Hw.
  simpl in Hw. subst w'. split; [reflexivity|].
  unfold TTTView.guarded in H.
  destruct (TTTView.try_line sz fld line w) as [[v|e] w1] eqn:Ht;
    [|destruct e; discriminate].
  injection H as -> ->.
  unfold TTTView.try_line in Ht.
  destruct (String.eqb line ""); [discriminate|]. cbv zeta in Ht.
  destruct (1 <? _)%Z; [discriminate|].
  unfold bind, lift in Ht.
  destruct (TTTView.unpack_pair _) as [[tx ty]|]; [|discriminate]. simpl in Ht.
  destruct (TTTView.int tx) as [x0|]; [|discriminate].
  destruct (TTTView.int ty) as [y0|]; [|discriminate].
  destruct (Z.ltb_spec sz x0); [discriminate|].
  destruct (Z.ltb_spec sz y0); [discriminate|]. simpl in Ht.
  pose proof (load_cell_reads fld (x0 - 1) (y0 - 1) w) as Hl.
  destruct (load_cell fld (x0 - 1) (y0 - 1) w) as [[c|e] w2] eqn:Hc; [|discriminate].
  simpl in Hl. subst w2.
  destruct (String.eqb_spec c " ") as [E|E]; simpl in Ht; [|discriminate].
  rewrite E in Hc. injection Ht as <- <-. auto.
Qed.

Lemma load_cell_same_rows g g' x y w :
  grid_store w !! g = grid_store w !! g' -> load_cell g x y w = load_cell g' x y w.
Proof. intros H. unfold load_cell, bind, load_grid. now rewrite H. Qed.

(** In a started game a move that the view accepts on a snapshot keeps the
    caller's side of the contract of [setCell]: the subscripts it forwards
    select a cell that holds a space, and [setCell] returns. *)
Lemma view_move_keeps_contract strict w line s w1 x y w1' :
  reachable strict w ->
  TTTModelScale.getData w = (Ok s, w1) ->
  TTTView.guarded (TTTModelScale.snap_size s) (TTTModelScale.snap_field s) line w1
  = (Ok (TTTView.Move x y), w1') ->
  w1' = w1
  /\ (x <= size (model w))%Z /\ (y <= size (model w))%Z
  /\ targets_empty w1 (x - 1) (y - 1)
  /\ reachable strict (exec (TTTController.setCell (x - 1) (y - 1)) w1)
  /\ fst (TTTController.setCell (x - 1) (y - 1) w1) = Ok tt.
Proof.
  intros Hw Hget Hmove.
  assert (reachable strict w1) as Hw1.
  { replace w1 with (exec TTTModelScale.getData w) by (unfold exec; now rewrite Hget).
    now apply reach_getData. }
  destruct (reachable_invariant _ _ Hw) as (n & Hsz & rows & fld & Hown & Hsq & _).
  pose proof Hown as (Hg & _).
  rewrite (getData_spec w rows Hg) in Hget. injection Hget as <- <-.
  simpl in Hmove.
  destruct (accepted_move _ _ _ _ _ _ _ Hmove) as (-> & Hx & Hy & Hcell).
  set (w1 := mkWorld (model w) (row_store w) (grid_store w ++ [rows]) (log w)) in *.
  assert (targets_empty w1 (x - 1) (y - 1)) as Hte.
  { unfold targets_empty.
    rewrite <- (load_cell_same_rows (length (grid_store w))), Hcell; [reflexivity|].
    simpl. rewrite lookup_app_r, Nat.sub_diag by lia. simpl.
    symmetry. now apply lookup_app_l_Some. }
  split; [reflexivity|]. split; [exact Hx|]. split; [exact Hy|]. split; [exact Hte|].
  split; [apply reach_setCell; auto|].
  destruct (reachable_invariant _ _ Hw1) as (n1 & Hsz1 & rows1 & fld1 & Hown1 & Hsq1 & _).
  destruct (targets_empty_cell n1 w1 rows1 fld1 _ _ Hown1 Hsq1 Hte) as (i & j & Hi & Hj & _).
  destruct (setCell_ok n1 w1 rows1 fld1 _ _ i j Hsz1 Hown1 Hsq1 Hi Hj)
    as (r & l & won & _ & _ & _ & Hset & _).
  unfold TTTController.setCell. cbv zeta in Hset. now rewrite Hset.
Qed.


(** ** Games played out *)

(** Three crosses on the first row win for the cross player, who stays the
    active player. *)
Example row_win :
  let w := moves [(0, 0); (1, 1); (0, 1); (2, 2); (0, 2)]%Z (start 3 []) in
  status_of (model w) = Won /\ active_player (model w) = player_X
  /\ play_field w = Some [["X"; "X"; "X"]; [" "; "0"; " "]; [" "; " "; "0"]].
Proof. vm_compute. repeat split. Qed.

Example diagonal_win :
  let w := moves [(0, 0); (0, 1); (1, 1); (0, 2); (2, 2)]%Z (start 3 []) in
  status_of (model w) = Won /\ active_player (model w) = player_X.
Proof. vm_compute. repeat split. Qed.

Example anti_diagonal_win_of_zero :
  let w := moves [(0, 0); (0, 2); (0, 1); (1, 1); (2, 2); (2, 0)]%Z (start 3 []) in
  status_of (model w) = Won /\ active_player (model w) = player_0.
Proof. vm_compute. repeat split. Qed.

Example full_field_is_a_draw :
  status_of (model drawn_game) = Drawn
  /\ play_field drawn_game = Some [["X"; "0"; "X"]; ["X"; "0"; "0"]; ["0"; "X"; "X"]].
Proof. vm_compute. repeat split. Qed.

(** On a field of size 5 four marks in a row do not end the game, the
    fifth does. *)
Example five_in_a_row :
  let four := moves [(0, 0); (1, 0); (0, 1); (1, 1); (0, 2); (1, 2); (0, 3)]%Z (start 5 []) in
  status_of (model four) = InProgress
  /\ status_of (model (moves [(1, 3); (0, 4)]%Z four)) = Won.
Proof. vm_compute. repeat split. Qed.

(** A call of [setCell] out of range raises and changes nothing. *)
Example out_of_range_raises :
  TTTModelScale.setCell 3 0 (start 3 []) = (Raise IndexError, start 3 [])
  /\ TTTModelScale.setCell 0 (-4) (start 3 []) = (Raise IndexError, start 3 []).
Proof. vm_compute. repeat split. Qed.

Lemma startPlay_prepares_field_example :
  play_field (start 4 [1; 2]) = Some (repeat (repeat " " 4) 4)
  /\ log (start 4 [1; 2]) = [Updated 1; Updated 2].
Proof. vm_compute. repeat split. Qed.

(** * More of the model *)

(** X1.  In a started game of size N a call of [setCell] with a coordinate
    below -N or above N-1 raises [IndexError] and leaves the world as it
    was: nothing is written, no flag and no player changes, nobody is
    notified. *)
Theorem setCell_out_of_range strict w n x y :
  reachable strict w ->
  size (model w) = Z.of_nat n ->
  (x < - Z.of_nat n \/ Z.of_nat n <= x \/ y < - Z.of_nat n \/ Z.of_nat n <= y)%Z ->
  TTTModelScale.setCell x y w = (Raise IndexError, w).
Proof.
  intros Hw Hsz Hxy. destruct (reachable_invariant _ _ Hw) as (n' & Hinv).
  assert (n' = n) as -> by (destruct Hinv as [Hsz' _]; lia).
  destruct Hinv as (_ & rows & fld & Hown & Hsq & _).
  apply (setCell_raises n w rows fld); auto.
  rewrite !py_index_None. lia.
Qed.

Lemma setCell_out_of_range_witness :
  TTTModelScale.setCell 1 (-4) zero_won_game = (Raise IndexError, zero_won_game).
Proof.
  apply (setCell_out_of_range false zero_won_game 3 1 (-4)).
  - apply moves_reachable, reach_start.
  - reflexivity.
  - lia.
Defined.

(** X2.  In a started game a call of [setCell] that returns has notified
    every entry of the list of observers once, in the order of the list:
    these are the calls of [updateCurrentSituation] that its own
    [notifyObserver] makes, what an observer does when it is called being
    no part of the model.  The list itself is unchanged. *)
Theorem placement_notifies_observers strict w x y w' :
  reachable strict w ->
  TTTModelScale.setCell x y w = (Ok tt, w') ->
  log w' = log w ++ map Updated (observers (model w))
  /\ observers (model w') = observers (model w).
Proof.
  intros Hw Hset. destruct (reachable_invariant _ _ Hw) as (n & Hinv).
  destruct Hinv as (Hsz & rows & fld & Hown & Hsq & _).
  destruct (setCell_returns n w rows fld x y w' Hsz Hown Hsq Hset) as (i & j & Hx & Hy).
  destruct (setCell_ok n w rows fld x y i j Hsz Hown Hsq Hx Hy)
    as (r & line & won & _ & _ & _ & Hset' & _).
  cbv zeta in Hset'. rewrite Hset in Hset'. injection Hset' as ->.
  simpl. unfold settle.
  destruct won; [|destruct (TTTModelScale.isFullField_on _)]; simpl; auto.
Qed.

Lemma placement_notifies_observers_witness :
  log (exec (TTTModelScale.setCell 1 1) (start 3 [4; 2; 4]))
  = log (start 3 [4; 2; 4]) ++ map Updated (observers (model (start 3 [4; 2; 4])))
  /\ observers (model (exec (TTTModelScale.setCell 1 1) (start 3 [4; 2; 4])))
     = observers (model (start 3 [4; 2; 4])).
Proof.
  apply (placement_notifies_observers true (start 3 [4; 2; 4]) 1 1).
  - apply reach_start.
  - vm_compute. reflexivity.
Defined.

Lemma blank_marks_only n : marks_only (repeat (repeat " " n) n).
Proof.
  intros r c s Hs. left. unfold cell in Hs.
  destruct (repeat (repeat " " n) n !! r) as [line|] eqn:Hline; [|discriminate].
  apply list_elem_of_lookup_2, list_elem_of_In, repeat_spec in Hline. subst line.
  apply list_elem_of_lookup_2, list_elem_of_In, repeat_spec in Hs. exact Hs.
Qed.

(** X4.  In a started game, whatever is passed to [setCell], every cell of
    the play-field holds one of the three strings " ", "X" and "0". *)
Theorem cells_hold_marks strict w :
  reachable strict w ->
  exists fld, play_field w = Some fld /\ marks_only fld.
Proof.
  induction 1 as [n obs | w Hw (fld & Hpf & Hm) | w x y Hw (fld & Hpf & Hm) _].
  - exists (repeat (repeat " " n) n).
    split; [eapply play_field_owns, start_owns | apply blank_marks_only].
  - destruct (reachable_invariant _ _ Hw) as (n & _ & rows & fld0 & Hown & _).
    exists fld. split; [|exact Hm].
    rewrite (play_field_owns _ rows fld0 (getData_owns w rows fld0 Hown)).
    now rewrite <- Hpf, (play_field_owns w rows fld0 Hown).
  - destruct (reachable_invariant _ _ Hw) as (n & Hsz & rows & fld0 & Hown & Hsq & _).
    assert (fld0 = fld) as -> by (rewrite (play_field_owns w rows fld0 Hown) in Hpf; congruence).
    destruct (py_index n x) as [i|] eqn:Hx; [destruct (py_index n y) as [j|] eqn:Hy|].
    2,3: exists fld; unfold exec; rewrite (setCell_raises n w rows fld) by auto; auto.
    destruct (setCell_ok n w rows fld x y i j Hsz Hown Hsq Hx Hy)
      as (r & line & won & Hr & Hline & _ & Hset & Hown' & _).
    cbv zeta in *. unfold exec. rewrite Hset. simpl.
    eexists. split; [eapply play_field_owns; exact Hown'|].
    pose proof (square_row_length n fld i line Hsq Hline) as Hll.
    apply py_index_Some in Hy as Hj. destruct Hj as [Hj _].
    intros r0 c s. rewrite (cell_place fld i j line _ r0 c Hline) by lia.
    destruct (decide (r0 = i /\ c = j)); [|apply Hm].
    intros [= <-]. right. apply symbol_of_marker.
Qed.

Lemma cells_hold_marks_witness :
  exists fld, play_field drawn_game = Some fld /\ marks_only fld.
Proof.
  apply (cells_hold_marks false drawn_game).
  apply moves_reachable, reach_start.
Defined.

Lemma count_of_insert m line : forall j old v,
  line !! j = Some old ->
  count_of m (<[j := v]> line) + (if String.eqb old m then 1 else 0)
  = count_of m line + (if String.eqb v m then 1 else 0).
Proof.
  induction line as [|s line IH]; intros j old v Hj; [discriminate|].
  destruct j as [|j]; simpl in *.
  - injection Hj as ->. destruct (String.eqb old m), (String.eqb v m); lia.
  - specialize (IH j old v Hj). destruct (String.eqb s m); lia.
Qed.

Lemma count_cells_insert m fld : forall i line line',
  fld !! i = Some line ->
  count_cells m (<[i := line']> fld) + count_of m line
  = count_cells m fld + count_of m line'.
Proof.
  induction fld as [|l fld IH]; intros i line line' Hi; [discriminate|].
  destruct i as [|i]; simpl in *.
  - injection Hi as ->. lia.
  - specialize (IH i line line' Hi). lia.
Qed.

Lemma count_cells_place m fld i j line old v :
  fld !! i = Some line -> line !! j = Some old ->
  count_cells m (<[i := <[j := v]> line]> fld) + (if String.eqb old m then 1 else 0)
  = count_cells m fld + (if String.eqb v m then 1 else 0).
Proof.
  intros Hi Hj.
  pose proof (count_cells_insert m fld i line (<[j := v]> line) Hi).
  pose proof (count_of_insert m line j old v Hj). lia.
Qed.

(** What a call of [setCell] on a free cell does to the play-field. *)
Lemma strict_placement n w rows fld x y :
  size (model w) = Z.of_nat n -> owns w rows fld -> square n fld ->
  targets_empty w x y ->
  exists i j r line won,
    fld !! i = Some line /\ line !! j = Some " " /\
    let v := symbol_of (active_player (model w)) in
    let fld' := <[i := <[j := v]> line]> fld in
    let w' := notified (with_model
                (settle won (TTTModelScale.isFullField_on fld') (model w))
                (with_rows (<[r := <[j := v]> line]> (row_store w)) w)) in
    (won = true <-> winning_line n fld')
    /\ TTTModelScale.setCell x y w = (Ok tt, w')
    /\ owns w' rows fld' /\ square n fld'.
Proof.
  intros Hsz Hown Hsq Hte.
  destruct (targets_empty_cell n w rows fld x y Hown Hsq Hte) as (i & j & Hx & Hy & Hc).
  destruct (setCell_ok n w rows fld x y i j Hsz Hown Hsq Hx Hy)
    as (r & line & won & Hr & Hline & Hrest).
  exists i, j, r, line, won. split; [exact Hline|].
  unfold cell in Hc. rewrite Hline in Hc. split; [exact Hc|].
  exact Hrest.
Qed.

(** X5.  In a game played on free cells, a call of [setCell] on a cell that
    holds a space returns, leaves one space fewer on the play-field and one
    more symbol of the player who was active, and every cross and zero that
    was on the field is still where it was. *)
Theorem placement_on_free_cell w x y :
  reachable true w ->
  targets_empty w x y ->
  exists fld fld' w',
    play_field w = Some fld
    /\ TTTModelScale.setCell x y w = (Ok tt, w')
    /\ play_field w' = Some fld'
    /\ count_cells " " fld' + 1 = count_cells " " fld
    /\ count_cells (symbol_of (active_player (model w))) fld'
       = count_cells (symbol_of (active_player (model w))) fld + 1
    /\ (forall r c m, marker m -> cell fld r c = Some m -> cell fld' r c = Some m).
Proof.
  intros Hw Hte.
  destruct (reachable_invariant _ _ Hw) as (n & Hsz & rows & fld & Hown & Hsq & _).
  destruct (strict_placement n w rows fld x y Hsz Hown Hsq Hte)
    as (i & j & r0 & line & won & Hline & Hj & _ & Hset & Hown' & _).
  cbv zeta in *. set (v := symbol_of (active_player (model w))) in *.
  eexists fld, _, _. split; [eapply play_field_owns; eauto|].
  split; [exact Hset|]. split; [eapply play_field_owns; exact Hown'|].
  pose proof (count_cells_place " " fld i j line " " v Hline Hj) as Hs.
  pose proof (count_cells_place v fld i j line " " v Hline Hj) as Hv.
  assert (String.eqb v " " = false) as Hvs
    by (apply String.eqb_neq, symbol_of_not_space).
  assert (String.eqb " " v = false) as Hsv
    by (apply String.eqb_neq; intros E; symmetry in E; revert E; apply symbol_of_not_space).
  rewrite String.eqb_refl, Hvs in Hs. rewrite String.eqb_refl, Hsv in Hv.
  split; [lia|]. split; [lia|].
  intros r c m Hm Hc.
  rewrite (cell_place fld i j line v r c Hline) by (eapply lookup_lt_Some; eauto).
  destruct (decide (r = i /\ c = j)) as [[-> ->]|]; [|exact Hc].
  unfold cell in Hc. rewrite Hline, Hj in Hc.
  destruct Hm as [-> | ->]; discriminate.
Qed.

Lemma placement_on_free_cell_witness :
  exists fld fld' w',
    play_field (start 3 []) = Some fld
    /\ TTTModelScale.setCell (-1) 2 (start 3 []) = (Ok tt, w')
    /\ play_field w' = Some fld'
    /\ count_cells " " fld' + 1 = count_cells " " fld
    /\ count_cells (symbol_of (active_player (model (start 3 [])))) fld'
       = count_cells (symbol_of (active_player (model (start 3 [])))) fld + 1
    /\ (forall r c m, marker m -> cell fld r c = Some m -> cell fld' r c = Some m).
Proof.
  apply (placement_on_free_cell (start 3 []) (-1) 2).
  - apply reach_start.
  - vm_compute. reflexivity.
Defined.

(** X6.  The model does not check the size.  With a size of zero or less
    [startPlay] makes a play-field with no row; on it [isFullField] answers
    [True], [checkWinner] answers [True] exactly when the size is 0 (all
    four diagonal counters are 0), and every call of [setCell] raises
    [IndexError] and changes nothing. *)
Theorem field_without_rows w z x y :
  (z <= 0)%Z ->
  play_field (exec TTTModelScale.startPlay (exec (TTTModelScale.size_setter z) w)) = Some []
  /\ TTTModelScale.checkWinner
       (exec TTTModelScale.startPlay (exec (TTTModelScale.size_setter z) w))
     = (Ok (z =? 0)%Z, exec TTTModelScale.startPlay (exec (TTTModelScale.size_setter z) w))
  /\ TTTModelScale.isFullField
       (exec TTTModelScale.startPlay (exec (TTTModelScale.size_setter z) w))
     = (Ok true, exec TTTModelScale.startPlay (exec (TTTModelScale.size_setter z) w))
  /\ TTTModelScale.setCell x y
       (exec TTTModelScale.startPlay (exec (TTTModelScale.size_setter z) w))
     = (Raise IndexError,
        exec TTTModelScale.startPlay (exec (TTTModelScale.size_setter z) w)).
Proof.
  intros Hz.
  set (w0 := exec (TTTModelScale.size_setter z) w).
  pose proof (startPlay_owns w0) as Hown.
  assert (Z.to_nat (size (model w0)) = 0) as Hn by (simpl; lia).
  rewrite Hn in Hown. simpl in Hown.
  assert (size (model (exec TTTModelScale.startPlay w0)) = z) as Hsz
    by (unfold exec; now rewrite startPlay_spec).
  set (w' := exec TTTModelScale.startPlay w0) in *.
  split; [eapply play_field_owns; eauto|]. split; [|split].
  - unfold TTTModelScale.checkWinner, bind, self.
    rewrite (load_field_owns _ _ _ Hown). unfold lift. rewrite Hsz.
    unfold TTTModelScale.checkWinner_on, range.
    replace (Z.to_nat z) with 0 by lia. simpl.
    now destruct (z =? 0)%Z.
  - now rewrite (isFullField_owns _ _ _ Hown).
  - rewrite setCell_unfold. unfold bind.
    rewrite (store_cell_raises w' [] []); [reflexivity | exact Hown |].
    left. simpl. apply py_index_None. lia.
Qed.

Lemma field_without_rows_witness :
  play_field (exec TTTModelScale.startPlay
                (exec (TTTModelScale.size_setter 0) TTTModelScale.new)) = Some []
  /\ TTTModelScale.checkWinner
       (exec TTTModelScale.startPlay (exec (TTTModelScale.size_setter 0) TTTModelScale.new))
     = (Ok (0 =? 0)%Z,
        exec TTTModelScale.startPlay (exec (TTTModelScale.size_setter 0) TTTModelScale.new))
  /\ TTTModelScale.isFullField
       (exec TTTModelScale.startPlay (exec (TTTModelScale.size_setter 0) TTTModelScale.new))
     = (Ok true,
        exec TTTModelScale.startPlay (exec (TTTModelScale.size_setter 0) TTTModelScale.new))
  /\ TTTModelScale.setCell 0 0
       (exec TTTModelScale.startPlay (exec (TTTModelScale.size_setter 0) TTTModelScale.new))
     = (Raise IndexError,
        exec TTTModelScale.startPlay (exec (TTTModelScale.size_setter 0) TTTModelScale.new)).
Proof.
  apply (field_without_rows TTTModelScale.new 0 0 0). lia.
Defined.

(** * More of the view *)

(** ** [int] reads what [str] writes *)

Lemma digits_after d : forall p,
  TTTView.digits (NilEmpty.string_of_uint d) (Zpos p) true
  = Ok (Zpos (Pos.of_uint_acc d p)).
Proof.
  induction d; intros p; simpl; try reflexivity;
    match goal with
    | |- TTTView.digits _ ?a true = Ok (Zpos (Pos.of_uint_acc _ ?q)) =>
        replace a with (Zpos q) by lia; apply IHd
    end.
Qed.

Lemma digits_from_zero d : forall b,
  d <> Nil \/ b = true ->
  TTTView.digits (NilEmpty.string_of_uint d) 0 b = Ok (Z.of_N (Pos.of_uint d)).
Proof.
  induction d; intros b Hb; simpl.
  - destruct Hb as [Hb | ->]; [contradiction | reflexivity].
  - apply IHd. now right.
  - apply (digits_after d 1).
  - apply (digits_after d 2).
  - apply (digits_after d 3).
  - apply (digits_after d 4).
  - apply (digits_after d 5).
  - apply (digits_after d 6).
  - apply (digits_after d 7).
  - apply (digits_after d 8).
  - apply (digits_after d 9).
Qed.

Lemma rskip_digits d :
  TTTView.rskip (NilEmpty.string_of_uint d) = NilEmpty.string_of_uint d.
Proof.
  induction d; simpl; try reflexivity; rewrite IHd;
    destruct (NilEmpty.string_of_uint d); reflexivity.
Qed.

Lemma to_uint_digits p :
  NilZero.string_of_uint (Pos.to_uint p) = NilEmpty.string_of_uint (Pos.to_uint p)
  /\ exists c rest, NilEmpty.string_of_uint (Pos.to_uint p) = String c rest
                    /\ TTTView.is_blank c = false /\ TTTView.is_space c = false
                    /\ c <> "+"%char /\ c <> "-"%char /\ c <> " "%char.
Proof.
  pose proof (DecimalPos.Unsigned.to_uint_nonnil p) as Hnn.
  destruct (Pos.to_uint p); [contradiction| ..]; (split; [reflexivity|]);
    simpl; eexists _, _; (split; [reflexivity|]); repeat split; discriminate.
Qed.

Lemma int_of_digits p :
  TTTView.int (NilEmpty.string_of_uint (Pos.to_uint p)) = Ok (Zpos p).
Proof.
  destruct (to_uint_digits p) as (_ & c & rest & Hs & Hb & _ & Hplus & Hminus & _).
  pose proof (digits_from_zero (Pos.to_uint p) false
                (or_introl (DecimalPos.Unsigned.to_uint_nonnil p))) as Hd.
  rewrite DecimalPos.Unsigned.of_to in Hd. simpl in Hd.
  pose proof (rskip_digits (Pos.to_uint p)) as Hr.
  unfold TTTView.int. rewrite Hs in *. simpl TTTView.lskip. rewrite Hb, Hr.
  destruct c as [[|] [|] [|] [|] [|] [|] [|] [|]]; try exact Hd; contradiction.
Qed.

Lemma int_str z : TTTView.int (TTTViewConsole.str z) = Ok z.
Proof.
  unfold TTTViewConsole.str. destruct z as [|p|p]; simpl.
  - reflexivity.
  - destruct (to_uint_digits p) as [-> _]. apply int_of_digits.
  - destruct (to_uint_digits p) as (-> & c & rest & Hs & Hb & _).
    pose proof (digits_from_zero (Pos.to_uint p) false
                  (or_introl (DecimalPos.Unsigned.to_uint_nonnil p))) as Hd.
    rewrite DecimalPos.Unsigned.of_to in Hd. simpl in Hd.
    pose proof (rskip_digits (Pos.to_uint p)) as Hr.
    unfold TTTView.int. simpl TTTView.lskip.
    change (TTTView.rskip (String "-" (NilEmpty.string_of_uint (Pos.to_uint p))))
      with (match TTTView.rskip (NilEmpty.string_of_uint (Pos.to_uint p)) with
            | EmptyString => String "-" EmptyString
            | kept => String "-" kept
            end).
    rewrite Hr, Hs. rewrite Hs in Hd.
    change (res_bind (TTTView.digits (String c rest) 0 false) (fun v => Ok (- v)%Z)
            = Ok (Z.neg p)).
    rewrite Hd. reflexivity.
Qed.

(** ** Stripping and squeezing a line *)

Local Open Scope string_scope.

Lemma append_nil_r s : s ++ "" = s.
Proof. induction s; simpl; congruence. Qed.

Lemma append_assoc s t u : (s ++ t) ++ u = s ++ (t ++ u).
Proof. induction s; simpl; congruence. Qed.

Lemma append_length s t : String.length (s ++ t) = (String.length s + String.length t)%nat.
Proof. induction s; simpl; congruence. Qed.

Lemma spaces_length k : String.length (spaces k) = k.
Proof. induction k; simpl; congruence. Qed.

Lemma lstrip_spaces k s : TTTView.lstrip (spaces k ++ s) = TTTView.lstrip s.
Proof. induction k; simpl; auto. Qed.

Lemma rstrip_spaces k : TTTView.rstrip (spaces k) = "".
Proof. induction k; simpl; [reflexivity|]. now rewrite IHk. Qed.

Lemma rstrip_app_blank s t : TTTView.rstrip t = "" -> TTTView.rstrip (s ++ t) = TTTView.rstrip s.
Proof. intros Ht. induction s; simpl; [exact Ht | now rewrite IHs]. Qed.

Lemma rstrip_app_kept s t :
  TTTView.rstrip t = t -> t <> "" -> TTTView.rstrip (s ++ t) = s ++ t.
Proof.
  intros Ht Hne. induction s as [|c s IH]; simpl; [exact Ht|].
  rewrite IH. destruct (s ++ t) eqn:E; [|reflexivity].
  destruct s; simpl in E; [contradiction | discriminate].
Qed.

Lemma rstrip_digits d :
  TTTView.rstrip (NilEmpty.string_of_uint d) = NilEmpty.string_of_uint d.
Proof.
  induction d; simpl; try reflexivity; rewrite IHd;
    destruct (NilEmpty.string_of_uint d); reflexivity.
Qed.

Lemma count_space_digits d : TTTView.count_space (NilEmpty.string_of_uint d) = 0%Z.
Proof. induction d; simpl; auto. Qed.

(** What the view's string functions see of a number written by [str]. *)
Lemma str_shape z :
  TTTView.rstrip (TTTViewConsole.str z) = TTTViewConsole.str z
  /\ TTTView.count_space (TTTViewConsole.str z) = 0%Z
  /\ exists c rest, TTTViewConsole.str z = String c rest
                    /\ TTTView.is_space c = false /\ c <> " "%char.
Proof.
  unfold TTTViewConsole.str. destruct z as [|p|p]; simpl.
  - split; [reflexivity|]. split; [reflexivity|].
    eexists _, _. split; [reflexivity|]. split; [reflexivity | discriminate].
  - destruct (to_uint_digits p) as (-> & c & rest & Hs & _ & Hsp & _ & _ & Hne).
    split; [apply rstrip_digits|]. split; [apply count_space_digits|]. eauto.
  - destruct (to_uint_digits p) as (-> & c & rest & Hs & _).
    split; [|split].
    + rewrite rstrip_digits, Hs. reflexivity.
    + apply count_space_digits.
    + eexists _, _. split; [reflexivity|]. split; [reflexivity | discriminate].
Qed.

Lemma replace_cons_other a s :
  a <> " "%char ->
  TTTView.replace_double_space (String a s) = String a (TTTView.replace_double_space s).
Proof.
  intros Ha. destruct s as [|b s]; [reflexivity|].
  change (TTTView.replace_double_space (String a (String b s)))
    with (if Ascii.eqb a " " && Ascii.eqb b " "
          then String " "%char (TTTView.replace_double_space s)
          else String a (TTTView.replace_double_space (String b s))).
  now rewrite (proj2 (Ascii.eqb_neq a " ") Ha).
Qed.

Lemma count_space_zero_cons a s :
  TTTView.count_space (String a s) = 0%Z ->
  a <> " "%char /\ TTTView.count_space s = 0%Z.
Proof.
  assert (forall t, (0 <= TTTView.count_space t)%Z) as Hnn.
  { induction t as [|c t IH]; simpl; [lia|]. destruct (Ascii.eqb c " "); lia. }
  simpl. destruct (Ascii.eqb_spec a " ") as [->|Hne]; intros H.
  - specialize (Hnn s). lia.
  - auto.
Qed.

Lemma replace_words s t :
  TTTView.count_space s = 0%Z ->
  TTTView.replace_double_space (s ++ t) = s ++ TTTView.replace_double_space t.
Proof.
  induction s as [|a s IH]; intros Hs; [reflexivity|].
  apply count_space_zero_cons in Hs as [Ha Hs].
  change (String a s ++ t) with (String a (s ++ t)).
  rewrite replace_cons_other by assumption. now rewrite IH.
Qed.

Lemma replace_word s :
  TTTView.count_space s = 0%Z -> TTTView.replace_double_space s = s.
Proof.
  intros Hs. pose proof (replace_words s "" Hs) as H.
  simpl in H. now rewrite !append_nil_r in H.
Qed.

Lemma replace_unfold a b s :
  TTTView.replace_double_space (String a (String b s))
  = if Ascii.eqb a " " && Ascii.eqb b " "
    then String " "%char (TTTView.replace_double_space s)
    else String a (TTTView.replace_double_space (String b s)).
Proof. reflexivity. Qed.

Lemma replace_spaces_even k c u :
  c <> " "%char ->
  TTTView.replace_double_space (spaces (2 * k) ++ String c u)
  = spaces k ++ TTTView.replace_double_space (String c u).
Proof.
  intros Hc. induction k as [|k IH]; [reflexivity|].
  replace (2 * S k)%nat with (S (S (2 * k))) by lia.
  change (TTTView.replace_double_space
            (String " " (String " " (spaces (2 * k) ++ String c u)))
          = String " " (spaces k ++ TTTView.replace_double_space (String c u))).
  rewrite replace_unfold. simpl andb. cbv iota. now rewrite IH.
Qed.

Lemma replace_spaces_odd k c u :
  c <> " "%char ->
  TTTView.replace_double_space (spaces (S (2 * k)) ++ String c u)
  = spaces (S k) ++ TTTView.replace_double_space (String c u).
Proof.
  intros Hc. induction k as [|k IH].
  - change (TTTView.replace_double_space (String " " (String c u))
            = String " " (TTTView.replace_double_space (String c u))).
    rewrite replace_unfold. now rewrite (proj2 (Ascii.eqb_neq c " ") Hc), andb_false_r.
  - replace (S (2 * S k)) with (S (S (S (2 * k)))) by lia.
    change (TTTView.replace_double_space
              (String " " (String " " (spaces (S (2 * k)) ++ String c u)))
            = String " " (spaces (S k) ++ TTTView.replace_double_space (String c u))).
    rewrite replace_unfold. simpl andb. cbv iota. now rewrite IH.
Qed.

(** One pass over [k] spaces between two words leaves half of them,
    rounded up. *)
Lemma replace_between s k u :
  TTTView.count_space s = 0%Z -> TTTView.count_space u = 0%Z -> u <> "" ->
  TTTView.replace_double_space (s ++ spaces k ++ u)
  = s ++ spaces (Nat.div2 (S k)) ++ u.
Proof.
  intros Hs Hu Hne. rewrite replace_words by assumption. f_equal.
  destruct u as [|c u]; [contradiction|].
  apply count_space_zero_cons in Hu as Hc. destruct Hc as [Hc _].
  destruct (Nat.Even_or_Odd k) as [[j ->] | [j ->]].
  - rewrite Nat.div2_succ_double, replace_spaces_even by assumption.
    now rewrite (replace_word (String c u) Hu).
  - replace (2 * j + 1)%nat with (S (2 * j)) by lia.
    rewrite replace_spaces_odd by assumption.
    rewrite (replace_word (String c u) Hu).
    change (Nat.div2 (S (S (2 * j)))) with (S (Nat.div2 (2 * j))).
    now rewrite Nat.div2_double.
Qed.

Lemma squeeze_unfold turns line :
  TTTView.squeeze turns line
  = if String.eqb (TTTView.replace_double_space line) line
    then TTTView.replace_double_space line
    else match turns with
         | O => TTTView.replace_double_space line
         | S turns' => TTTView.squeeze turns' (TTTView.replace_double_space line)
         end.
Proof. destruct turns; reflexivity. Qed.

Lemma squeeze_between turns : forall b s u,
  TTTView.count_space s = 0%Z -> TTTView.count_space u = 0%Z -> u <> "" ->
  (b <= turns)%nat ->
  TTTView.squeeze turns (s ++ spaces (S b) ++ u) = s ++ " " ++ u.
Proof.
  induction turns as [|turns IH]; intros b s u Hs Hu Hne Hb;
    rewrite squeeze_unfold, (replace_between s (S b) u Hs Hu Hne).
  - replace b with 0%nat by lia. simpl Nat.div2.
    now rewrite String.eqb_refl.
  - destruct b as [|b].
    + simpl Nat.div2. now rewrite String.eqb_refl.
    + change (Nat.div2 (S (S (S b)))) with (S (Nat.div2 (S b))).
      pose proof (Nat.lt_div2 (S b) ltac:(lia)) as Hlt.
      destruct (String.eqb_spec (s ++ spaces (S (Nat.div2 (S b))) ++ u)
                                (s ++ spaces (S (S b)) ++ u)) as [E|_].
      * apply (f_equal String.length) in E.
        rewrite !append_length, !spaces_length in E. lia.
      * apply IH; auto. lia.
Qed.

Lemma count_space_app s t :
  TTTView.count_space (s ++ t) = (TTTView.count_space s + TTTView.count_space t)%Z.
Proof.
  induction s as [|a s IH]; simpl; [reflexivity|].
  destruct (Ascii.eqb a " "); lia.
Qed.

Lemma split_space_word u : TTTView.count_space u = 0%Z -> TTTView.split_space u = [u].
Proof.
  induction u as [|a u IH]; intros Hu; [reflexivity|].
  apply count_space_zero_cons in Hu as [Ha Hu]. simpl.
  now rewrite (proj2 (Ascii.eqb_neq a " ") Ha), IH.
Qed.

Lemma split_space_app s t :
  TTTView.count_space s = 0%Z ->
  TTTView.split_space (s ++ String " " t) = s :: TTTView.split_space t.
Proof.
  induction s as [|a s IH]; intros Hs; [reflexivity|].
  apply count_space_zero_cons in Hs as [Ha Hs]. simpl.
  now rewrite (proj2 (Ascii.eqb_neq a " ") Ha), IH.
Qed.

Lemma strip_typed a x b y c :
  TTTView.strip (typed a x b y c)
  = TTTViewConsole.str x ++ spaces (S b) ++ TTTViewConsole.str y.
Proof.
  unfold TTTView.strip, typed. rewrite lstrip_spaces.
  destruct (str_shape x) as (_ & _ & cx & rx & Hx & Hsx & _).
  destruct (str_shape y) as (Hry & _ & cy & ry & Hy & _).
  assert (TTTView.lstrip (TTTViewConsole.str x ++ spaces (S b)
                            ++ TTTViewConsole.str y ++ spaces c)
          = TTTViewConsole.str x ++ spaces (S b) ++ TTTViewConsole.str y ++ spaces c) as ->.
  { rewrite Hx. simpl. now rewrite Hsx. }
  rewrite <- (append_assoc (spaces (S b))), <- append_assoc.
  rewrite rstrip_app_blank by apply rstrip_spaces.
  rewrite <- append_assoc. rewrite rstrip_app_kept; [| exact Hry | rewrite Hy; discriminate].
  now rewrite append_assoc.
Qed.

(** However many spaces are typed before, between and after the two
    numbers, the view parses the line written with one space. *)
Lemma normalized_typed a x b y c :
  normalized (typed a x b y c) = TTTViewConsole.str x ++ " " ++ TTTViewConsole.str y.
Proof.
  unfold normalized. rewrite strip_typed.
  destruct (str_shape x) as (_ & Hcx & _).
  destruct (str_shape y) as (_ & Hcy & cy & ry & Hy & _).
  apply squeeze_between; auto.
  - rewrite Hy. discriminate.
  - rewrite !append_length, spaces_length. lia.
Qed.

Lemma typed_not_empty a x b y c : String.eqb (typed a x b y c) "" = false.
Proof.
  apply String.eqb_neq. intros E. apply (f_equal String.length) in E.
  unfold typed in E. rewrite !append_length, !spaces_length in E. simpl in E. lia.
Qed.

(** The body of the [try] on a typed line, up to the test of the cell. *)
Lemma try_line_typed sz fld a x b y c w :
  TTTView.try_line sz fld (typed a x b y c) w
  = if (sz <? x)%Z || (sz <? y)%Z then (Ok (TTTView.Again TTTView.NotGreaterThanSize), w)
    else bind (load_cell fld (x - 1) (y - 1))
           (fun cl => if negb (String.eqb cl " ")
                      then ret (TTTView.Again TTTView.CellMustBeEmpty)
                      else ret (TTTView.Move x y)) w.
Proof.
  unfold TTTView.try_line. rewrite typed_not_empty. cbv zeta.
  fold (normalized (typed a x b y c)). rewrite normalized_typed.
  destruct (str_shape x) as (_ & Hcx & _).
  destruct (str_shape y) as (_ & Hcy & _).
  change (" " ++ TTTViewConsole.str y) with (String " " (TTTViewConsole.str y)).
  assert (TTTView.count_space (TTTViewConsole.str x ++ String " " (TTTViewConsole.str y)) = 1%Z)
    as -> by (rewrite count_space_app; simpl; lia).
  rewrite split_space_app, split_space_word by assumption.
  change (1 <? 1)%Z with false. cbv iota.
  unfold bind at 1. unfold lift at 1. unfold TTTView.unpack_pair. cbv beta iota.
  unfold bind at 1. unfold lift at 1. cbn [fst]. rewrite int_str. cbv beta iota.
  unfold bind at 1. unfold lift at 1. cbn [snd]. rewrite int_str. cbv beta iota.
  destruct ((sz <? x)%Z || (sz <? y)%Z); reflexivity.
Qed.

(** ** What the view makes of a line *)

Lemma replace_fixed_single_spaced s :
  TTTView.replace_double_space s = s -> single_spaced s = true.
Proof.
  induction s as [|a s IH]; [reflexivity|].
  destruct s as [|b s]; [reflexivity|].
  rewrite replace_unfold.
  change (single_spaced (String a (String b s)))
    with (if Ascii.eqb a " " && Ascii.eqb b " " then false
          else single_spaced (String b s)).
  destruct (Ascii.eqb a " " && Ascii.eqb b " ").
  - intros E. apply (f_equal String.length) in E. simpl in E.
    destruct (replace_double_space_length s) as [[Hle _] _]. lia.
  - intros [= E]. now apply IH.
Qed.

Lemma strip_length s : (String.length (TTTView.strip s) <= String.length s)%nat.
Proof.
  unfold TTTView.strip.
  assert (forall t, (String.length (TTTView.rstrip t) <= String.length t)%nat) as Hr.
  { induction t as [|c t IH]; simpl; [lia|].
    destruct (TTTView.rstrip t); [destruct (TTTView.is_space c)|]; simpl in *; lia. }
  assert (forall t, (String.length (TTTView.lstrip t) <= String.length t)%nat) as Hl.
  { induction t as [|c t IH]; simpl; [lia|].
    destruct (TTTView.is_space c); simpl; lia. }
  specialize (Hr (TTTView.lstrip s)). specialize (Hl s). lia.
Qed.

Lemma squeeze_length turns : forall s,
  (String.length (TTTView.squeeze turns s) <= String.length s)%nat.
Proof.
  induction turns as [|turns IH]; intros s; rewrite squeeze_unfold;
    destruct (replace_double_space_length s) as [[Hle _] _];
    destruct (String.eqb _ s); try lia.
  specialize (IH (TTTView.replace_double_space s)). lia.
Qed.

(** X7.  Whatever the line, the loop that replaces the double spaces ends
    with a line that has no two spaces side by side and is not longer than
    the line typed: the number of turns the loop is given, the length of
    the stripped line, is enough. *)
Theorem normalized_single_spaced line :
  single_spaced (normalized line) = true
  /\ TTTView.replace_double_space (normalized line) = normalized line
  /\ (String.length (normalized line) <= String.length line)%nat.
Proof.
  unfold normalized.
  pose proof (squeeze_fixpoint (String.length (TTTView.strip line)) (TTTView.strip line)
                (Nat.le_refl _)) as Hfix.
  split; [now apply replace_fixed_single_spaced|]. split; [exact Hfix|].
  pose proof (squeeze_length (String.length (TTTView.strip line)) (TTTView.strip line)).
  pose proof (strip_length line). lia.
Qed.

(** X8.  Whatever integers x and y of 4300 digits at most a player means,
    and however many spaces are typed before, between (one at least) and
    after the two numbers in decimal, the steps of the view (strip, the
    loop on the double spaces, count, split, unpack) leave the two numerals
    with one space between them, and [int] makes of them the numbers x and
    y. *)
Theorem typed_line_is_two_numbers a x b y c :
  short_number x -> short_number y ->
  normalized (typed a x b y c) = TTTViewConsole.str x ++ " " ++ TTTViewConsole.str y
  /\ TTTView.count_space (normalized (typed a x b y c)) = 1%Z
  /\ TTTView.unpack_pair (TTTView.split_space (normalized (typed a x b y c)))
     = Ok (TTTViewConsole.str x, TTTViewConsole.str y)
  /\ TTTView.int (TTTViewConsole.str x) = Ok x
  /\ TTTView.int (TTTViewConsole.str y) = Ok y.
Proof.
  intros _ _. rewrite normalized_typed.
  destruct (str_shape x) as (_ & Hcx & _).
  destruct (str_shape y) as (_ & Hcy & _).
  change (" " ++ TTTViewConsole.str y) with (String " " (TTTViewConsole.str y)).
  split; [reflexivity|]. split; [rewrite count_space_app; simpl; lia|].
  rewrite split_space_app, split_space_word by assumption.
  split; [reflexivity|]. split; apply int_str.
Qed.

Lemma typed_line_is_two_numbers_witness :
  normalized (typed 2 12 3 (-7) 1) = TTTViewConsole.str 12 ++ " " ++ TTTViewConsole.str (-7)
  /\ TTTView.count_space (normalized (typed 2 12 3 (-7) 1)) = 1%Z
  /\ TTTView.unpack_pair (TTTView.split_space (normalized (typed 2 12 3 (-7) 1)))
     = Ok (TTTViewConsole.str 12, TTTViewConsole.str (-7))
  /\ TTTView.int (TTTViewConsole.str 12) = Ok 12%Z
  /\ TTTView.int (TTTViewConsole.str (-7)) = Ok (-7)%Z.
Proof.
  apply (typed_line_is_two_numbers 2 12 3 (-7) 1); vm_compute; reflexivity.
Defined.

Lemma guarded_typed sz fld a x b y c w :
  TTTView.guarded sz fld (typed a x b y c) w
  = if (sz <? x)%Z || (sz <? y)%Z then (Ok (TTTView.Again TTTView.NotGreaterThanSize), w)
    else match load_cell fld (x - 1) (y - 1) w with
         | (Ok cl, w') =>
             (Ok (if negb (String.eqb cl " ") then TTTView.Again TTTView.CellMustBeEmpty
                  else TTTView.Move x y), w')
         | (Raise ValueError, w') => (Ok (TTTView.Again (TTTView.Printed ValueError)), w')
         | (Raise e, w') => (Raise e, w')
         end.
Proof.
  unfold TTTView.guarded. rewrite try_line_typed.
  destruct ((sz <? x)%Z || (sz <? y)%Z); [reflexivity|].
  unfold bind. destruct (load_cell fld (x - 1) (y - 1) w) as [[cl|e] w'].
  - destruct (negb (String.eqb cl " ")); reflexivity.
  - destruct e; reflexivity.
Qed.

(** X9.  A line typed for two numbers of 4300 digits at most, one of them
    greater than the size, is refused with the warning about the size, on
    any field and however it is spaced, and the world is left as it was. *)
Theorem line_above_size_refused sz fld a x b y c w :
  short_number x -> short_number y ->
  (sz < x \/ sz < y)%Z ->
  TTTView.guarded sz fld (typed a x b y c) w
  = (Ok (TTTView.Again TTTView.NotGreaterThanSize), w).
Proof.
  intros _ _ H. rewrite guarded_typed.
  destruct (Z.ltb_spec sz x), (Z.ltb_spec sz y); simpl; try reflexivity; lia.
Qed.

Lemma line_above_size_refused_witness :
  TTTView.guarded 3 2 (typed 0 4 0 1 0) (exec TTTModelScale.getData (start 3 [0]))
  = (Ok (TTTView.Again TTTView.NotGreaterThanSize), exec TTTModelScale.getData (start 3 [0])).
Proof.
  apply (line_above_size_refused 3 2 0 4 0 1 0 (exec TTTModelScale.getData (start 3 [0])));
    [vm_compute; reflexivity | vm_compute; reflexivity | lia].
Defined.

Lemma load_cell_owns n w rows fld x y i j v :
  owns w rows fld -> square n fld ->
  py_index n x = Some i -> py_index n y = Some j ->
  cell fld i j = Some v ->
  load_cell (field (model w)) x y w = (Ok v, w).
Proof.
  intros Hown Hsq Hx Hy Hc. pose proof Hown as (Hg & _ & Hrows).
  pose proof (square_lengths n fld rows w Hsq Hrows) as Hlr.
  unfold cell in Hc. destruct (fld !! i) as [line|] eqn:Hline; [|discriminate].
  pose proof (square_row_length n fld i line Hsq Hline) as Hll.
  apply py_index_Some in Hx as Hi. destruct Hi as [Hi _].
  destruct (lookup_lt_is_Some_2 rows i) as [r Hr]; [lia|].
  rewrite Forall2_same_length_lookup in Hrows. destruct Hrows as [_ Hall].
  unfold load_cell, bind, load_grid, lift, load_row, getitem.
  now rewrite Hg, Hlr, Hx, Hr, (Hall i r line Hr Hline), Hll, Hy, Hc.
Qed.

(** X10.  In a started game of size N, a line typed for coordinates x and y
    with [1 <= x <= N] and [1 <= y <= N] is accepted when the cell in row x
    and column y of the play-field holds a space, and refused with the
    warning that the cell must be empty when it holds a mark; either way the
    world is left as it was. *)
Theorem line_in_range_checked strict w n fld a x b y c v s w1 :
  reachable strict w ->
  size (model w) = Z.of_nat n ->
  play_field w = Some fld ->
  (1 <= x <= Z.of_nat n)%Z ->
  (1 <= y <= Z.of_nat n)%Z ->
  cell fld (Z.to_nat (x - 1)) (Z.to_nat (y - 1)) = Some v ->
  TTTModelScale.getData w = (Ok s, w1) ->
  TTTView.guarded (TTTModelScale.snap_size s) (TTTModelScale.snap_field s)
    (typed a x b y c) w1
  = (Ok (if String.eqb v " " then TTTView.Move x y
         else TTTView.Again TTTView.CellMustBeEmpty), w1).
Proof.
  intros Hw Hsz Hpf Hx Hy Hc Hget.
  destruct (reachable_invariant _ _ Hw) as (n' & Hsz' & rows & fld0 & Hown & Hsq & _).
  assert (n' = n) as -> by lia.
  assert (fld0 = fld) as -> by (rewrite (play_field_owns w rows fld0 Hown) in Hpf; congruence).
  pose proof Hown as (Hg & _).
  pose proof (getData_owns w rows fld Hown) as Hown1.
  unfold exec in Hown1. rewrite Hget in Hown1. simpl in Hown1.
  rewrite (getData_spec w rows Hg) in Hget. injection Hget as <- <-.
  set (w1 := mkWorld (model w) (row_store w) (grid_store w ++ [rows]) (log w)) in *.
  rewrite guarded_typed. simpl TTTModelScale.snap_size. simpl TTTModelScale.snap_field.
  rewrite Hsz.
  destruct (Z.ltb_spec (Z.of_nat n) x); [lia|].
  destruct (Z.ltb_spec (Z.of_nat n) y); [lia|]. simpl orb. cbv iota.
  rewrite (load_cell_same_rows _ (field (model w1))).
  - rewrite (load_cell_owns n w1 rows fld (x - 1) (y - 1) _ _ v Hown1 Hsq
               (py_index_front n (x - 1) ltac:(lia)) (py_index_front n (y - 1) ltac:(lia)) Hc).
    destruct (String.eqb v " "); reflexivity.
  - simpl. rewrite lookup_app_r, Nat.sub_diag by lia. simpl.
    symmetry. now apply lookup_app_l_Some.
Qed.

Lemma line_in_range_checked_witness :
  TTTView.guarded
    (TTTModelScale.snap_size (TTTModelScale.mkSnapshot 3 false false player_0 2))
    (TTTModelScale.snap_field (TTTModelScale.mkSnapshot 3 false false player_0 2))
    (typed 1 2 3 2 0)
    (exec TTTModelScale.getData (exec (TTTModelScale.setCell 1 1) (start 3 [0])))
  = (Ok (if String.eqb "X" " " then TTTView.Move 2 2
         else TTTView.Again TTTView.CellMustBeEmpty),
     exec TTTModelScale.getData (exec (TTTModelScale.setCell 1 1) (start 3 [0]))).
Proof.
  apply (line_in_range_checked true (exec (TTTModelScale.setCell 1 1) (start 3 [0])) 3
           [[" "; " "; " "]; [" "; "X"; " "]; [" "; " "; " "]] 1 2 3 2 0 "X").
  - apply reach_setCell; [apply reach_start | intros _; vm_compute; reflexivity].
  - reflexivity.
  - vm_compute. reflexivity.
  - lia.
  - lia.
  - reflexivity.
  - vm_compute. reflexivity.
Defined.

Local Open Scope list_scope.
Local Open Scope nat_scope.

Lemma ask_reads sz fld inputs : forall w, snd (TTTView.ask sz fld inputs w) = w.
Proof.
  induction inputs as [|line rest IH]; intros w; [reflexivity|].
  simpl. unfold bind. pose proof (guarded_reads sz fld line w) as H.
  destruct (TTTView.guarded sz fld line w) as [[[why|x y]|e] w1]; simpl in H; subst w1.
  - apply IH.
  - reflexivity.
  - reflexivity.
Qed.

Lemma ask_first_move sz fld inputs w x y rest w' :
  TTTView.ask sz fld inputs w = (Ok (x, y, rest), w') ->
  w' = w
  /\ exists refused line,
       inputs = refused ++ line :: rest
       /\ TTTView.guarded sz fld line w = (Ok (TTTView.Move x y), w)
       /\ Forall (fun l => exists why,
                    TTTView.guarded sz fld l w = (Ok (TTTView.Again why), w)) refused.
Proof.
  intros H. pose proof (ask_reads sz fld inputs w) as Hw. rewrite H in Hw.
  simpl in Hw. subst w'. split; [reflexivity|].
  revert H. induction inputs as [|line more IH]; [discriminate|].
  simpl. unfold bind. pose proof (guarded_reads sz fld line w) as Hg.
  destruct (TTTView.guarded sz fld line w) as [[[why|x0 y0]|e] w1] eqn:E;
    simpl in Hg; subst w1; [| |discriminate].
  - intros H. destruct (IH H) as (refused & l & -> & Hl & Hall).
    exists (line :: refused), l. split; [reflexivity|]. split; [exact Hl|].
    constructor; [eauto | exact Hall].
  - intros [= <- <- <-]. exists [], line. split; [reflexivity|]. split; [exact E|].
    constructor.
Qed.

(** X11.  The loop that asks for a move changes nothing in the world.  When
    it returns a move, that move comes from the first line of the input that
    passes the check, every line before it was refused with a warning, and
    the lines after it are left unread. *)
Theorem ask_takes_first_accepted sz fld inputs w x y rest w' :
  TTTView.ask sz fld inputs w = (Ok (x, y, rest), w') ->
  w' = w
  /\ exists refused line,
       inputs = refused ++ line :: rest
       /\ TTTView.guarded sz fld line w = (Ok (TTTView.Move x y), w)
       /\ Forall (fun l => exists why,
                    TTTView.guarded sz fld l w = (Ok (TTTView.Again why), w)) refused.
Proof. apply ask_first_move. Qed.

Lemma ask_takes_first_accepted_witness :
  exec TTTModelScale.getData (start 3 [0]) = exec TTTModelScale.getData (start 3 [0])
  /\ exists refused line,
       ["one two"; "1"; "9 9"; "2 3"; "1 1"] = refused ++ line :: ["1 1"]
       /\ TTTView.guarded 3 2 line (exec TTTModelScale.getData (start 3 [0]))
          = (Ok (TTTView.Move 2 3), exec TTTModelScale.getData (start 3 [0]))
       /\ Forall (fun l => exists why,
                    TTTView.guarded 3 2 l (exec TTTModelScale.getData (start 3 [0]))
                    = (Ok (TTTView.Again why), exec TTTModelScale.getData (start 3 [0])))
                 refused.
Proof.
  apply (ask_takes_first_accepted 3 2 ["one two"; "1"; "9 9"; "2 3"; "1 1"]
           (exec TTTModelScale.getData (start 3 [0])) 2 3 ["1 1"]).
  vm_compute. reflexivity.
Defined.

(** X12.  In a started game of size N, a move that the view accepts on the
    snapshot it has just taken keeps the caller's side of the contract of
    the model's [setCell]: the check has changed nothing, each coordinate
    is greater than -N and not greater than N, and the cell that the
    subscripts the view forwards, each coordinate less one, select in the
    model's own play-field holds a space (the rows of the snapshot are the
    rows of the model). *)
Theorem view_forwards_free_cell strict w line s w1 x y w1' :
  reachable strict w ->
  TTTModelScale.getData w = (Ok s, w1) ->
  TTTView.guarded (TTTModelScale.snap_size s) (TTTModelScale.snap_field s) line w1
  = (Ok (TTTView.Move x y), w1') ->
  w1' = w1
  /\ (- size (model w) < x <= size (model w))%Z
  /\ (- size (model w) < y <= size (model w))%Z
  /\ targets_empty w1 (x - 1) (y - 1).
Proof.
  intros Hw Hget Hmove.
  destruct (view_move_keeps_contract strict w line s w1 x y w1' Hw Hget Hmove)
    as (H1 & H2 & H3 & H4 & _ & _).
  destruct (reachable_invariant _ _ Hw) as (n & Hsz & rows & fld & Hown & Hsq & _).
  pose proof (getData_owns w rows fld Hown) as Hown1.
  unfold exec in Hown1. rewrite Hget in Hown1. simpl in Hown1.
  destruct (targets_empty_cell n w1 rows fld _ _ Hown1 Hsq H4) as (i & j & Hi & Hj & _).
  apply py_index_Some in Hi. apply py_index_Some in Hj.
  split; [exact H1|]. split; [lia|]. split; [lia | exact H4].
Qed.

Lemma view_forwards_free_cell_witness :
  exec TTTModelScale.getData (start 3 [0]) = exec TTTModelScale.getData (start 3 [0])
  /\ (- size (model (start 3 [0%nat])) < 0 <= size (model (start 3 [0%nat])))%Z
  /\ (- size (model (start 3 [0%nat])) < 3 <= size (model (start 3 [0%nat])))%Z
  /\ targets_empty (exec TTTModelScale.getData (start 3 [0])) (0 - 1) (3 - 1).
Proof.
  apply (view_forwards_free_cell true (start 3 [0]) "0 3"
           (TTTModelScale.mkSnapshot 3 false false player_X 2)).
  - apply reach_start.
  - vm_compute. reflexivity.
  - vm_compute. reflexivity.
Defined.

Lemma split_space_cons s : exists tok toks, TTTView.split_space s = tok :: toks.
Proof.
  destruct s as [|a s]; simpl; [eauto|].
  destruct (Ascii.eqb a " "); [eauto|].
  destruct (TTTView.split_space s); eauto.
Qed.

Lemma join_space_cons t t' toks :
  join_space (t :: t' :: toks) = (t ++ String " " (join_space (t' :: toks)))%string.
Proof. reflexivity. Qed.

Lemma join_split s : join_space (TTTView.split_space s) = s.
Proof.
  induction s as [|a s IH]; [reflexivity|]. simpl TTTView.split_space.
  destruct (split_space_cons s) as (tok & toks & E). rewrite E in *.
  destruct (Ascii.eqb_spec a " ") as [->|Hne].
  - rewrite join_space_cons, IH. reflexivity.
  - destruct toks as [|t toks].
    + simpl in *. now rewrite IH.
    + rewrite join_space_cons in *.
      change (String a (tok ++ String " " (join_space (t :: toks)))%string = String a s).
      now rewrite IH.
Qed.

Lemma split_tokens s :
  Forall (fun tok => TTTView.count_space tok = 0%Z) (TTTView.split_space s)
  /\ Z.of_nat (length (TTTView.split_space s)) = (TTTView.count_space s + 1)%Z.
Proof.
  induction s as [|a s [IH1 IH2]]; simpl; [split; [repeat constructor | reflexivity]|].
  destruct (split_space_cons s) as (tok & toks & E). rewrite E in *.
  destruct (Ascii.eqb_spec a " ") as [->|Hne].
  - split; [constructor; [reflexivity | exact IH1]|]. simpl length in *. lia.
  - inversion IH1; subst. split; [|simpl length in *; lia].
    constructor; [|assumption]. simpl.
    now rewrite (proj2 (Ascii.eqb_neq a " ") Hne).
Qed.

(** X13.  The unpacking [x, y = line.split(" ")] succeeds exactly on the
    lines made of two parts without a space, set apart by one space, and
    then gives those two parts; on a line with no space, or with two or
    more, it raises [ValueError]. *)
Theorem two_parts_iff line a b :
  (TTTView.unpack_pair (TTTView.split_space line) = Ok (a, b)
   <-> line = (a ++ String " " b)%string
       /\ TTTView.count_space a = 0%Z /\ TTTView.count_space b = 0%Z)
  /\ (TTTView.count_space line <> 1%Z ->
      TTTView.unpack_pair (TTTView.split_space line) = Raise ValueError).
Proof.
  split; [split|].
  - intros H. pose proof (join_split line) as Hj.
    destruct (split_tokens line) as [Hall _].
    destruct (TTTView.split_space line) as [|t1 [|t2 [|t3 toks]]]; try discriminate.
    injection H as -> ->. simpl in Hj.
    inversion Hall as [|? ? Ha Hrest]; subst. inversion Hrest; subst. auto.
  - intros (-> & Ha & Hb). now rewrite split_space_app, split_space_word.
  - intros Hc. destruct (split_tokens line) as [_ Hlen].
    destruct (TTTView.split_space line) as [|t1 [|t2 [|t3 toks]]]; try reflexivity.
    simpl in Hlen. lia.
Qed.

Lemma two_parts_iff_witness :
  (TTTView.unpack_pair (TTTView.split_space "-1 x7") = Ok ("-1", "x7")
   <-> "-1 x7" = ("-1" ++ String " " "x7")%string
       /\ TTTView.count_space "-1" = 0%Z /\ TTTView.count_space "x7" = 0%Z)
  /\ (TTTView.count_space "-1 x7" <> 1%Z ->
      TTTView.unpack_pair (TTTView.split_space "-1 x7") = Raise ValueError).
Proof. exact (two_parts_iff "-1 x7" "-1" "x7"). Defined.

(** * The dialog at the start and the game *)

Lemma digits_raises s : forall acc b e, TTTView.digits s acc b = Raise e -> e = ValueError.
Proof.
  induction s as [|c s IH]; intros acc b e; simpl.
  - destruct b; [discriminate | now intros [= <-]].
  - destruct (TTTView.digit_value c); [apply IH|].
    destruct (Ascii.eqb c "_" && b); [apply IH | now intros [= <-]].
Qed.

Lemma int_raises s e : TTTView.int s = Raise e -> e = ValueError.
Proof.
  unfold TTTView.int.
  destruct (TTTView.rskip (TTTView.lskip s)) as [|c rest]; [apply digits_raises|].
  destruct c as [[|] [|] [|] [|] [|] [|] [|] [|]]; try apply digits_raises.
  unfold res_bind. destruct (TTTView.digits rest 0 false) eqn:E; [discriminate|].
  intros [= <-]. eapply digits_raises; eauto.
Qed.

Lemma queryChangeSize_size inputs :
  match TTTViewConsole.queryChangeSize inputs with
  | Ok (i, rest) =>
      (3 <= i)%Z /\ exists read, inputs = read ++ rest /\ read <> []
  | Raise e => e = EOFError
  end.
Proof.
  induction inputs as [|line more IH]; simpl; [reflexivity|].
  assert (match TTTViewConsole.queryChangeSize more with
          | Ok (i, rest) =>
              (3 <= i)%Z /\ exists read, line :: more = read ++ rest /\ read <> []
          | Raise e => e = EOFError
          end) as IH'.
  { destruct (TTTViewConsole.queryChangeSize more) as [[i rest]|e]; [|exact IH].
    destruct IH as (Hi & read & -> & _). split; [exact Hi|].
    exists (line :: read). split; [reflexivity | discriminate]. }
  destruct (String.eqb line "").
  { split; [lia|]. exists [line]. split; [reflexivity | discriminate]. }
  destruct (TTTView.int line) as [i|e] eqn:E.
  - destruct (Z.ltb_spec i 3); [exact IH'|].
    split; [lia|]. exists [line]. split; [reflexivity | discriminate].
  - apply int_raises in E as ->. exact IH'.
Qed.

(** X14.  Whatever is typed, [queryChangeSize] returns a size of 3 or more
    and has read at least one line; the only way it does not return is the
    end of the input. *)
Theorem queryChangeSize_at_least_3 inputs :
  match TTTViewConsole.queryChangeSize inputs with
  | Ok (i, rest) =>
      (3 <= i)%Z /\ exists read, inputs = read ++ rest /\ read <> []
  | Raise e => e = EOFError
  end.
Proof. apply queryChangeSize_size. Qed.

Lemma in_play_strict w : in_play w -> reachable true w.
Proof.
  induction 1; [apply reach_start | now apply reach_getData |].
  apply reach_setCell; auto.
Qed.

Lemma load_cell_raises g rows fld x y w e w' :
  grid_store w !! g = Some rows ->
  Forall2 (fun (r : loc) line => row_store w !! r = Some line) rows fld ->
  load_cell g x y w = (Raise e, w') -> e = IndexError.
Proof.
  intros Hg Hrows. unfold load_cell, bind, load_grid, lift, load_row, getitem.
  rewrite Hg. destruct (py_index (length rows) x) as [i|]; [|now intros [= <-]].
  destruct (rows !! i) as [r|] eqn:Hr; [|now intros [= <-]].
  rewrite Forall2_same_length_lookup in Hrows. destruct Hrows as [Hlen Hall].
  destruct (lookup_lt_is_Some_2 fld i) as [line Hline];
    [rewrite <- Hlen; eapply lookup_lt_Some; eauto|].
  rewrite (Hall i r line Hr Hline).
  destruct (py_index (length line) y) as [j|]; [|now intros [= <-]].
  destruct (line !! j); [discriminate | now intros [= <-]].
Qed.

Lemma guarded_raises sz g rows fld line w e w' :
  grid_store w !! g = Some rows ->
  Forall2 (fun (r : loc) line => row_store w !! r = Some line) rows fld ->
  TTTView.guarded sz g line w = (Raise e, w') -> e = IndexError.
Proof.
  intros Hg Hrows. unfold TTTView.guarded.
  destruct (TTTView.try_line sz g line w) as [[v|e0] w0] eqn:Ht; [discriminate|].
  assert (e0 = ValueError \/ e0 = IndexError) as He0.
  { revert Ht. unfold TTTView.try_line.
    destruct (String.eqb line ""); [discriminate|]. cbv zeta.
    destruct (1 <? _)%Z; [discriminate|].
    unfold bind, lift.
    destruct (TTTView.unpack_pair _) as [[tx ty]|e1] eqn:Hu.
    2:{ intros [= <- _]. left.
        unfold TTTView.unpack_pair in Hu.
        destruct (TTTView.split_space _) as [|t1 [|t2 [|t3 ts]]]; congruence. }
    simpl.
    destruct (TTTView.int tx) as [x|e1] eqn:Hx;
      [|intros [= <- _]; left; eapply int_raises; eauto].
    destruct (TTTView.int ty) as [y|e1] eqn:Hy;
      [|intros [= <- _]; left; eapply int_raises; eauto].
    destruct ((sz <? x)%Z || (sz <? y)%Z); [discriminate|].
    destruct (load_cell g (x - 1) (y - 1) w) as [[c|e1] w1] eqn:Hc.
    - destruct (negb (String.eqb c " ")); discriminate.
    - intros [= <- _]. right. eapply load_cell_raises; eauto. }
  destruct He0 as [-> | ->]; [discriminate | now intros [= <-]].
Qed.

Lemma ask_raises sz g rows fld inputs w e w' :
  grid_store w !! g = Some rows ->
  Forall2 (fun (r : loc) line => row_store w !! r = Some line) rows fld ->
  TTTView.ask sz g inputs w = (Raise e, w') -> e = EOFError \/ e = IndexError.
Proof.
  intros Hg Hrows. induction inputs as [|line more IH]; simpl.
  - intros [= <-]. now left.
  - unfold bind. pose proof (guarded_reads sz g line w) as Hr.
    destruct (TTTView.guarded sz g line w) as [[[why|x y]|e0] w1] eqn:E;
      simpl in Hr; subst w1.
    + exact IH.
    + discriminate.
    + intros [= <- _]. right. eapply guarded_raises; eauto.
Qed.

Lemma ask_shortens sz g inputs w x y rest w' :
  TTTView.ask sz g inputs w = (Ok (x, y, rest), w') -> length rest < length inputs.
Proof.
  intros H. destruct (ask_first_move sz g inputs w x y rest w' H)
    as (_ & refused & line & -> & _).
  rewrite length_app. simpl. lia.
Qed.

(** One turn of the game from a world in play: the game is over and the
    view returns, or asking for a move fails, or a move is made on a free
    cell and the next turn starts from there. *)
Lemma round_cases turns inputs w :
  in_play w ->
  (status_of (model w) <> InProgress
   /\ Program.rounds (S turns) inputs w = (Ok inputs, exec TTTModelScale.getData w))
  \/ (status_of (model w) = InProgress
      /\ exists e, (e = EOFError \/ e = IndexError)
                   /\ Program.rounds (S turns) inputs w
                      = (Raise e, exec TTTModelScale.getData w))
  \/ (status_of (model w) = InProgress
      /\ exists x y rest,
           length rest < length inputs
           /\ targets_empty (exec TTTModelScale.getData w) x y
           /\ fst (TTTModelScale.setCell x y (exec TTTModelScale.getData w)) = Ok tt
           /\ Program.rounds (S turns) inputs w
              = Program.rounds turns rest
                  (exec (TTTModelScale.setCell x y) (exec TTTModelScale.getData w))).
Proof.
  intros Hp. pose proof (in_play_strict w Hp) as Hw.
  destruct (reachable_invariant _ _ Hw) as (n & Hsz & rows & fld & Hown & Hsq & _).
  pose proof Hown as (Hg & _ & Hrows).
  pose proof (getData_spec w rows Hg) as Hget.
  set (s := TTTModelScale.mkSnapshot (size (model w)) (flag_end (model w))
              (flag_draw (model w)) (active_player (model w)) (length (grid_store w))) in *.
  assert (exec TTTModelScale.getData w
          = mkWorld (model w) (row_store w) (grid_store w ++ [rows]) (log w)) as Hw1
    by (unfold exec; now rewrite Hget).
  rewrite <- Hw1 in Hget. set (w1 := exec TTTModelScale.getData w) in *.
  assert (Program.rounds (S turns) inputs w
          = (if flag_end (model w) then ret inputs
             else if flag_draw (model w) then ret inputs
             else bind (TTTView.ask (size (model w)) (length (grid_store w)) inputs)
                    (fun m => bind (TTTController.setCell (fst (fst m) - 1) (snd (fst m) - 1))
                                (fun _ => Program.rounds turns (snd m)))) w1) as Hstep.
  { unfold Program.rounds; fold Program.rounds. unfold bind at 1. now rewrite Hget. }
  rewrite Hstep. clear Hstep. unfold status_of.
  destruct (flag_end (model w)); [left; split; [discriminate | reflexivity]|].
  destruct (flag_draw (model w)); [left; split; [discriminate | reflexivity]|].
  right.
  assert (grid_store w1 !! length (grid_store w) = Some rows) as Hgs.
  { rewrite Hw1. simpl. now rewrite lookup_app_r, Nat.sub_diag by lia. }
  assert (Forall2 (fun (r : loc) line => row_store w1 !! r = Some line) rows fld) as Hrows1
    by (rewrite Hw1; exact Hrows).
  pose proof (ask_reads (size (model w)) (length (grid_store w)) inputs w1) as Hreads.
  unfold bind at 1 3.
  destruct (TTTView.ask (size (model w)) (length (grid_store w)) inputs w1)
    as [[[[x y] rest]|e] w1'] eqn:Hask; simpl in Hreads; subst w1'.
  - right. split; [reflexivity|].
    destruct (ask_first_move _ _ _ _ _ _ _ _ Hask) as (_ & refused & line & _ & Hline & _).
    destruct (view_move_keeps_contract true w line s w1 x y w1 Hw Hget Hline)
      as (_ & _ & _ & Hte & _ & Hok).
    exists (x - 1)%Z, (y - 1)%Z, rest.
    split; [eapply ask_shortens; eauto|]. split; [exact Hte|].
    unfold TTTController.setCell in *. split; [exact Hok|].
    simpl fst. simpl snd. unfold bind, exec.
    destruct (TTTModelScale.setCell (x - 1) (y - 1) w1) as [[[]|e] w2];
      [reflexivity | discriminate].
  - left. split; [reflexivity|]. exists e. split; [|reflexivity].
    eapply ask_raises; eauto.
Qed.

Lemma count_of_blank m n : m <> " " -> count_of m (repeat " " n) = 0.
Proof.
  intros Hm. induction n as [|n IH]; [reflexivity|].
  change (count_of m (repeat " " (S n)))
    with (if String.eqb " " m then S (count_of m (repeat " " n))
          else count_of m (repeat " " n)).
  destruct (String.eqb_spec " " m); [congruence | exact IH].
Qed.

Lemma count_cells_blank m n k :
  m <> " " -> count_cells m (repeat (repeat " " n) k) = 0.
Proof.
  intros Hm. induction k as [|k IH]; [reflexivity|].
  change (count_cells m (repeat (repeat " " n) (S k)))
    with (count_of m (repeat " " n) + count_cells m (repeat (repeat " " n) k)).
  now rewrite IH, count_of_blank.
Qed.

Lemma in_play_balanced w :
  in_play w -> exists fld, play_field w = Some fld /\ balanced w fld.
Proof.
  induction 1 as [n obs | w Hp (fld & Hpf & Hb) | w x y Hp (fld & Hpf & Hb) Hst Hte].
  - exists (repeat (repeat " " n) n). split; [eapply play_field_owns, start_owns|].
    unfold balanced. rewrite start_spec. simpl. left.
    split; [reflexivity|]. now rewrite !count_cells_blank by discriminate.
  - pose proof (in_play_strict w Hp) as Hw.
    destruct (reachable_invariant _ _ Hw) as (n & _ & rows & fld0 & Hown & _).
    exists fld. split.
    + rewrite (play_field_owns _ rows fld0 (getData_owns w rows fld0 Hown)).
      now rewrite <- Hpf, (play_field_owns w rows fld0 Hown).
    + unfold balanced in *. now rewrite (getData_model w rows fld0 Hown).
  - pose proof (in_play_strict w Hp) as Hw.
    destruct (reachable_invariant _ _ Hw)
      as (n & Hsz & rows & fld0 & Hown & Hsq & Hpl & _).
    assert (fld0 = fld) as -> by (rewrite (play_field_owns w rows fld0 Hown) in Hpf; congruence).
    destruct (strict_placement n w rows fld x y Hsz Hown Hsq Hte)
      as (i & j & r & line & won & Hline & Hj & _ & Hset & Hown' & _).
    cbv zeta in *. unfold exec. rewrite Hset.
    eexists. split; [eapply play_field_owns; exact Hown'|].
    unfold balanced in Hb. rewrite Hst in Hb.
    pose proof (count_cells_place "X" fld i j line " "
                  (symbol_of (active_player (model w))) Hline Hj) as HX.
    pose proof (count_cells_place "0" fld i j line " "
                  (symbol_of (active_player (model w))) Hline Hj) as H0.
    unfold status_of in Hst.
    destruct (flag_end (model w)) eqn:Hfe; [discriminate|].
    destruct (flag_draw (model w)) eqn:Hfd; [discriminate|].
    unfold balanced, status_of, settle. simpl model.
    destruct Hb as [[Ha Hc] | [Ha Hc]]; rewrite Ha in *;
      unfold symbol_of, other_player in *; simpl in HX, H0;
      destruct won; simpl; rewrite ?Hfd; simpl;
      try (destruct (TTTModelScale.isFullField_on _); simpl);
      try (left; split; [reflexivity|]; lia);
      try (right; split; [reflexivity|]; lia);
      try (left; lia); try (right; lia).
Qed.

Lemma rounds_in_play turns : forall inputs w,
  in_play w -> in_play (exec (Program.rounds turns inputs) w).
Proof.
  induction turns as [|turns IH]; intros inputs w Hp; [exact Hp|].
  destruct (round_cases turns inputs w Hp)
    as [[_ E] | [[_ (e & _ & E)] | [Hst (x & y & rest & _ & Hte & _ & E)]]].
  - unfold exec at 1. rewrite E. now apply play_getData.
  - unfold exec at 1. rewrite E. now apply play_getData.
  - unfold exec at 1. rewrite E. apply IH. apply play_setCell; [now apply play_getData | | exact Hte].
    pose proof (in_play_strict w Hp) as Hw.
    destruct (reachable_invariant _ _ Hw) as (n & _ & rows & fld & Hown & _).
    now rewrite (getData_model w rows fld Hown).
Qed.

Lemma rounds_outcome turns : forall inputs w,
  in_play w -> length inputs < turns ->
  match Program.rounds turns inputs w with
  | (Ok rest, w') => status_of (model w') <> InProgress
  | (Raise e, _) => e = EOFError \/ e = IndexError
  end.
Proof.
  induction turns as [|turns IH]; intros inputs w Hp Hlen; [lia|].
  pose proof (in_play_strict w Hp) as Hw.
  destruct (reachable_invariant _ _ Hw) as (n & _ & rows & fld & Hown & _).
  destruct (round_cases turns inputs w Hp)
    as [[Hst E] | [[_ (e & He & E)] | [Hst (x & y & rest & Hr & Hte & _ & E)]]];
    rewrite E.
  - now rewrite (getData_model w rows fld Hown).
  - exact He.
  - apply IH; [|lia]. apply play_setCell; [now apply play_getData | | exact Hte].
    now rewrite (getData_model w rows fld Hown).
Qed.

Lemma standart_field_cases inputs :
  match TTTViewConsole.standart_field inputs with
  | Ok (a, rest) => (a = "y" \/ a = "n") /\ exists read, inputs = read ++ rest
  | Raise e => e = EOFError
  end.
Proof.
  induction inputs as [|line more IH]; simpl; [reflexivity|].
  destruct (String.eqb line "").
  { split; [now left|]. now exists [line]. }
  destruct (String.eqb_spec line "y") as [->|Hy].
  { split; [now left|]. now exists ["y"]. }
  destruct (String.eqb_spec line "n") as [->|Hn].
  { split; [now right|]. now exists ["n"]. }
  simpl. destruct (TTTViewConsole.standart_field more) as [[a rest]|e]; [|exact IH].
  destruct IH as (Ha & read & ->). split; [exact Ha|]. now exists (line :: read).
Qed.

Lemma start_from_construct i obs :
  (0 <= i)%Z ->
  bind TTTModelScale.startPlay (fun _ => ret tt)
    (exec (TTTModelScale.size_setter i) (construct obs))
  = (Ok tt, start (Z.to_nat i) obs).
Proof.
  intros Hi. unfold bind, start, exec. rewrite Z2Nat.id by assumption.
  now rewrite startPlay_spec.
Qed.

Lemma main_unfold inputs :
  Program.main inputs
  = match TTTViewConsole.standart_field inputs with
    | Ok (a, rest) =>
        if String.eqb a "y"
        then Program.play rest (start 3 [Program.the_view])
        else match TTTViewConsole.queryChangeSize rest with
             | Ok (i, rest') =>
                 Program.play rest'
                   (exec TTTModelScale.startPlay
                      (exec (TTTModelScale.size_setter i) (construct [Program.the_view])))
             | Raise e => (Raise e, construct [Program.the_view])
             end
    | Raise e => (Raise e, construct [Program.the_view])
    end.
Proof.
  assert (TTTModelScale.registerObserver Program.the_view TTTModelScale.new
          = (Ok tt, construct [Program.the_view])) as Hreg by reflexivity.
  unfold Program.main, Program.TTTController_init, Program.TTTView_init,
    Program.printStartMessage.
  unfold bind at 1. rewrite Hreg. unfold bind at 1. unfold lift at 1.
  destruct (TTTViewConsole.standart_field inputs) as [[a rest]|e]; [|reflexivity].
  cbn [fst snd]. destruct (String.eqb a "y").
  - unfold Program.startWithStandartSize, bind. rewrite startPlay_spec. reflexivity.
  - unfold Program.startWithNoStandartSize. unfold bind at 1. unfold lift at 1.
    destruct (TTTViewConsole.queryChangeSize rest) as [[i rest']|e]; [|reflexivity].
    cbn [fst snd]. unfold bind at 1.
    unfold TTTModelScale.size_setter at 1. unfold assign at 1.
    unfold bind. rewrite startPlay_spec. unfold exec.
    unfold TTTModelScale.size_setter, assign. cbn [snd]. rewrite startPlay_spec.
    reflexivity.
Qed.

(** The size that [queryChangeSize] returns is the default or a number
    that was typed. *)
Lemma queryChangeSize_typed inputs : forall i rest,
  TTTViewConsole.queryChangeSize inputs = Ok (i, rest) ->
  i = 3%Z \/ exists line, In line inputs /\ TTTView.int line = Ok i.
Proof.
  induction inputs as [|line more IH]; intros i rest; simpl; [discriminate|].
  assert (TTTViewConsole.queryChangeSize more = Ok (i, rest) ->
          i = 3%Z \/ exists l, (line = l \/ In l more) /\ TTTView.int l = Ok i) as IH'.
  { intros H. destruct (IH _ _ H) as [-> | (l & Hl & Hi)]; [now left|].
    right. exists l. auto. }
  destruct (String.eqb line ""); [intros [= <- _]; now left|].
  destruct (TTTView.int line) as [i0|e] eqn:E.
  - destruct (i0 <? 3)%Z; [exact IH'|].
    intros [= <- _]. right. exists line. auto.
  - destruct e; try discriminate. exact IH'.
Qed.

(** How [main] gets to the game: the dialog runs out of input before the
    play starts, or the play starts on an empty field of side 3 or more
    with the view as the one observer; the side is 3 or a number that was
    typed. *)
Lemma main_cases inputs :
  Program.main inputs = (Raise EOFError, construct [Program.the_view])
  \/ exists n rest,
       3 <= n
       /\ (n = 3 \/ exists line, In line inputs /\ TTTView.int line = Ok (Z.of_nat n))
       /\ (exists read, inputs = read ++ rest)
       /\ Program.main inputs = Program.play rest (start n [Program.the_view]).
Proof.
  rewrite main_unfold.
  pose proof (standart_field_cases inputs) as Hs.
  destruct (TTTViewConsole.standart_field inputs) as [[a rest]|e]; [|left; now subst].
  destruct Hs as (Ha & read & ->).
  destruct (String.eqb a "y").
  { right. exists 3, rest. split; [lia|]. split; [now left|]. split; eauto. }
  pose proof (queryChangeSize_size rest) as Hq.
  pose proof (queryChangeSize_typed rest) as Ht.
  destruct (TTTViewConsole.queryChangeSize rest) as [[i rest']|e]; [|left; now subst].
  destruct Hq as (Hi & read' & Hrest & _). right.
  exists (Z.to_nat i), rest'. split; [lia|].
  split.
  { destruct (Ht i rest' eq_refl) as [-> | (line & Hin & Hint)]; [now left|].
    right. exists line. split; [apply in_or_app; now right|].
    now rewrite Z2Nat.id by lia. }
  subst rest.
  split; [exists (read ++ read'); now rewrite app_assoc|].
  unfold start. rewrite Z2Nat.id by lia. reflexivity.
Qed.

Lemma modest_lines inputs :
  modest inputs = true ->
  length inputs <= most_lines
  /\ forall line, In line inputs -> modest_line line = true.
Proof.
  unfold modest. intros H. apply andb_prop in H as [Hlen Hall].
  split; [now apply Nat.leb_le|]. now apply forallb_forall.
Qed.

(** The play of [inputs] puts at most one mark on the field for each line
    of input: every move takes a line at least. *)
Lemma rounds_marks turns : forall inputs w fld,
  in_play w -> play_field w = Some fld ->
  exists fld',
    play_field (exec (Program.rounds turns inputs) w) = Some fld'
    /\ count_cells "X" fld' + count_cells "0" fld'
       <= count_cells "X" fld + count_cells "0" fld + length inputs.
Proof.
  induction turns as [|turns IH]; intros inputs w fld Hp Hpf.
  { exists fld. split; [exact Hpf | lia]. }
  pose proof (in_play_strict w Hp) as Hw.
  destruct (reachable_invariant _ _ Hw) as (n & Hsz & rows & fld0 & Hown & Hsq & _).
  assert (fld0 = fld) as ->
    by (rewrite (play_field_owns w rows fld0 Hown) in Hpf; congruence).
  pose proof (getData_owns w rows fld Hown) as Hown1.
  pose proof (getData_model w rows fld Hown) as Hm.
  destruct (round_cases turns inputs w Hp)
    as [[_ E] | [[_ (e & _ & E)] | [Hst (x & y & rest & Hlen & Hte & _ & E)]]].
  - exists fld. unfold exec at 1. rewrite E. simpl.
    split; [eapply play_field_owns; exact Hown1 | lia].
  - exists fld. unfold exec at 1. rewrite E. simpl.
    split; [eapply play_field_owns; exact Hown1 | lia].
  - assert (exec (Program.rounds (S turns) inputs) w
            = exec (Program.rounds turns rest)
                (exec (TTTModelScale.setCell x y) (exec TTTModelScale.getData w))) as ->
      by (unfold exec at 1; now rewrite E).
    assert (in_play (exec (TTTModelScale.setCell x y) (exec TTTModelScale.getData w))) as Hp2
      by (apply play_setCell; [now apply play_getData | now rewrite Hm | exact Hte]).
    assert (size (model (exec TTTModelScale.getData w)) = Z.of_nat n) as Hsz1
      by now rewrite Hm.
    destruct (strict_placement n _ rows fld x y Hsz1 Hown1 Hsq Hte)
      as (i & j & r & line & won & Hline & Hj & _ & Hset & Hown' & _).
    cbv zeta in *.
    pose proof (count_cells_place "X" fld i j line " "
                  (symbol_of (active_player (model (exec TTTModelScale.getData w))))
                  Hline Hj) as HX.
    pose proof (count_cells_place "0" fld i j line " "
                  (symbol_of (active_player (model (exec TTTModelScale.getData w))))
                  Hline Hj) as H0.
    destruct (IH rest _ _ Hp2
                (play_field_owns _ rows _
                   (eq_rect_r (fun w2 => owns w2 rows _) Hown'
                      (f_equal snd Hset))))
      as (fld' & Hpf' & Hle).
    exists fld'. split; [exact Hpf'|].
    assert (symbol_of (active_player (model (exec TTTModelScale.getData w))) = "X"
            \/ symbol_of (active_player (model (exec TTTModelScale.getData w))) = "0") as Hsym
      by (unfold symbol_of; destruct (String.eqb _ player_X); [left | right]; reflexivity).
    destruct Hsym as [Hs | Hs]; rewrite Hs in *; simpl in HX, H0; lia.
Qed.

Lemma rounds_keeps turns : forall inputs w,
  in_play w ->
  size (model (exec (Program.rounds turns inputs) w)) = size (model w)
  /\ observers (model (exec (Program.rounds turns inputs) w)) = observers (model w).
Proof.
  induction turns as [|turns IH]; intros inputs w Hp; [split; reflexivity|].
  pose proof (in_play_strict w Hp) as Hw.
  destruct (reachable_invariant _ _ Hw) as (n & _ & rows & fld & Hown & _).
  pose proof (getData_model w rows fld Hown) as Hm.
  destruct (round_cases turns inputs w Hp)
    as [[_ E] | [[_ (e & _ & E)] | [Hst (x & y & rest & _ & Hte & Hok & E)]]].
  - assert (exec (Program.rounds (S turns) inputs) w = exec TTTModelScale.getData w) as ->
      by (unfold exec at 1; now rewrite E).
    now rewrite Hm.
  - assert (exec (Program.rounds (S turns) inputs) w = exec TTTModelScale.getData w) as ->
      by (unfold exec at 1; now rewrite E).
    now rewrite Hm.
  - assert (exec (Program.rounds (S turns) inputs) w
            = exec (Program.rounds turns rest)
                (exec (TTTModelScale.setCell x y) (exec TTTModelScale.getData w))) as ->
      by (unfold exec at 1; now rewrite E).
    assert (in_play (exec TTTModelScale.getData w)) as Hp1 by now apply play_getData.
    assert (in_play (exec (TTTModelScale.setCell x y) (exec TTTModelScale.getData w))) as Hp2
      by (apply play_setCell; [exact Hp1 | now rewrite Hm | exact Hte]).
    destruct (IH rest _ Hp2) as [-> ->].
    destruct (reachable_invariant _ _ (in_play_strict _ Hp1)) as (n1 & Hinv1).
    pose proof Hinv1 as (Hsz1 & rows1 & fld1 & Hown1 & Hsq1 & _).
    destruct (targets_empty_cell n1 _ rows1 fld1 x y Hown1 Hsq1 Hte) as (i & j & Hx & Hy & _).
    destruct (setCell_writes n1 _ x y i j Hinv1 Hx Hy)
      as (? & ? & ? & w2 & _ & Hset & _ & _ & _ & Hs & Ho & _).
    assert (exec (TTTModelScale.setCell x y) (exec TTTModelScale.getData w) = w2) as ->
      by (unfold exec at 1; now rewrite Hset).
    now rewrite Hs, Ho, Hm.
Qed.

(** [main] on modest input: the side of the field is [largest_side] at
    most, and the game is left with no more lines than were typed. *)
Lemma main_modest inputs :
  modest inputs = true ->
  Program.main inputs = (Raise EOFError, construct [Program.the_view])
  \/ exists n rest,
       3 <= n /\ (Z.of_nat n <= largest_side)%Z
       /\ (exists read, inputs = read ++ rest)
       /\ Program.main inputs = Program.play rest (start n [Program.the_view]).
Proof.
  intros Hm. destruct (modest_lines inputs Hm) as [_ Hall].
  destruct (main_cases inputs) as [E | (n & rest & Hn & Hside & Hread & E)]; [now left|].
  right. exists n, rest. split; [exact Hn|]. split; [|now split].
  destruct Hside as [-> | (line & Hin & Hint)]; [unfold largest_side; lia|].
  specialize (Hall line Hin). unfold modest_line in Hall. rewrite Hint in Hall.
  apply andb_prop in Hall as [_ Hle]. now apply Z.leb_le.
Qed.

(** X15.  On modest input [main] either runs out of input during the
    dialog at the start, with no field made yet, or starts the play on an
    empty field of side 3 at least and [largest_side] at most, the cross
    player to move, with the view as the one observer, and the rest of the
    input left for the game. *)
Theorem main_starts_game inputs :
  modest inputs = true ->
  Program.main inputs = (Raise EOFError, construct [Program.the_view])
  \/ exists n rest,
       3 <= n /\ (Z.of_nat n <= largest_side)%Z
       /\ (exists read, inputs = read ++ rest)
       /\ Program.main inputs = Program.play rest (start n [Program.the_view]).
Proof. apply main_modest. Qed.

Lemma main_starts_game_witness :
  Program.main ["maybe"; "n"; "two"; "2"; "4"; "1 1"]
  = (Raise EOFError, construct [Program.the_view])
  \/ exists n rest,
       3 <= n /\ (Z.of_nat n <= largest_side)%Z
       /\ (exists read, ["maybe"; "n"; "two"; "2"; "4"; "1 1"] = read ++ rest)
       /\ Program.main ["maybe"; "n"; "two"; "2"; "4"; "1 1"]
          = Program.play rest (start n [Program.the_view]).
Proof.
  apply (main_starts_game ["maybe"; "n"; "two"; "2"; "4"; "1 1"]).
  vm_compute. reflexivity.
Defined.

(** X16.  In every run of the program on modest input that gets past the
    dialog, every call of [setCell] is made while the game is in progress
    and on a cell that holds a space; so in the world the program ends in,
    the two flags are not both up, the size is 3 at least and
    [largest_side] at most, the view is still the one observer, and the
    field holds no more marks than lines were typed, every move taking one
    line at least. *)
Theorem program_plays_by_the_rules inputs :
  modest inputs = true ->
  snd (Program.main inputs) = construct [Program.the_view]
  \/ (in_play (snd (Program.main inputs))
      /\ reachable true (snd (Program.main inputs))
      /\ flag_end (model (snd (Program.main inputs)))
         && flag_draw (model (snd (Program.main inputs))) = false
      /\ (3 <= size (model (snd (Program.main inputs))) <= largest_side)%Z
      /\ observers (model (snd (Program.main inputs))) = [Program.the_view]
      /\ exists fld,
           play_field (snd (Program.main inputs)) = Some fld
           /\ count_cells "X" fld + count_cells "0" fld <= length inputs).
Proof.
  intros Hm.
  destruct (main_modest inputs Hm) as [-> | (n & rest & Hn & Hside & (read & Hread) & ->)];
    [now left|].
  right. unfold Program.play.
  pose proof (rounds_in_play (S (length rest)) rest _ (play_start n [Program.the_view])) as Hp.
  destruct (rounds_keeps (S (length rest)) rest _ (play_start n [Program.the_view]))
    as [Hs Ho].
  destruct (rounds_marks (S (length rest)) rest _ (repeat (repeat " " n) n)
              (play_start n [Program.the_view])
              (play_field_owns _ _ _ (start_owns n [Program.the_view])))
    as (fld & Hpf & Hle).
  unfold exec in *. split; [exact Hp|].
  split; [now apply in_play_strict|]. split; [now apply strict_exclusive, in_play_strict|].
  split; [rewrite Hs, start_spec; unfold largest_side in *; simpl; lia|].
  split; [rewrite Ho, start_spec; reflexivity|].
  exists fld. split; [exact Hpf|].
  rewrite !count_cells_blank in Hle by discriminate.
  subst inputs. rewrite length_app. lia.
Qed.

Lemma program_plays_by_the_rules_witness :
  snd (Program.main ["y"; "1 1"; "2 1"; "1 1"; "1 2"; "2 2"; "1 3"])
  = construct [Program.the_view]
  \/ (in_play (snd (Program.main ["y"; "1 1"; "2 1"; "1 1"; "1 2"; "2 2"; "1 3"]))
      /\ reachable true (snd (Program.main ["y"; "1 1"; "2 1"; "1 1"; "1 2"; "2 2"; "1 3"]))
      /\ flag_end (model (snd (Program.main ["y"; "1 1"; "2 1"; "1 1"; "1 2"; "2 2"; "1 3"])))
         && flag_draw
              (model (snd (Program.main ["y"; "1 1"; "2 1"; "1 1"; "1 2"; "2 2"; "1 3"])))
         = false
      /\ (3 <= size (model (snd (Program.main
                                   ["y"; "1 1"; "2 1"; "1 1"; "1 2"; "2 2"; "1 3"])))
          <= largest_side)%Z
      /\ observers (model (snd (Program.main
                                  ["y"; "1 1"; "2 1"; "1 1"; "1 2"; "2 2"; "1 3"])))
         = [Program.the_view]
      /\ exists fld,
           play_field (snd (Program.main ["y"; "1 1"; "2 1"; "1 1"; "1 2"; "2 2"; "1 3"]))
           = Some fld
           /\ count_cells "X" fld + count_cells "0" fld
              <= length ["y"; "1 1"; "2 1"; "1 1"; "1 2"; "2 2"; "1 3"]).
Proof.
  apply (program_plays_by_the_rules ["y"; "1 1"; "2 1"; "1 1"; "1 2"; "2 2"; "1 3"]).
  vm_compute. reflexivity.
Defined.

(** X17.  On modest input the program stops in one of three ways only: it
    returns, and then the game is won or drawn; or the input ends
    ([EOFError]); or the view's test of the cell raises [IndexError].  The
    turns given to the game, one more than the lines of input, are never
    used up. *)
Theorem program_ends inputs :
  modest inputs = true ->
  match Program.main inputs with
  | (Ok rest, w') => status_of (model w') = Won \/ status_of (model w') = Drawn
  | (Raise e, _) => e = EOFError \/ e = IndexError
  end.
Proof.
  intros _.
  destruct (main_cases inputs) as [-> | (n & rest & Hn & _ & _ & ->)]; [now left|].
  unfold Program.play.
  pose proof (rounds_outcome (S (length rest)) rest _ (play_start n [Program.the_view])
                (Nat.lt_succ_diag_r _)) as H.
  destruct (Program.rounds (S (length rest)) rest (start n [Program.the_view]))
    as [[left|e] w']; [|exact H].
  destruct (status_of (model w')); auto. contradiction.
Qed.

Lemma program_ends_witness :
  match Program.main ["y"; "1 1"; "2 1"; "1 1"; "1 2"; "2 2"; "1 3"; "3 3"] with
  | (Ok rest, w') => status_of (model w') = Won \/ status_of (model w') = Drawn
  | (Raise e, _) => e = EOFError \/ e = IndexError
  end.
Proof.
  apply (program_ends ["y"; "1 1"; "2 1"; "1 1"; "1 2"; "2 2"; "1 3"; "3 3"]).
  vm_compute. reflexivity.
Defined.

(** X18.  In every run of the program on modest input that gets past the
    dialog, the play-field it ends with holds as many crosses as zeros, or
    one cross more; and if the game is still in progress there (the input
    ended), the cross player is the active player exactly when the two
    counts are equal. *)
Theorem marks_alternate inputs :
  modest inputs = true ->
  snd (Program.main inputs) = construct [Program.the_view]
  \/ exists fld,
       play_field (snd (Program.main inputs)) = Some fld
       /\ count_cells "0" fld <= count_cells "X" fld <= S (count_cells "0" fld)
       /\ (status_of (model (snd (Program.main inputs))) = InProgress ->
           (active_player (model (snd (Program.main inputs))) = player_X
            <-> count_cells "X" fld = count_cells "0" fld)).
Proof.
  intros _.
  destruct (main_cases inputs) as [-> | (n & rest & Hn & _ & _ & ->)]; [now left|].
  right. unfold Program.play.
  pose proof (rounds_in_play (S (length rest)) rest _ (play_start n [Program.the_view])) as Hp.
  unfold exec in Hp. destruct (in_play_balanced _ Hp) as (fld & Hpf & Hb).
  exists fld. split; [exact Hpf|]. unfold balanced in Hb.
  destruct (status_of (model _)).
  - split; [lia | discriminate].
  - split; [lia | discriminate].
  - split; [lia|]. intros _. destruct Hb as [[Ha Hc] | [Ha Hc]]; rewrite Ha.
    + split; auto.
    + split; [discriminate | lia].
Qed.

Lemma marks_alternate_witness :
  snd (Program.main ["n"; "4"; "1 1"; "0 4"; "2 2"]) = construct [Program.the_view]
  \/ exists fld,
       play_field (snd (Program.main ["n"; "4"; "1 1"; "0 4"; "2 2"])) = Some fld
       /\ count_cells "0" fld <= count_cells "X" fld <= S (count_cells "0" fld)
       /\ (status_of (model (snd (Program.main ["n"; "4"; "1 1"; "0 4"; "2 2"]))) = InProgress ->
           (active_player (model (snd (Program.main ["n"; "4"; "1 1"; "0 4"; "2 2"]))) = player_X
            <-> count_cells "X" fld = count_cells "0" fld)).
Proof.
  apply (marks_alternate ["n"; "4"; "1 1"; "0 4"; "2 2"]).
  vm_compute. reflexivity.
Defined.

Lemma load_cell_index_error n w rows fld x y :
  owns w rows fld -> square n fld ->
  py_index n x = None \/ py_index n y = None ->
  load_cell (field (model w)) x y w = (Raise IndexError, w).
Proof.
  intros Hown Hsq Hxy. pose proof Hown as (Hg & _ & Hrows).
  pose proof (square_lengths n fld rows w Hsq Hrows) as Hlr.
  unfold load_cell, bind, load_grid, lift, load_row, getitem.
  rewrite Hg, Hlr.
  destruct (py_index n x) as [i|] eqn:Hx; [|reflexivity].
  destruct Hxy as [|Hy]; [discriminate|].
  apply py_index_Some in Hx as Hi. destruct Hi as [Hi _].
  destruct (lookup_lt_is_Some_2 rows i) as [r Hr]; [lia|].
  destruct (lookup_lt_is_Some_2 fld i) as [line Hline]; [destruct Hsq; lia|].
  rewrite Forall2_same_length_lookup in Hrows. destruct Hrows as [_ Hall].
  rewrite Hr, (Hall i r line Hr Hline), (square_row_length n fld i line Hsq Hline), Hy.
  reflexivity.
Qed.

(** X19.  In a started game of size N, a line typed for two numbers of
    4300 digits at most that are not greater than N, one of them -N or
    less, is not refused with a warning: the view's test of the cell raises
    [IndexError], which its [except ValueError] does not catch. *)
Theorem line_far_below_raises strict w n a x b y c s w1 :
  reachable strict w ->
  size (model w) = Z.of_nat n ->
  short_number x -> short_number y ->
  (x <= Z.of_nat n)%Z -> (y <= Z.of_nat n)%Z ->
  (x <= - Z.of_nat n \/ y <= - Z.of_nat n)%Z ->
  TTTModelScale.getData w = (Ok s, w1) ->
  TTTView.guarded (TTTModelScale.snap_size s) (TTTModelScale.snap_field s)
    (typed a x b y c) w1
  = (Raise IndexError, w1).
Proof.
  intros Hw Hsz _ _ Hx Hy Hlow Hget.
  destruct (reachable_invariant _ _ Hw) as (n' & Hsz' & rows & fld & Hown & Hsq & _).
  assert (n' = n) as -> by lia.
  pose proof Hown as (Hg & _).
  pose proof (getData_owns w rows fld Hown) as Hown1.
  unfold exec in Hown1. rewrite Hget in Hown1. simpl in Hown1.
  rewrite (getData_spec w rows Hg) in Hget. injection Hget as <- <-.
  set (w1 := mkWorld (model w) (row_store w) (grid_store w ++ [rows]) (log w)) in *.
  rewrite guarded_typed. simpl TTTModelScale.snap_size. simpl TTTModelScale.snap_field.
  rewrite Hsz.
  destruct (Z.ltb_spec (Z.of_nat n) x); [lia|].
  destruct (Z.ltb_spec (Z.of_nat n) y); [lia|]. simpl orb. cbv iota.
  rewrite (load_cell_same_rows _ (field (model w1))).
  - rewrite (load_cell_index_error n w1 rows fld); [reflexivity | exact Hown1 | exact Hsq |].
    rewrite !py_index_None. lia.
  - simpl. rewrite lookup_app_r, Nat.sub_diag by lia. simpl.
    symmetry. now apply lookup_app_l_Some.
Qed.

Lemma line_far_below_raises_witness :
  TTTView.guarded
    (TTTModelScale.snap_size (TTTModelScale.mkSnapshot 3 false false player_X 2))
    (TTTModelScale.snap_field (TTTModelScale.mkSnapshot 3 false false player_X 2))
    (typed 0 (-5) 0 1 0) (exec TTTModelScale.getData (start 3 [0]))
  = (Raise IndexError, exec TTTModelScale.getData (start 3 [0])).
Proof.
  apply (line_far_below_raises true (start 3 [0]) 3 0 (-5) 0 1 0).
  - apply reach_start.
  - reflexivity.
  - vm_compute. reflexivity.
  - vm_compute. reflexivity.
  - lia.
  - lia.
  - lia.
  - vm_compute. reflexivity.
Defined.

(** ** The field on the console *)

Lemma add_elements_cons p e row :
  TTTViewConsole.add_elements p (e :: row)
  = TTTViewConsole.add_elements (p ++ String " " e)%string row.
Proof. reflexivity. Qed.

Lemma add_elements_app p row :
  TTTViewConsole.add_elements p row = (p ++ TTTViewConsole.add_elements "" row)%string.
Proof.
  revert p. induction row as [|e row IH]; intros p.
  - simpl. now rewrite append_nil_r.
  - rewrite !add_elements_cons.
    rewrite (IH (p ++ String " " e)%string), (IH ("" ++ String " " e)%string).
    now rewrite !append_assoc.
Qed.

Lemma append_cancel_l p s t : (p ++ s)%string = (p ++ t)%string -> s = t.
Proof. induction p as [|c p IH]; simpl; [auto|]. intros [= H]. auto. Qed.

Lemma add_elements_inj row : forall row',
  Forall (fun c => String.length c = 1) row ->
  Forall (fun c => String.length c = 1) row' ->
  TTTViewConsole.add_elements "" row = TTTViewConsole.add_elements "" row' ->
  row = row'.
Proof.
  induction row as [|e row IH]; intros [|e' row'] Hr Hr'.
  - reflexivity.
  - rewrite add_elements_cons, (add_elements_app _ row'). simpl. intros [=].
  - rewrite add_elements_cons, (add_elements_app _ row). simpl. intros [=].
  - inversion Hr as [|? ? He Hrow]; subst. inversion Hr' as [|? ? He' Hrow']; subst.
    rewrite !add_elements_cons.
    rewrite (add_elements_app _ row), (add_elements_app _ row').
    destruct e as [|c [|]]; try discriminate. destruct e' as [|c' [|]]; try discriminate.
    simpl. intros [= -> H]. f_equal. now apply IH.
Qed.

Lemma rows_inj fld : forall k fld',
  one_char_cells fld -> one_char_cells fld' ->
  map (fun row => TTTViewConsole.add_elements (" " ++ TTTViewConsole.str (fst row))%string
                    (snd row)) (TTTViewConsole.enumerate k fld)
  = map (fun row => TTTViewConsole.add_elements (" " ++ TTTViewConsole.str (fst row))%string
                      (snd row)) (TTTViewConsole.enumerate k fld') ->
  fld = fld'.
Proof.
  induction fld as [|row fld IH]; intros k [|row' fld'] H1 H1'; simpl;
    try reflexivity; try discriminate.
  inversion H1; subst. inversion H1'; subst.
  rewrite (add_elements_app _ row), (add_elements_app _ row').
  intros [= Hrow Hrest]. f_equal.
  - apply add_elements_inj; auto. eapply append_cancel_l.
    change (String " " (TTTViewConsole.str k ++ TTTViewConsole.add_elements "" row)%string)
      with ((String " " (TTTViewConsole.str k)) ++ TTTViewConsole.add_elements "" row)%string
      in Hrow.
    exact (f_equal (fun s => s) Hrow).
  - eapply IH; eauto.
Qed.

(** X20.  What [buildField] prints determines the play-field: it prints one
    line more than the field has rows, and two fields whose cells are
    strings of one character, as the cells of the model are, and that give
    the same lines are the same field. *)
Theorem buildField_tells_the_field fld fld' sz :
  one_char_cells fld -> one_char_cells fld' ->
  length (TTTViewConsole.buildField fld sz) = S (length fld)
  /\ (TTTViewConsole.buildField fld sz = TTTViewConsole.buildField fld' sz -> fld = fld').
Proof.
  intros H H'. split.
  - unfold TTTViewConsole.buildField. simpl. rewrite length_map. f_equal.
    generalize 1%Z. induction fld as [|row fld IH]; intros k; simpl; [reflexivity|].
    inversion H; subst. f_equal. now apply IH.
  - unfold TTTViewConsole.buildField. intros [= E]. eapply rows_inj; eauto.
Qed.

Lemma buildField_tells_the_field_witness :
  length (TTTViewConsole.buildField [["X"; " "]; ["0"; "X"]] 2) = S (length [["X"; " "]; ["0"; "X"]])
  /\ (TTTViewConsole.buildField [["X"; " "]; ["0"; "X"]] 2
      = TTTViewConsole.buildField [["X"; " "]; ["0"; " "]] 2 ->
      [["X"; " "]; ["0"; "X"]] = [["X"; " "]; ["0"; " "]]).
Proof.
  apply (buildField_tells_the_field [["X"; " "]; ["0"; "X"]] [["X"; " "]; ["0"; " "]] 2);
    repeat constructor.
Defined.
